(** * catrepo: file selection and tree view

    A shallow embedding of [src/catrepo/walker.py] and [src/catrepo/tree.py]
    together with the properties the specification states about them.

    Conventions.
    - A Python [str] is a Rocq [string]; every [ascii] stands for one
      character (code points below 256). The connectors [render_tree]
      draws lie above that range and are written as their UTF-8 bytes;
      nothing measures their length.
    - A [pathlib.Path] is the list of its [parts].
    - Code that can raise returns a [result]; the exceptions that occur are
      listed in [exn].
    - The interpreter's stack is not modelled. The recursive functions of
      tree.py are structural recursions of any depth: they give the result
      of every call that returns, and give one too where the interpreter
      stops with [RecursionError] on a tree deeper than its recursion limit.
      What is stated of these functions at arbitrary inputs is therefore
      stated of the results they return.
    - In-place mutation of tree nodes is rendered by returning the updated
      node: the tree owns its children and no node is shared. *)

From Stdlib Require Import List String Ascii ZArith QArith Bool Lia Permutation.
From Stdlib Require Import DecimalString.
From Stdlib Require Strings.Byte Sorting.Sorted.
Import ListNotations.

Local Open Scope string_scope.
Local Open Scope Z_scope.

(** ** Exceptions *)

Inductive exn : Type :=
| IndexError
| OverflowError
| UnicodeDecodeError
| OSError.

Inductive result (A : Type) : Type :=
| Ok (a : A)
| Raise (e : exn).

Arguments Ok {A} a.
Arguments Raise {A} e.

Definition bind {A B : Type} (r : result A) (k : A -> result B) : result B :=
  match r with
  | Ok a => k a
  | Raise e => Raise e
  end.

Notation "x <- r ;; k" := (bind r (fun x => k))
  (at level 61, r at next level, right associativity).

(** [[f(x) for x in l]]: the calls are made from left to right and the first
    one that raises ends the comprehension. *)
Fixpoint map_result {A B : Type} (f : A -> result B) (l : list A) : result (list B) :=
  match l with
  | [] => Ok []
  | x :: l' => y <- f x ;; ys <- map_result f l' ;; Ok (y :: ys)
  end.

(** ** Python string operations *)

Module PyStr.

Definition backslash : ascii := "\"%char.
Definition slash : ascii := "/"%char.
Definition newline : ascii := "010"%char.

Fixpoint map_chars (f : ascii -> ascii) (s : string) : string :=
  match s with
  | EmptyString => EmptyString
  | String c s' => String (f c) (map_chars f s')
  end.

(** [s.replace("\\", "/")] *)
Definition normalize_sep (s : string) : string :=
  map_chars (fun c => if Ascii.eqb c backslash then slash else c) s.

Definition startswith (s pre : string) : bool := String.prefix pre s.

Fixpoint mem_char (c : ascii) (chars : string) : bool :=
  match chars with
  | EmptyString => false
  | String d chars' => Ascii.eqb c d || mem_char c chars'
  end.

(** [s.lstrip(chars)] *)
Fixpoint lstrip (chars : string) (s : string) : string :=
  match s with
  | EmptyString => EmptyString
  | String c s' => if mem_char c chars then lstrip chars s' else s
  end.

(** [s.rstrip(chars)] *)
Fixpoint rstrip (chars : string) (s : string) : string :=
  match s with
  | EmptyString => EmptyString
  | String c s' =>
      match rstrip chars s' with
      | EmptyString => if mem_char c chars then EmptyString else String c EmptyString
      | r => String c r
      end
  end.

(** The characters [str.isspace] accepts below code point 256. *)
Definition whitespace : string :=
  String "009" (String "010" (String "011" (String "012" (String "013"
  (String "028" (String "029" (String "030" (String "031" (String "032"
  (String "133" (String "160" EmptyString))))))))))).

(** [s.strip()] *)
Definition strip (s : string) : string := lstrip whitespace (rstrip whitespace s).

(** [s.endswith(suf)] *)
Fixpoint endswith (s suf : string) : bool :=
  String.eqb s suf ||
  match s with
  | EmptyString => false
  | String _ s' => endswith s' suf
  end.

(** [sub in s] *)
Fixpoint contains (sub s : string) : bool :=
  String.prefix sub s ||
  match s with
  | EmptyString => false
  | String _ s' => contains sub s'
  end.

(** [s.split(sep)] for a one-character separator. *)
Fixpoint split (sep : ascii) (s : string) : list string :=
  match s with
  | EmptyString => [EmptyString]
  | String c s' =>
      if Ascii.eqb c sep then EmptyString :: split sep s'
      else match split sep s' with
           | [] => [String c EmptyString]
           | w :: ws => String c w :: ws
           end
  end.

(** [sep.join(l)] *)
Definition join (sep : string) (l : list string) : string := String.concat sep l.

(** [s.replace(old, new)] for a non-empty [old]: occurrences are replaced from
    left to right and never overlap. [skip] counts the characters of an
    occurrence that are still to be dropped. *)
Fixpoint replace_from (old new : string) (skip : nat) (s : string) : string :=
  match s with
  | EmptyString => EmptyString
  | String c s' =>
      match skip with
      | S k => replace_from old new k s'
      | O =>
          if String.prefix old s
          then new ++ replace_from old new (Nat.pred (String.length old)) s'
          else String c (replace_from old new O s')
      end
  end.

Definition replace (old new s : string) : string := replace_from old new O s.

(** [os.path.basename] on POSIX: what follows the last slash. *)
Definition basename (s : string) : string := List.last (split slash s) EmptyString.

(** [str(n)] for an [int]. *)
Definition str_of_int (n : Z) : string := NilZero.string_of_int (Z.to_int n).

(** [s.lower()]: below code point 256 the upper-case letters are 65 to 90
    and 192 to 222 without 215, each 32 below its lower-case form. *)
Definition lower_char (c : ascii) : ascii :=
  let n := nat_of_ascii c in
  if (Nat.leb 65 n && Nat.leb n 90
      || Nat.leb 192 n && Nat.leb n 222 && negb (Nat.eqb n 215))%bool
  then ascii_of_nat (n + 32) else c.

Definition lower (s : string) : string := map_chars lower_char s.

End PyStr.

(** ** [fnmatch.fnmatch] on POSIX

    The library translates a pattern into a regular expression; the tokens
    below are the pieces of that expression. [*] matches any run of
    characters, [?] one character, [[seq]] and [[!seq]] one character in or
    out of a set, with ranges [lo-hi]; everything else is literal, and so is
    a [[] that is never closed. The whole name has to match. A range whose
    bounds are in the wrong order is read as empty; what the library makes
    of a set that holds one differs between its versions. *)

Module Fnmatch.

Inductive gtok : Type :=
| GStar
| GAny
| GLit (c : ascii)
| GSet (negated : bool) (ranges : list (ascii * ascii)).

Fixpoint index_of (c : ascii) (s : string) : option nat :=
  match s with
  | EmptyString => None
  | String d s' => if Ascii.eqb c d then Some O else option_map S (index_of c s')
  end.

Fixpoint drop (n : nat) (s : string) : string :=
  match n, s with
  | S k, String _ s' => drop k s'
  | _, _ => s
  end.

Fixpoint take (n : nat) (s : string) : string :=
  match n, s with
  | S k, String c s' => String c (take k s')
  | _, _ => EmptyString
  end.

(** The text after an opening bracket: the length of the set's body, when a
    closing bracket exists. A leading [!] and a [ ] ] right after it belong
    to the body. *)
Definition close_index (r : string) : option nat :=
  let j0 := match r with String "!" _ => 1%nat | _ => 0%nat end in
  let j1 := match String.get j0 r with Some "]"%char => S j0 | _ => j0 end in
  option_map (fun k => (j1 + k)%nat) (index_of "]" (drop j1 r)).

(** A hyphen between two characters makes a range; the first character of
    the body and a hyphen at its end are literal. *)
Fixpoint set_ranges (body : string) : list (ascii * ascii) :=
  match body with
  | EmptyString => []
  | String x (String "-" (String y rest)) => (x, y) :: set_ranges rest
  | String x rest => (x, x) :: set_ranges rest
  end.

Definition make_set (stuff : string) : gtok :=
  match stuff with
  | String "!" body => GSet true (set_ranges body)
  | _ => GSet false (set_ranges stuff)
  end.

Fixpoint translate_from (skip : nat) (pat : string) : list gtok :=
  match pat with
  | EmptyString => []
  | String c rest =>
      match skip with
      | S k => translate_from k rest
      | O =>
          if Ascii.eqb c "*" then GStar :: translate_from O rest
          else if Ascii.eqb c "?" then GAny :: translate_from O rest
          else if Ascii.eqb c "[" then
            match close_index rest with
            | None => GLit c :: translate_from O rest
            | Some j => make_set (take j rest) :: translate_from (S j) rest
            end
          else GLit c :: translate_from O rest
      end
  end.

Definition translate (pat : string) : list gtok := translate_from O pat.

Definition in_set (negated : bool) (ranges : list (ascii * ascii)) (c : ascii) : bool :=
  xorb negated (existsb (fun r => Ascii.leb (fst r) c && Ascii.leb c (snd r)) ranges).

Fixpoint glob_match (p : list gtok) (s : string) : bool :=
  match p with
  | [] => match s with EmptyString => true | _ => false end
  | GStar :: p' =>
      (fix star (s : string) : bool :=
         glob_match p' s ||
         match s with
         | EmptyString => false
         | String _ s' => star s'
         end) s
  | GAny :: p' =>
      match s with
      | EmptyString => false
      | String _ s' => glob_match p' s'
      end
  | GLit c :: p' =>
      match s with
      | EmptyString => false
      | String d s' => Ascii.eqb c d && glob_match p' s'
      end
  | GSet negated ranges :: p' =>
      match s with
      | EmptyString => false
      | String d s' => in_set negated ranges d && glob_match p' s'
      end
  end.

(** [fnmatch.fnmatch(name, pat)]; [os.path.normcase] is the identity. *)
Definition fnmatch (name pat : string) : bool := glob_match (translate pat) name.

End Fnmatch.

(** ** The regular expression built by [_matches_exclude_pattern]

    The pattern holds no backslash when it is escaped, so in the escaped
    text a backslash always starts the escape of one special character and
    the three textual replacements act on whole escapes: a pair of stars
    becomes [.*], a remaining star [[^/]*], a question mark [.], and any
    other character stands for itself. The expression is anchored by [^]
    and [$] and run without flags: a dot does not match a newline and [$]
    also matches just before a final newline. *)

Module Regex.

Inductive rtok : Type :=
| RDotStar
| RNoSlashStar
| RDot
| RLit (c : ascii).

Fixpoint compile_from (skip : bool) (pat : string) : list rtok :=
  match pat with
  | EmptyString => []
  | String c rest =>
      if skip then compile_from false rest
      else if String.prefix "**" pat then RDotStar :: compile_from true rest
      else if Ascii.eqb c "*" then RNoSlashStar :: compile_from false rest
      else if Ascii.eqb c "?" then RDot :: compile_from false rest
      else RLit c :: compile_from false rest
  end.

Definition compile (pat : string) : list rtok := compile_from false pat.

Definition at_end (s : string) : bool :=
  match s with
  | EmptyString => true
  | String c EmptyString => Ascii.eqb c PyStr.newline
  | _ => false
  end.

Fixpoint run (r : list rtok) (s : string) : bool :=
  match r with
  | [] => at_end s
  | RDotStar :: r' =>
      (fix star (s : string) : bool :=
         run r' s ||
         match s with
         | EmptyString => false
         | String d s' => negb (Ascii.eqb d PyStr.newline) && star s'
         end) s
  | RNoSlashStar :: r' =>
      (fix star (s : string) : bool :=
         run r' s ||
         match s with
         | EmptyString => false
         | String d s' => negb (Ascii.eqb d PyStr.slash) && star s'
         end) s
  | RDot :: r' =>
      match s with
      | EmptyString => false
      | String d s' => negb (Ascii.eqb d PyStr.newline) && run r' s'
      end
  | RLit c :: r' =>
      match s with
      | EmptyString => false
      | String d s' => Ascii.eqb c d && run r' s'
      end
  end.

(** [re.match("^" + translated + "$", s)] *)
Definition re_match (pat s : string) : bool := run (compile pat) s.

End Regex.

(** ** [pathlib.Path] as the list of its parts *)

Module PyPath.

Definition Path : Type := list string.

(** [str(p)] *)
Definition str (p : Path) : string :=
  match p with
  | [] => "."
  | "/" :: rest => "/" ++ PyStr.join "/" rest
  | _ => PyStr.join "/" p
  end.

(** [p.name]: the last part, empty for the root and for the empty path. *)
Definition name (p : Path) : string :=
  match p with
  | ["/"] => EmptyString
  | _ => List.last p EmptyString
  end.

End PyPath.

(** ** walker.py *)

Module Walker.

Import PyStr.
Import Fnmatch.

Definition DEFAULT_MAX_SIZE : Z := 1048576.

Record FileInfo : Type := mkFileInfo {
  path : PyPath.Path;
  size : Z;
  mtime : Q
}.

(** What the walk finds on disk. [Lines ls e] is a [.gitignore] that opens
    and yields the lines [ls] before the iteration ends as [e] says;
    [ExistsFails] is one for which [gitignore_path.exists()] raises
    [OSError] (a [stat] error that pathlib does not take as "absent", such
    as a denied permission). *)
Inductive read_end : Type :=
| EndOfFile
| ReadOSError
| ReadDecodeError.

Inductive gitignore_file : Type :=
| Missing
| ExistsFails
| OpenFails
| Lines (ls : list string) (e : read_end).

(** One entry of [root.rglob("*")]. [stat] is [None] when [file.stat()]
    raises [OSError]; [is_binary] is [is_binary_path] at the entry for
    either value of [strict]. In [FileSystem], [is_dir pat] is
    [(root / pat).is_dir()], [None] when the call raises [OSError] (a name
    that is too long, a denied permission), and [rglob] is the list of
    entries of a walk that runs to its end. *)
Record Entry : Type := mkEntry {
  rel : PyPath.Path;
  is_file : bool;
  is_binary : bool -> bool;
  stat : option (Z * Q);
  readable : bool
}.

Record FileSystem : Type := mkFileSystem {
  is_dir : string -> option bool;
  gitignore : gitignore_file;
  rglob : list Entry
}.

(** The body of the loop over the lines of [.gitignore]. *)
Definition keep_line (line : string) : option string :=
  let line := strip line in
  if String.eqb line EmptyString || startswith line "#" then None
  else if startswith line "!" then None
  else Some line.

Fixpoint keep_lines (ls : list string) : list string :=
  match ls with
  | [] => []
  | l :: ls' =>
      match keep_line l with
      | Some p => p :: keep_lines ls'
      | None => keep_lines ls'
      end
  end.

Definition _load_gitignore_patterns (g : gitignore_file) : result (list string) :=
  match g with
  | Missing => Ok []
  | ExistsFails => Raise OSError
  | OpenFails => Ok []
  | Lines ls EndOfFile => Ok (keep_lines ls)
  | Lines ls ReadOSError => Ok (keep_lines ls)
  | Lines ls ReadDecodeError => Raise UnicodeDecodeError
  end.

Definition _matches_gitignore_pattern (rel_path pattern : string) : bool :=
  let rel_path := normalize_sep rel_path in
  let pattern := normalize_sep pattern in
  if endswith pattern "/" then
    let pattern := rstrip "/" pattern in
    fnmatch rel_path pattern
    || fnmatch rel_path (pattern ++ "/**")
    || fnmatch rel_path ("*/" ++ pattern)
    || fnmatch rel_path ("*/" ++ pattern ++ "/**")
  else if startswith pattern "/" then
    fnmatch rel_path (drop 1 pattern)
  else if contains "/" pattern then
    fnmatch rel_path pattern || fnmatch rel_path ("**/" ++ pattern)
  else
    fnmatch (basename rel_path) pattern
    || let parts := split "/" rel_path in
       existsb (fun i => fnmatch (nth i parts EmptyString) pattern
                         || fnmatch (join "/" (firstn (S i) parts)) pattern)
               (seq 0 (List.length parts)).

Definition _should_exclude_by_gitignore (rel_path : string) (patterns : list string) : bool :=
  existsb (_matches_gitignore_pattern rel_path) patterns.

Definition _matches_exclude_pattern (rel_path pattern : string) : bool :=
  let rel_path := normalize_sep rel_path in
  let pattern := normalize_sep pattern in
  if contains "**" pattern then
    let base := replace "**/" EmptyString (replace "/**" EmptyString pattern) in
    if negb (contains "/" base) then
      existsb (fun part => fnmatch part base) (split "/" rel_path)
    else Regex.re_match pattern rel_path
  else if contains "*" pattern || contains "?" pattern || contains "/" pattern then
    fnmatch rel_path pattern
  else existsb (fun part => fnmatch part pattern) (split "/" rel_path).

(** [include or ["*"]] and [exclude or []] *)
Definition or_default (given : option (list string)) (default : list string) : list string :=
  match given with
  | None => default
  | Some [] => default
  | Some l => l
  end.

Definition _expand (fs : FileSystem) (pattern : string) : result string :=
  let pat := rstrip "/" (lstrip "./" (normalize_sep pattern)) in
  if String.eqb pat "*" || String.eqb pat "**" then Ok pat
  else match is_dir fs pat with
       | None => Raise OSError
       | Some true => Ok (pat ++ "/**")
       | Some false => Ok pat
       end.

Definition git_included (include : list string) : bool :=
  existsb (fun pat => startswith (lstrip "./" pat) ".git") include.

(** The include list the loop uses. *)
Definition effective_include (fs : FileSystem) (include : option (list string))
    : result (list string) :=
  map_result (_expand fs) (or_default include ["*"]).

(** The exclude list the loop uses, for the include list [inc] already
    expanded. *)
Definition effective_exclude (fs : FileSystem) (inc : list string)
    (exclude : option (list string)) : result (list string) :=
  exclude <- map_result (_expand fs) (or_default exclude []) ;;
  Ok (if negb (git_included inc) then (exclude ++ [".git/**"; ".git"])%list else exclude).

(** The three pattern checks of the loop, in the order of the code; each
    [continue] is a [false]. *)
Definition passes_selection (include exclude : list string) (use_gitignore : bool)
    (gitignore_patterns : list string) (rel_path : string) : bool :=
  if negb (existsb (fun pattern => fnmatch rel_path pattern) include) then false
  else if existsb (fun pattern => _matches_exclude_pattern rel_path pattern) exclude then false
  else if use_gitignore && _should_exclude_by_gitignore rel_path gitignore_patterns then false
  else true.

Definition rel_path_of (p : PyPath.Path) : string := normalize_sep (PyPath.str p).

(** One iteration of the loop: the record appended, if any. *)
Definition visit (include exclude : list string) (use_gitignore : bool)
    (gitignore_patterns : list string) (max_size : Z) (binary_strict : bool)
    (file : Entry) : option FileInfo :=
  let rel_path := rel_path_of (rel file) in
  if negb (is_file file) then None
  else if negb (passes_selection include exclude use_gitignore gitignore_patterns rel_path)
  then None
  else if is_binary file binary_strict then None
  else match stat file with
       | None => None
       | Some (st_size, st_mtime) =>
           if negb (readable file) then None
           else if max_size <? st_size then None
           else Some (mkFileInfo (rel file) st_size st_mtime)
       end.

Fixpoint visit_all (f : Entry -> option FileInfo) (entries : list Entry) : list FileInfo :=
  match entries with
  | [] => []
  | e :: entries' =>
      match f e with
      | Some info => info :: visit_all f entries'
      | None => visit_all f entries'
      end
  end.

Definition collect_files (fs : FileSystem) (include exclude : option (list string))
    (max_size : Z) (binary_strict use_gitignore : bool) : result (list FileInfo) :=
  gitignore_patterns <-
    (if use_gitignore then _load_gitignore_patterns (gitignore fs) else Ok []) ;;
  include <- effective_include fs include ;;
  exclude <- effective_exclude fs include exclude ;;
  Ok (visit_all (visit include exclude use_gitignore gitignore_patterns max_size binary_strict)
                (rglob fs)).

End Walker.

(** ** Python's float arithmetic, as far as tree.py uses it

    [a / b] on two positive [int]s is the binary64 number nearest to the
    quotient (ties to even), or [OverflowError]; the format [.1f] prints the
    decimal with one digit nearest to that number (ties to even). A float
    is kept as a pair [(m, e)] standing for [m * 2^e]. The quotients taken
    here are at least 1, so no subnormal number arises. *)

Module PyFloat.

(** The integer nearest to [n / d] for [d > 0], ties to even. *)
Definition round_half_even (n d : Z) : Z :=
  let q := n / d in
  let r := n mod d in
  if 2 * r <? d then q
  else if d <? 2 * r then q + 1
  else if Z.even q then q else q + 1.

Definition true_divide (a b : Z) : result (Z * Z) :=
  let num e := a * 2 ^ Z.max 0 (- e) in
  let den e := b * 2 ^ Z.max 0 e in
  let e0 := Z.log2 a - Z.log2 b - 52 in
  let e := if num e0 <? den e0 * 2 ^ 52 then e0 - 1 else e0 in
  let m := round_half_even (num e) (den e) in
  if 1024 <=? e + Z.log2 m then Raise OverflowError else Ok (m, e).

Definition format_1f (x : Z * Z) : string :=
  let (m, e) := x in
  let tenths :=
    if 0 <=? e then 10 * m * 2 ^ e else round_half_even (10 * m) (2 ^ (- e)) in
  PyStr.str_of_int (tenths / 10) ++ "." ++ PyStr.str_of_int (tenths mod 10).

End PyFloat.

(** ** tree.py

    [add_to_tree], [calc_size], [sort_children], [trim_depth], [render_tree]
    and [count_nodes] use one Python frame for every level of the tree; here
    they recurse on the list of parts or on the tree with no limit on the
    depth (see the conventions). *)

Module Tree.

Import PyStr.

#[warnings="-register-all"]
Inductive TreeNode : Type := mkTreeNode {
  name : string;
  path : PyPath.Path;
  is_dir : bool;
  size : Z;
  tokens : Z;
  children : list TreeNode
}.

Definition set_children (node : TreeNode) (cs : list TreeNode) : TreeNode :=
  mkTreeNode (name node) (path node) (is_dir node) (size node) (tokens node) cs.

Definition _format_size (size : Z) : result string :=
  if size <? 1024 then Ok (str_of_int size)
  else if size <? 1024 * 1024 then
    x <- PyFloat.true_divide size 1024 ;; Ok (PyFloat.format_1f x ++ "K")
  else if size <? 1024 * 1024 * 1024 then
    x <- PyFloat.true_divide size (1024 * 1024) ;; Ok (PyFloat.format_1f x ++ "M")
  else
    x <- PyFloat.true_divide size (1024 * 1024 * 1024) ;; Ok (PyFloat.format_1f x ++ "G").

Definition _format_tokens (tokens : Z) : result string :=
  if tokens <? 1000 then Ok (str_of_int tokens)
  else if tokens <? 1000 * 1000 then
    x <- PyFloat.true_divide tokens 1000 ;; Ok (PyFloat.format_1f x ++ "K")
  else if tokens <? 1000 * 1000 * 1000 then
    x <- PyFloat.true_divide tokens (1000 * 1000) ;; Ok (PyFloat.format_1f x ++ "M")
  else
    x <- PyFloat.true_divide tokens (1000 * 1000 * 1000) ;; Ok (PyFloat.format_1f x ++ "B").

(** *** build_tree *)

(** The child [add_to_tree] looks for: a directory of that name. *)
Definition is_named_dir (dir_name : string) (c : TreeNode) : bool :=
  String.eqb (name c) dir_name && is_dir c.

(** The node found by the search loop is updated in place; here the first
    child the loop stops at is replaced by its updated version. *)
Fixpoint replace_first (p : TreeNode -> bool) (c' : TreeNode) (cs : list TreeNode)
  : list TreeNode :=
  match cs with
  | [] => []
  | c :: cs' => if p c then c' :: cs' else c :: replace_first p c' cs'
  end.

(** [add_to_tree(node, rel_path, file_info)] for the [parts] of [rel_path]:
    the node after the call. The empty path has no [parts[0]]. *)
Fixpoint add_to_tree (node : TreeNode) (parts : list string)
    (file_info : option Walker.FileInfo) : result TreeNode :=
  match parts with
  | [] => Raise IndexError
  | [p] =>
      let child :=
        match file_info with
        | Some info =>
            mkTreeNode p [p] false (Walker.size info) (Walker.size info / 4) []
        | None => mkTreeNode p [p] true 0 0 []
        end in
      Ok (set_children node (children node ++ [child]))
  | dir_name :: rest =>
      match find (is_named_dir dir_name) (children node) with
      | Some child =>
          child' <- add_to_tree child rest file_info ;;
          Ok (set_children node
                (replace_first (is_named_dir dir_name) child' (children node)))
      | None =>
          child' <- add_to_tree (mkTreeNode dir_name [dir_name] true 0 0 []) rest file_info ;;
          Ok (set_children node (children node ++ [child']))
      end
  end.

Fixpoint add_all (node : TreeNode) (files : list Walker.FileInfo) : result TreeNode :=
  match files with
  | [] => Ok node
  | file_info :: files' =>
      node' <- add_to_tree node (Walker.path file_info) (Some file_info) ;;
      add_all node' files'
  end.

Definition sum (l : list Z) : Z := fold_left Z.add l 0.

(** [calc_size(node)]: the node after the call; the pair the code returns is
    the node's [size] and [tokens] afterwards. *)
Fixpoint calc_size (node : TreeNode) : TreeNode :=
  if negb (is_dir node) then node
  else
    let cs := map calc_size (children node) in
    mkTreeNode (name node) (path node) (is_dir node)
               (sum (map size cs)) (sum (map tokens cs)) cs.

(** [sort_key(a) < sort_key(b)] *)
Definition key_lt (sort_by : string) (a b : TreeNode) : bool :=
  if String.eqb sort_by "size" then - size a <? - size b
  else if String.eqb sort_by "tokens" then - tokens a <? - tokens b
  else String.ltb (lower (name a)) (lower (name b)).

(** [list.sort(key=sort_key)] is stable. *)
Fixpoint insert_by (lt : TreeNode -> TreeNode -> bool) (x : TreeNode)
    (l : list TreeNode) : list TreeNode :=
  match l with
  | [] => [x]
  | y :: l' => if lt y x then y :: insert_by lt x l' else x :: l
  end.

Fixpoint sort_by_key (lt : TreeNode -> TreeNode -> bool) (l : list TreeNode)
  : list TreeNode :=
  match l with
  | [] => []
  | x :: l' => insert_by lt x (sort_by_key lt l')
  end.

Definition order_children (sort_by : string) (dirs_first : bool) (cs : list TreeNode)
  : list TreeNode :=
  if dirs_first then
    sort_by_key (key_lt sort_by) (filter is_dir cs)
    ++ sort_by_key (key_lt sort_by) (filter (fun c => negb (is_dir c)) cs)
  else sort_by_key (key_lt sort_by) cs.

(** [sort_children(node)]. The code orders a directory's children and then
    descends into them; the descent leaves a child's name, kind, size and
    tokens as they are, so the children are ordered after the descent here,
    which keeps the recursion structural ([order_children_map] below). *)
Fixpoint sort_children (sort_by : string) (dirs_first : bool) (node : TreeNode)
  : TreeNode :=
  set_children node
    (order_children sort_by dirs_first
       (map (fun child =>
               if is_dir child then sort_children sort_by dirs_first child else child)
            (children node))).

Fixpoint trim_depth (max_depth : Z) (node : TreeNode) (depth : Z) : TreeNode :=
  if max_depth <=? depth then set_children node []
  else
    set_children node
      (map (fun child =>
              if is_dir child then trim_depth max_depth child (depth + 1) else child)
           (children node)).

(** The dictionary [file_map] the code fills first is never read. *)
Definition build_tree (files : list Walker.FileInfo) (root : PyPath.Path)
    (max_depth : option Z) (sort_by : string) (dirs_first : bool) : result TreeNode :=
  let root_node :=
    mkTreeNode (if String.eqb (PyPath.name root) EmptyString then PyPath.str root
                else PyPath.name root)
               root true 0 0 [] in
  root_node <- add_all root_node files ;;
  let root_node := calc_size root_node in
  let root_node := sort_children sort_by dirs_first root_node in
  match max_depth with
  | Some d => Ok (trim_depth d root_node 0)
  | None => Ok root_node
  end.

(** *** render_tree *)

(** [f"{s:>10}"] *)
Fixpoint spaces (n : nat) : string :=
  match n with
  | O => EmptyString
  | S k => String " " (spaces k)
  end.

Definition pad_left (width : nat) (s : string) : string :=
  spaces (width - String.length s) ++ s.

Fixpoint render_tree (root : TreeNode) (prefix : string) (is_last : bool)
    (show_tokens show_size : bool) : result (list string) :=
  let connector := if is_last then "└── " else "├── " in
  size_part <-
    (if show_size then
       s <- _format_size (size root) ;; Ok ("[" ++ pad_left 10 s ++ "] ")
     else Ok EmptyString) ;;
  tokens_part <-
    (if show_tokens && negb (is_dir root) then
       s <- _format_tokens (tokens root) ;; Ok (" (" ++ s ++ " tok)")
     else Ok EmptyString) ;;
  let line := prefix ++ connector ++ size_part ++ name root ++ tokens_part in
  let new_prefix := prefix ++ (if is_last then "    " else "│   ") in
  child_lines <-
    (fix each (cs : list TreeNode) : result (list string) :=
       match cs with
       | [] => Ok []
       | child :: cs' =>
           ls <- render_tree child new_prefix
                   (match cs' with [] => true | _ => false end)
                   show_tokens show_size ;;
           rest <- each cs' ;;
           Ok (ls ++ rest)%list
       end) (children root) ;;
  Ok (line :: child_lines).

(** [count_nodes(node)]: directories and files. *)
Fixpoint count_nodes (node : TreeNode) : Z * Z :=
  if negb (is_dir node) then (0, 1)
  else
    fold_left (fun acc child =>
                 let (d, f) := count_nodes child in (fst acc + d, snd acc + f))
              (children node) (1, 0).

Definition summary_line (tree : TreeNode) : string :=
  let (num_dirs, num_files) := count_nodes tree in
  let num_dirs := Z.max 0 (num_dirs - 1) in
  str_of_int num_dirs ++ " directories, " ++ str_of_int num_files ++ " files".

Definition generate_tree_view (files : list Walker.FileInfo) (root : PyPath.Path)
    (max_depth : option Z) (show_tokens show_size : bool) (sort_by : string)
    (dirs_first : bool) : result string :=
  tree <- build_tree files root max_depth sort_by dirs_first ;;
  lines <- render_tree tree EmptyString true show_tokens show_size ;;
  Ok (join (String newline EmptyString) (lines ++ [EmptyString; summary_line tree])%list).

End Tree.

(** * Vocabulary of the properties *)

Import Walker.
Import Tree.

(** A line of [.gitignore] that is a negation entry. *)
Definition is_negation_line (line : string) : bool :=
  PyStr.startswith (PyStr.strip line) "!".

(** The input of the specification's example: the one file [a/b.txt] of
    10 bytes. *)
Definition example_files : list FileInfo := [mkFileInfo ["a"; "b.txt"] 10 0].

(** A file list with nested directories, a file name in upper case and two
    files of one directory. *)
Definition sample_files : list FileInfo :=
  [ mkFileInfo ["src"; "pkg"; "core.py"] 4200 0;
    mkFileInfo ["README.md"] 900 0;
    mkFileInfo ["src"; "main.py"] 1300 0;
    mkFileInfo ["src"; "pkg"; "util.py"] 77 0 ].

Definition sample_tree : TreeNode :=
  Eval vm_compute in
    match build_tree sample_files ["repo"] None "size" true with
    | Ok tree => tree
    | Raise _ => mkTreeNode EmptyString [] true 0 0 []
    end.

(** The same relative path twice, and a file path that is also the
    directory of another file. *)
Definition repeated_files : list FileInfo :=
  [mkFileInfo ["a"] 1 0; mkFileInfo ["a"] 2 0].

Definition shadowed_files : list FileInfo :=
  [mkFileInfo ["a"] 1 0; mkFileInfo ["a"; "b"] 3 0].

(** A walk root holding [.git/config] and [a.txt], both plain text, with no
    [.gitignore]. *)
Definition repo_with_git : FileSystem :=
  mkFileSystem
    (fun pat => Some (String.eqb pat ".git"))
    Missing
    [ mkEntry [".git"] false (fun _ => false) (Some (4096, 0%Q)) true;
      mkEntry [".git"; "config"] true (fun _ => false) (Some (92, 0%Q)) true;
      mkEntry ["a.txt"] true (fun _ => false) (Some (5, 0%Q)) true ].

(** A walk root holding [build/out.o], [src/main.py], [src/build] and a
    [.gitignore] with the one rule [build/]; [build] and [src] are
    directories. *)
Definition repo_with_build : FileSystem :=
  mkFileSystem
    (fun pat => Some (String.eqb pat "build" || String.eqb pat "src"))
    (Lines ["build/"] EndOfFile)
    [ mkEntry [".gitignore"] true (fun _ => false) (Some (7, 0%Q)) true;
      mkEntry ["build"] false (fun _ => false) (Some (4096, 0%Q)) true;
      mkEntry ["build"; "out.o"] true (fun _ => false) (Some (12, 0%Q)) true;
      mkEntry ["src"] false (fun _ => false) (Some (4096, 0%Q)) true;
      mkEntry ["src"; "main.py"] true (fun _ => false) (Some (20, 0%Q)) true;
      mkEntry ["src"; "build"] true (fun _ => false) (Some (3, 0%Q)) true ].

(** The same root when reading [.gitignore] fails with an [OSError] after
    its first line, and when the file is not valid UTF-8. *)
Definition repo_read_error : FileSystem :=
  mkFileSystem (Walker.is_dir repo_with_build) (Lines ["build/"] ReadOSError)
               (rglob repo_with_build).

Definition repo_not_utf8 : FileSystem :=
  mkFileSystem (Walker.is_dir repo_with_build) (Lines [] ReadDecodeError)
               (rglob repo_with_build).

(** A root holding [a.txt] where the test whether [private] is a directory
    raises [OSError]. *)
Definition repo_denied : FileSystem :=
  mkFileSystem
    (fun pat => if String.eqb pat "private" then None else Some false)
    Missing
    [ mkEntry ["a.txt"] true (fun _ => false) (Some (5, 0%Q)) true ].

(** [p] is a proper prefix of [q]. *)
Fixpoint is_strict_prefix (p q : list string) : bool :=
  match p, q with
  | [], _ :: _ => true
  | x :: p', y :: q' => String.eqb x y && is_strict_prefix p' q'
  | _, _ => false
  end.

(** [p] is a prefix of [q], possibly [q] itself. *)
Fixpoint is_prefix (p q : list string) : bool :=
  match p, q with
  | [], _ => true
  | x :: p', y :: q' => String.eqb x y && is_prefix p' q'
  | _ :: _, [] => false
  end.

(** The files of the input that lie under the directory of path [p]. *)
Definition files_under (p : list string) (files : list FileInfo) : list FileInfo :=
  filter (fun f => is_strict_prefix p (Walker.path f)) files.

Definition size_under (p : list string) (files : list FileInfo) : Z :=
  Tree.sum (map Walker.size (files_under p files)).

Definition tokens_under (p : list string) (files : list FileInfo) : Z :=
  Tree.sum (map (fun f => Walker.size f / 4) (files_under p files)).

(** The directory nodes of a tree, each with the names that lead to it from
    the root; the root has the empty path. *)
Fixpoint dir_nodes (node : TreeNode) : list (list string * TreeNode) :=
  if is_dir node then
    ([], node)
    :: flat_map (fun c => map (fun pn => (name c :: fst pn, snd pn)) (dir_nodes c))
                (children node)
  else [].

(** All nodes of a tree. *)
Fixpoint all_nodes (node : TreeNode) : list TreeNode :=
  node :: flat_map all_nodes (children node).

(** The sum of a field over the file nodes below a node. *)
Fixpoint leaf_sum (field : TreeNode -> Z) (node : TreeNode) : Z :=
  if is_dir node then Tree.sum (map (leaf_sum field) (children node))
  else field node.

(** No path of the list is a prefix of, or equal to, the path of another
    entry: what holds of the files of one directory walk. *)
Fixpoint paths_independent (files : list FileInfo) : bool :=
  match files with
  | [] => true
  | f :: files' =>
      forallb (fun g => negb (is_prefix (Walker.path f) (Walker.path g))
                        && negb (is_prefix (Walker.path g) (Walker.path f)))
              files'
      && paths_independent files'
  end.

(** The files recorded below the child [x] of a directory, with paths
    relative to that child. *)
Fixpoint sub (x : string) (files : list FileInfo) : list FileInfo :=
  match files with
  | [] => []
  | f :: files' =>
      match Walker.path f with
      | y :: (_ :: _) as rest =>
          if String.eqb y x
          then mkFileInfo rest (Walker.size f) (Walker.mtime f) :: sub x files'
          else sub x files'
      | _ => sub x files'
      end
  end.

(** The names of the files recorded right in a directory. *)
Fixpoint singles (files : list FileInfo) : list string :=
  match files with
  | [] => []
  | f :: files' =>
      match Walker.path f with
      | [x] => x :: singles files'
      | _ => singles files'
      end
  end.

(** The state of a directory node once the files [files], with paths
    relative to the node, have been inserted below it. *)
#[warnings="-register-all"]
Inductive Inserted : TreeNode -> list FileInfo -> Prop :=
| Inserted_intro (node : TreeNode) (files : list FileInfo) :
    NoDup (map name (filter is_dir (children node))) ->
    (forall x, find (is_named_dir x) (children node) = None -> sub x files = []) ->
    (forall c, In c (children node) -> is_dir c = true -> sub (name c) files <> []) ->
    map name (filter (fun c => negb (is_dir c)) (children node)) = singles files ->
    (forall c, In c (children node) -> is_dir c = false -> children c = []) ->
    leaf_sum size node = size_under [] files ->
    leaf_sum tokens node = tokens_under [] files ->
    Forall (fun c => is_dir c = true -> Inserted c (sub (name c) files)) (children node) ->
    Inserted node files.

(** Two measures of a directory node, [fs] and [ft], give the total size
    and the total tokens of the files recorded below it, and so on below. *)
#[warnings="-register-all"]
Inductive Rolled (fs ft : TreeNode -> Z) : TreeNode -> list FileInfo -> Prop :=
| Rolled_intro (node : TreeNode) (files : list FileInfo) :
    fs node = size_under [] files ->
    ft node = tokens_under [] files ->
    Forall (fun c => is_dir c = true -> Rolled fs ft c (sub (name c) files))
           (children node) ->
    Rolled fs ft node files.

(** The paths of a file list as the code needs them for siblings with
    distinct names: no path twice, and none a proper prefix of another. *)
Definition Independent (files : list FileInfo) : Prop :=
  NoDup (map Walker.path files) /\
  forall f g, In f files -> In g files ->
              is_strict_prefix (Walker.path f) (Walker.path g) = false.

(** A property of every node of a tree. *)
#[warnings="-register-all"]
Inductive Every (P : TreeNode -> Prop) : TreeNode -> Prop :=
| Every_intro (node : TreeNode) :
    P node -> Forall (Every P) (children node) -> Every P node.

(** Siblings picked by [sel] on their kind have distinct names. *)
Definition distinct_names (sel : bool -> bool) (node : TreeNode) : Prop :=
  NoDup (map name (filter (fun c => sel (is_dir c)) (children node))).

(** Induction on a tree with the property at hand for every child. *)
Section TreeInduction.

Variable P : TreeNode -> Prop.
Hypothesis step : forall node, Forall P (children node) -> P node.

Fixpoint TreeNode_nested_ind (node : TreeNode) : P node :=
  match node as n return P n with
  | mkTreeNode a b c d e cs =>
      step (mkTreeNode a b c d e cs)
        ((fix each (l : list TreeNode) : Forall P l :=
            match l with
            | [] => Forall_nil P
            | x :: l' => Forall_cons x (TreeNode_nested_ind x) (each l')
            end) cs)
  end.

End TreeInduction.

(** * utils.py *)

Module Utils.







End Utils.

(** * Further vocabulary *)

(** The number of levels below a node. *)
Fixpoint height (node : TreeNode) : nat :=
  fold_right (fun c h => Nat.max (S (height c)) h) O (children node).

(** A property of a node and of every directory reached from it through
    directories. *)
#[warnings="-register-all"]
Inductive EveryDir (P : TreeNode -> Prop) : TreeNode -> Prop :=
| EveryDir_intro (node : TreeNode) :
    P node ->
    Forall (fun c => is_dir c = true -> EveryDir P c) (children node) ->
    EveryDir P node.

(** The files among the children of a node have no children of their own. *)
Definition files_are_leaves (node : TreeNode) : Prop :=
  Forall (fun c => is_dir c = false -> children c = []) (children node).

(** No node of the list comes before one with a smaller sort key. *)
Definition key_sorted (sort_by : string) (l : list TreeNode) : Prop :=
  Sorted.StronglySorted (fun a b => key_lt sort_by b a = false) l.

(** The order [sort_children] gives the children of a directory. *)
Definition ordered (sort_by : string) (dirs_first : bool) (l : list TreeNode) : Prop :=
  if dirs_first then
    exists dirs files_list : list TreeNode,
      l = (dirs ++ files_list)%list /\
      Forall (fun c => is_dir c = true) dirs /\
      Forall (fun c => is_dir c = false) files_list /\
      key_sorted sort_by dirs /\ key_sorted sort_by files_list
  else key_sorted sort_by l.

(** The segments of a relative path, as the matchers split it. *)
Definition segments (rel_path : string) : list string :=
  PyStr.split "/" (PyStr.normalize_sep rel_path).

(** A pattern with none of these characters is a plain name. *)
Definition plain_name (x : string) : bool :=
  negb (PyStr.contains "*" x) && negb (PyStr.contains "?" x)
  && negb (PyStr.contains "[" x) && negb (PyStr.contains "/" x)
  && negb (PyStr.contains (String PyStr.backslash EmptyString) x).

(** * Checks on the library models *)

Example fnmatch_star_crosses_slash : Fnmatch.fnmatch "a/b/c.py" "*.py" = true.
Proof. reflexivity. Qed.

Example fnmatch_question : Fnmatch.fnmatch "abcabd" "*ab?" = true.
Proof. reflexivity. Qed.

Example fnmatch_whole_name : Fnmatch.fnmatch "a.log.txt" "*.log" = false.
Proof. reflexivity. Qed.

Example fnmatch_set : Fnmatch.fnmatch "file7.c" "file[0-9].[ch]" = true.
Proof. reflexivity. Qed.

Example fnmatch_negated_set : Fnmatch.fnmatch "b" "[!a-c]" = false.
Proof. reflexivity. Qed.

Example fnmatch_bracket_first : Fnmatch.fnmatch "]" "[]a]" = true.
Proof. reflexivity. Qed.

Example fnmatch_open_bracket : Fnmatch.fnmatch "[z" "[z" = true.
Proof. reflexivity. Qed.

Example regex_double_star : Regex.re_match "src/**/*.py" "src/a/b/c.py" = true.
Proof. reflexivity. Qed.

Example regex_double_star_needs_slash : Regex.re_match "src/**/*.py" "src/c.py" = false.
Proof. reflexivity. Qed.

Example replace_twice :
  PyStr.replace "**/" EmptyString (PyStr.replace "/**" EmptyString "x/**/y/**") = "x/y".
Proof. reflexivity. Qed.

Example split_keeps_empty : PyStr.split "/" "/a/" = [EmptyString; "a"; EmptyString].
Proof. reflexivity. Qed.

Example lstrip_takes_leading_dot : PyStr.lstrip "./" "./.git/x" = "git/x".
Proof. reflexivity. Qed.

Example format_ties :
  map _format_tokens [999; 1050; 1150; 1250; 123456789]
  = [Ok "999"; Ok "1.1K"; Ok "1.1K"; Ok "1.2K"; Ok "123.5M"].
Proof. vm_compute. reflexivity. Qed.

Example format_size_units :
  map _format_size [-5; 1023; 1024; 1536; 1048576; 1073741824]
  = [Ok "-5"; Ok "1023"; Ok "1.0K"; Ok "1.5K"; Ok "1.0M"; Ok "1.0G"].
Proof. vm_compute. reflexivity. Qed.

Example format_size_overflow : _format_size (2 ^ 1060) = Raise OverflowError.
Proof. vm_compute. reflexivity. Qed.

Example sample_view :
  generate_tree_view sample_files ["repo"] None true true "size" true
  = Ok (PyStr.join (String PyStr.newline EmptyString)
          [ "└── [      6.3K] repo";
            "    ├── [      5.4K] src";
            "    │   ├── [      4.2K] pkg";
            "    │   │   ├── [      4.1K] core.py (1.1K tok)";
            "    │   │   └── [        77] util.py (19 tok)";
            "    │   └── [      1.3K] main.py (325 tok)";
            "    └── [       900] README.md (225 tok)";
            EmptyString;
            "2 directories, 4 files" ]).
Proof. vm_compute. reflexivity. Qed.

(** * walker.py: pattern matching *)

Section GlobFacts.

Import Fnmatch.



End GlobFacts.

(** C6. The gitignore pattern [build/] matches [build/x.txt] and
    [sub/build/x.txt] and does not match [buildscript.sh]. *)
Theorem gitignore_build_dir :
  _matches_gitignore_pattern "build/x.txt" "build/" = true /\
  _matches_gitignore_pattern "sub/build/x.txt" "build/" = true /\
  _matches_gitignore_pattern "buildscript.sh" "build/" = false /\
  _should_exclude_by_gitignore "build/x.txt" ["build/"] = true /\
  _should_exclude_by_gitignore "sub/build/x.txt" ["build/"] = true /\
  _should_exclude_by_gitignore "buildscript.sh" ["build/"] = false.
Proof. repeat split; reflexivity. Qed.

(** C7. The exclude pattern [**/*.log] matches [a.log] and [sub/dir/b.log]
    and does not match [a.log.txt]. *)
Theorem exclude_any_depth_log :
  _matches_exclude_pattern "a.log" "**/*.log" = true /\
  _matches_exclude_pattern "sub/dir/b.log" "**/*.log" = true /\
  _matches_exclude_pattern "a.log.txt" "**/*.log" = false.
Proof. repeat split; reflexivity. Qed.



(** * walker.py: the [.gitignore] file *)

Lemma keep_line_negation (line : string) :
  is_negation_line line = true -> keep_line line = None.
Proof.
  unfold is_negation_line, keep_line. intros H. rewrite H.
  destruct (String.eqb _ _ || _); reflexivity.
Qed.

Lemma keep_line_not_negation (line p : string) :
  keep_line line = Some p -> PyStr.startswith p "!" = false.
Proof.
  unfold keep_line.
  destruct (String.eqb _ _ || _); [discriminate|].
  destruct (PyStr.startswith (PyStr.strip line) "!") eqn:E; [discriminate|].
  intros [= <-]. exact E.
Qed.

Lemma keep_lines_drop_negations (ls : list string) :
  keep_lines ls = keep_lines (filter (fun l => negb (is_negation_line l)) ls).
Proof.
  induction ls as [|l ls IH]; [reflexivity|].
  simpl. destruct (is_negation_line l) eqn:E; simpl.
  - rewrite (keep_line_negation l E). exact IH.
  - destruct (keep_line l); [f_equal|]; exact IH.
Qed.

Lemma keep_lines_no_negation (ls : list string) :
  forallb (fun p => negb (PyStr.startswith p "!")) (keep_lines ls) = true.
Proof.
  induction ls as [|l ls IH]; [reflexivity|].
  simpl. destruct (keep_line l) eqn:E; [|exact IH].
  simpl. rewrite (keep_line_not_negation l s E), IH. reflexivity.
Qed.

(** C8. Negation lines of [.gitignore] are dropped on loading: no loaded
    rule starts with [!], the rules are those of the file without its
    negation lines, and [collect_files] returns what it returns for that
    file. *)
Theorem negation_lines_dropped (ls : list string) (e : read_end) :
  forallb (fun p => negb (PyStr.startswith p "!")) (keep_lines ls) = true /\
  _load_gitignore_patterns (Lines ls e) =
    _load_gitignore_patterns
      (Lines (filter (fun l => negb (is_negation_line l)) ls) e) /\
  forall dir entries include exclude max_size binary_strict use_gitignore,
    collect_files (mkFileSystem dir (Lines ls e) entries)
                  include exclude max_size binary_strict use_gitignore =
    collect_files
      (mkFileSystem dir (Lines (filter (fun l => negb (is_negation_line l)) ls) e)
                    entries)
      include exclude max_size binary_strict use_gitignore.
Proof.
  assert (L : _load_gitignore_patterns (Lines ls e) =
              _load_gitignore_patterns
                (Lines (filter (fun l => negb (is_negation_line l)) ls) e)).
  { destruct e; simpl; try reflexivity; f_equal; apply keep_lines_drop_negations. }
  split; [apply keep_lines_no_negation|]. split; [exact L|].
  intros. unfold collect_files. cbn [gitignore is_dir rglob].
  rewrite L. reflexivity.
Qed.

Lemma collect_files_without_rules (fs : FileSystem) (include exclude : option (list string))
    (max_size : Z) (binary_strict : bool) :
  _load_gitignore_patterns (gitignore fs) = Ok [] ->
  collect_files fs include exclude max_size binary_strict true
  = collect_files fs include exclude max_size binary_strict false.
Proof.
  intros H. unfold collect_files. rewrite H. cbn [bind].
  destruct (effective_include fs include) as [inc|e]; [|reflexivity]. cbn [bind].
  destruct (effective_exclude fs inc exclude) as [exc|e]; [|reflexivity]. cbn [bind].
  reflexivity.
Qed.

(** A [.gitignore] that opens, is read line by line and then fails with an
    [OSError] or a decoding error, or ends. *)
Lemma load_lines (ls : list string) (e : read_end) :
  _load_gitignore_patterns (Lines ls e)
  = match e with
    | ReadDecodeError => Raise UnicodeDecodeError
    | _ => Ok (keep_lines ls)
    end.
Proof. destruct e; reflexivity. Qed.

(** When loading raises: the test for the file's existence raises
    [OSError], or the file is not valid UTF-8. *)
Lemma load_raises_iff (g : gitignore_file) (e : exn) :
  _load_gitignore_patterns g = Raise e <->
  (g = ExistsFails /\ e = OSError) \/
  (exists ls, g = Lines ls ReadDecodeError /\ e = UnicodeDecodeError).
Proof.
  destruct g as [| | |ls r].
  - cbn. split; [discriminate|]. intros [[H _]|[ls [H _]]]; discriminate.
  - cbn. split.
    + intros [= <-]. left. split; reflexivity.
    + intros [[_ ->]|[ls [H _]]]; [reflexivity|discriminate].
  - cbn. split; [discriminate|]. intros [[H _]|[ls [H _]]]; discriminate.
  - rewrite load_lines. destruct r.
    + split; [discriminate|]. intros [[H _]|[ls' [H _]]]; discriminate.
    + split; [discriminate|]. intros [[H _]|[ls' [H _]]]; discriminate.
    + split.
      * intros [= <-]. right. exists ls. split; reflexivity.
      * intros [[H _]|[ls' [_ ->]]]; [discriminate|reflexivity].
Qed.

(** C9, as the code has it. A [.gitignore] that is missing or cannot be
    opened gives the empty rule set, and [collect_files] then does exactly
    what it does without gitignore support: the file brings no rule and no
    exception. An [OSError] while the opened file is read is swallowed too,
    but the rules of the lines read before it are kept, and [collect_files]
    does what it does for a file that ends there. *)
Theorem gitignore_absent_is_empty (fs : FileSystem) (include exclude : option (list string))
    (max_size : Z) (binary_strict : bool) :
  (gitignore fs = Missing \/ gitignore fs = OpenFails ->
   _load_gitignore_patterns (gitignore fs) = Ok [] /\
   collect_files fs include exclude max_size binary_strict true
   = collect_files fs include exclude max_size binary_strict false) /\
  (forall ls, gitignore fs = Lines ls ReadOSError ->
     _load_gitignore_patterns (gitignore fs) = Ok (keep_lines ls) /\
     (keep_lines ls = [] ->
      collect_files fs include exclude max_size binary_strict true
      = collect_files fs include exclude max_size binary_strict false) /\
     collect_files fs include exclude max_size binary_strict true
     = collect_files (mkFileSystem (Walker.is_dir fs) (Lines ls EndOfFile) (rglob fs))
                     include exclude max_size binary_strict true).
Proof.
  split.
  - intros H.
    assert (L : _load_gitignore_patterns (gitignore fs) = Ok [])
      by (destruct H as [-> | ->]; reflexivity).
    split; [exact L|]. apply collect_files_without_rules. exact L.
  - intros ls H.
    assert (L : _load_gitignore_patterns (gitignore fs) = Ok (keep_lines ls))
      by (rewrite H; reflexivity).
    split; [exact L|]. split.
    + intros E. apply collect_files_without_rules. rewrite L, E. reflexivity.
    + unfold collect_files. cbn [gitignore Walker.is_dir rglob]. rewrite H. reflexivity.
Qed.

(** The claim fails for a [.gitignore] that cannot be read to its end: an
    [OSError] after the first line leaves the rule of that line in force,
    and [collect_files] does not return what it returns without gitignore
    support. *)
Lemma unreadable_gitignore_not_empty :
  _load_gitignore_patterns (gitignore repo_read_error) = Ok ["build/"] /\
  _load_gitignore_patterns (gitignore repo_read_error) <> Ok [] /\
  collect_files repo_read_error None None DEFAULT_MAX_SIZE true true
  <> collect_files repo_read_error None None DEFAULT_MAX_SIZE true false.
Proof.
  split; [reflexivity|]. split.
  - discriminate.
  - vm_compute. discriminate.
Qed.

(** * walker.py: the [.git] directory *)

Section DotGit.

Import PyStr.

Lemma lstrip_head (chars s : string) :
  match lstrip chars s with
  | EmptyString => True
  | String c _ => mem_char c chars = false
  end.
Proof.
  induction s as [|c s IH]; simpl; [exact I|].
  destruct (mem_char c chars) eqn:E; [exact IH|exact E].
Qed.

Lemma rstrip_head (chars : string) (c : ascii) (s : string) :
  rstrip chars (String c s) = EmptyString \/
  exists r, rstrip chars (String c s) = String c r.
Proof.
  simpl. destruct (rstrip chars s).
  - destruct (mem_char c chars); [left; reflexivity|right; eauto].
  - right; eauto.
Qed.

Lemma lstrip_fixed (chars : string) (c : ascii) (s : string) :
  mem_char c chars = false -> lstrip chars (String c s) = String c s.
Proof. intros H. simpl. rewrite H. reflexivity. Qed.

(** What [_expand] returns never starts with [.git] once its leading dots and
    slashes are stripped: [_expand] has stripped them already. *)
Lemma expand_never_dot_git (fs : FileSystem) (pattern pat : string) :
  _expand fs pattern = Ok pat ->
  startswith (lstrip "./" pat) ".git" = false.
Proof.
  unfold _expand.
  pose proof (lstrip_head "./" (normalize_sep pattern)) as H.
  destruct (lstrip "./" (normalize_sep pattern)) as [|c q] eqn:Eq.
  - simpl. destruct (Walker.is_dir fs EmptyString) as [[|]|]; intros [= <-]; reflexivity.
  - destruct (rstrip_head "/" c q) as [E|[r E]]; rewrite E.
    + simpl. destruct (Walker.is_dir fs EmptyString) as [[|]|]; intros [= <-]; reflexivity.
    + assert (Hdot : Ascii.eqb c "." = false).
      { simpl in H. apply orb_false_elim in H. tauto. }
      assert (Hres : forall t, startswith (lstrip "./" (String c t)) ".git" = false).
      { intros t. rewrite (lstrip_fixed _ _ _ H). unfold startswith.
        cbn [String.prefix].
        destruct (Ascii.ascii_dec "." c) as [E'|N]; [|reflexivity].
        subst c. discriminate Hdot. }
      destruct (String.eqb (String c r) "*" || String.eqb (String c r) "**");
        [intros [= <-]; apply Hres|].
      destruct (Walker.is_dir fs (String c r)) as [[|]|]; intros [= <-]; apply Hres.
Qed.

Lemma map_result_ok {A B : Type} (f : A -> result B) (l : list A) (l' : list B) :
  map_result f l = Ok l' ->
  Forall2 (fun x y => f x = Ok y) l l'.
Proof.
  revert l'. induction l as [|x l IH]; intros l'; cbn [map_result].
  - intros [= <-]. constructor.
  - destruct (f x) as [y|e] eqn:E; cbn [bind]; [|discriminate].
    destruct (map_result f l) as [ys|e]; cbn [bind]; [|discriminate].
    intros [= <-]. constructor; [exact E|]. apply IH. reflexivity.
Qed.

(** The test [git_included] never succeeds on expanded include patterns. *)
Lemma git_included_never (fs : FileSystem) (include inc : list string) :
  map_result (_expand fs) include = Ok inc -> git_included inc = false.
Proof.
  intros H. apply map_result_ok in H. unfold git_included.
  induction H as [|p q l l' Hp _ IH]; [reflexivity|].
  cbn [existsb]. rewrite (expand_never_dot_git fs p q Hp). exact IH.
Qed.

(** The exclude list of the loop: the expanded patterns followed by the two
    [.git] patterns. *)
Lemma effective_exclude_ok (fs : FileSystem) (include exclude : option (list string))
    (inc exc : list string) :
  effective_include fs include = Ok inc ->
  effective_exclude fs inc exclude = Ok exc ->
  exists exc0,
    map_result (_expand fs) (or_default exclude []) = Ok exc0 /\
    exc = (exc0 ++ [".git/**"; ".git"])%list.
Proof.
  unfold effective_include, effective_exclude. intros Hi He.
  destruct (map_result (_expand fs) (or_default exclude [])) as [exc0|e];
    cbn [bind] in He; [|discriminate].
  rewrite (git_included_never fs _ inc Hi) in He. cbn [negb] in He.
  injection He as <-. exists exc0. split; reflexivity.
Qed.

Lemma effective_exclude_has_dot_git (fs : FileSystem)
    (include exclude : option (list string)) (inc exc : list string) :
  effective_include fs include = Ok inc ->
  effective_exclude fs inc exclude = Ok exc ->
  In ".git" exc.
Proof.
  intros Hi He. destruct (effective_exclude_ok fs include exclude inc exc Hi He)
    as [exc0 [_ ->]].
  apply in_or_app. right. simpl. auto.
Qed.

Lemma exclude_dot_git_component (rel_path : string) :
  In ".git" (split "/" (normalize_sep rel_path)) ->
  _matches_exclude_pattern rel_path ".git" = true.
Proof.
  intros H. unfold _matches_exclude_pattern.
  change (normalize_sep ".git") with ".git".
  change (contains "**" ".git") with false.
  change (contains "*" ".git" || contains "?" ".git" || contains "/" ".git") with false.
  cbv iota. apply existsb_exists. exists ".git". split; [exact H|reflexivity].
Qed.

Lemma visit_all_in (f : Entry -> option FileInfo) (entries : list Entry) (info : FileInfo) :
  In info (visit_all f entries) -> exists e, In e entries /\ f e = Some info.
Proof.
  induction entries as [|e l IH]; simpl; [tauto|].
  destruct (f e) eqn:E.
  - intros [<-|H]; [eauto|]. destruct (IH H) as [e' [? ?]]. eauto.
  - intros H. destruct (IH H) as [e' [? ?]]. eauto.
Qed.

Lemma passes_selection_excluded (include exclude : list string) (use_gitignore : bool)
    (gitignore_patterns : list string) (rel_path p : string) :
  passes_selection include exclude use_gitignore gitignore_patterns rel_path = true ->
  In p exclude -> _matches_exclude_pattern rel_path p = false.
Proof.
  unfold passes_selection. intros H Hp.
  destruct (negb (existsb _ include)); [discriminate|].
  destruct (existsb (fun pattern => _matches_exclude_pattern rel_path pattern) exclude)
    eqn:He; [discriminate|].
  destruct (_matches_exclude_pattern rel_path p) eqn:E; [|reflexivity].
  assert (existsb (fun pattern => _matches_exclude_pattern rel_path pattern) exclude = true)
    as Ht by (apply existsb_exists; eauto).
  congruence.
Qed.

(** What a call of [collect_files] that returns has computed on the way. *)
Lemma collect_files_ok (fs : FileSystem) (include exclude : option (list string))
    (max_size : Z) (binary_strict use_gitignore : bool) (files : list FileInfo) :
  collect_files fs include exclude max_size binary_strict use_gitignore = Ok files ->
  exists gitignore_patterns inc exc,
    (if use_gitignore then _load_gitignore_patterns (gitignore fs) else Ok [])
    = Ok gitignore_patterns /\
    effective_include fs include = Ok inc /\
    effective_exclude fs inc exclude = Ok exc /\
    files = visit_all (visit inc exc use_gitignore gitignore_patterns max_size binary_strict)
                      (rglob fs).
Proof.
  unfold collect_files. intros Hc.
  destruct (if use_gitignore then _load_gitignore_patterns (gitignore fs) else Ok [])
    as [pats|e]; cbn [bind] in Hc; [|discriminate].
  destruct (effective_include fs include) as [inc|e]; cbn [bind] in Hc; [|discriminate].
  destruct (effective_exclude fs inc exclude) as [exc|e] eqn:He; cbn [bind] in Hc;
    [|discriminate].
  injection Hc as <-. exists pats, inc, exc. repeat split. exact He.
Qed.

(** X11. Whatever the include patterns, no file with a segment [.git] in its
    relative path is returned. *)
Lemma dot_git_never_collected (fs : FileSystem) (include exclude : option (list string))
    (max_size : Z) (binary_strict use_gitignore : bool) (files : list FileInfo)
    (info : FileInfo) :
  collect_files fs include exclude max_size binary_strict use_gitignore = Ok files ->
  In info files ->
  ~ In ".git" (split "/" (normalize_sep (rel_path_of (Walker.path info)))).
Proof.
  intros Hc Hin Hgit.
  destruct (collect_files_ok _ _ _ _ _ _ _ Hc) as [pats [inc [exc [_ [Hi [He ->]]]]]].
  apply visit_all_in in Hin. destruct Hin as [e [_ Hv]].
  unfold visit in Hv.
  destruct (negb (is_file e)); [discriminate|].
  destruct (passes_selection _ _ _ _ _) eqn:Hs; simpl in Hv; [|discriminate].
  destruct (is_binary e binary_strict); [discriminate|].
  destruct (stat e) as [[sz mt]|]; [|discriminate].
  destruct (negb (readable e)); [discriminate|].
  destruct (max_size <? sz); [discriminate|].
  injection Hv as <-. simpl in Hgit.
  pose proof (exclude_dot_git_component _ Hgit) as Hm.
  rewrite (passes_selection_excluded _ _ _ _ _ ".git" Hs
             (effective_exclude_has_dot_git fs include exclude inc exc Hi He)) in Hm.
  discriminate.
Qed.

End DotGit.

(** C3. At a root holding [.git/config] and [a.txt], asking for [.git/**],
    for [.git] or for [.git/config] besides [a.txt] returns [a.txt] alone:
    the include patterns lose their leading dot in [_expand], the test for
    an included [.git] fails and the two [.git] exclusions are added. *)
Theorem dot_git_include_ignored :
  collect_files repo_with_git (Some [".git/**"; "a.txt"]) None DEFAULT_MAX_SIZE true true
    = Ok [mkFileInfo ["a.txt"] 5 0] /\
  collect_files repo_with_git (Some [".git"; "a.txt"]) None DEFAULT_MAX_SIZE true true
    = Ok [mkFileInfo ["a.txt"] 5 0] /\
  collect_files repo_with_git (Some [".git/config"; "a.txt"]) None DEFAULT_MAX_SIZE true true
    = Ok [mkFileInfo ["a.txt"] 5 0] /\
  effective_include repo_with_git (Some [".git/**"; "a.txt"]) = Ok ["git/**"; "a.txt"] /\
  git_included ["git/**"; "a.txt"] = false.
Proof. repeat split; reflexivity. Qed.

(** * tree.py: the example of the specification *)

Lemma append_empty_r (s : string) : s ++ EmptyString = s.
Proof. induction s as [|c s IH]; simpl; [|rewrite IH]; reflexivity. Qed.

(** The summary of the example is not [1 directories, 1 files]: the files
    are counted in the tree as pruned, and [b.txt] is no longer in it. *)
Lemma example_summary_not_one_file :
  ~ exists out,
      generate_tree_view example_files ["repo"] (Some 1) true true "name" true = Ok out /\
      PyStr.endswith out "1 directories, 1 files" = true.
Proof.
  intros [out [H E]]. vm_compute in H. injection H as <-.
  vm_compute in E. discriminate.
Qed.

(** C1, as the code has it. For the file list [a/b.txt] of 10 bytes and
    [max_depth = 1] the view has a line for the root and a line for the
    directory [a], whose size annotation, when sizes are shown, is 10; no
    line for [b.txt]; and the summary counts 1 directory and 0 files. *)
Theorem example_view (root : PyPath.Path) (show_tokens show_size : bool)
    (sort_by : string) (dirs_first : bool) :
  let root_name :=
    if String.eqb (PyPath.name root) EmptyString then PyPath.str root
    else PyPath.name root in
  let annotation := if show_size then "[        10] " else EmptyString in
  generate_tree_view example_files root (Some 1) show_tokens show_size sort_by dirs_first
  = Ok (PyStr.join (String PyStr.newline EmptyString)
          [ "└── " ++ annotation ++ root_name;
            "    └── " ++ annotation ++ "a";
            EmptyString;
            "1 directories, 0 files" ]).
Proof.
  intros root_name annotation.
  destruct show_tokens, show_size, dirs_first;
    cbv -[PyPath.name PyPath.str String.eqb String.append];
    fold root_name; rewrite append_empty_r; reflexivity.
Qed.

(** * tree.py: lists and sums *)

Local Open Scope list_scope.

Lemma fold_add_shift (l : list Z) (a : Z) : fold_left Z.add l a = a + fold_left Z.add l 0.
Proof.
  revert a. induction l as [|x l IH]; intros a; simpl; [lia|].
  rewrite (IH (a + x)), (IH x). lia.
Qed.

Lemma sum_nil : Tree.sum [] = 0.
Proof. reflexivity. Qed.

Lemma sum_cons (x : Z) (l : list Z) : Tree.sum (x :: l) = x + Tree.sum l.
Proof. unfold Tree.sum. simpl. apply fold_add_shift. Qed.

Lemma sum_app (l l' : list Z) : Tree.sum (l ++ l') = Tree.sum l + Tree.sum l'.
Proof.
  induction l as [|x l IH].
  - change (Tree.sum ([] ++ l')) with (Tree.sum l'). change (Tree.sum []) with 0. lia.
  - change ((x :: l) ++ l') with (x :: (l ++ l')). rewrite !sum_cons, IH. lia.
Qed.

Lemma find_app {A : Type} (p : A -> bool) (l l' : list A) :
  find p (l ++ l') = match find p l with Some a => Some a | None => find p l' end.
Proof.
  induction l as [|a l IH]; simpl; [reflexivity|].
  destruct (p a); [reflexivity|exact IH].
Qed.

Lemma find_none_all {A : Type} (p : A -> bool) (l : list A) :
  find p l = None <-> forall a, In a l -> p a = false.
Proof.
  split.
  - intros H a Ha. exact (find_none p l H a Ha).
  - induction l as [|a l IH]; simpl; intros H; [reflexivity|].
    rewrite (H a (or_introl eq_refl)). apply IH. intros b Hb. apply H. right. exact Hb.
Qed.

(** What the search loop of [add_to_tree] finds sits after children that
    are not what it looks for, and [replace_first] replaces it there. *)
Lemma find_replace_split (p : TreeNode -> bool) (c' : TreeNode) (cs : list TreeNode)
    (c : TreeNode) :
  find p cs = Some c ->
  exists l1 l2,
    cs = l1 ++ c :: l2 /\ (forall a, In a l1 -> p a = false) /\ p c = true /\
    replace_first p c' cs = l1 ++ c' :: l2.
Proof.
  induction cs as [|a cs IH]; simpl; [discriminate|].
  destruct (p a) eqn:E.
  - intros [= ->]. exists [], cs. simpl. repeat split; auto. intros a [].
  - intros H. destruct (IH H) as [l1 [l2 [-> [H1 [H2 H3]]]]].
    exists (a :: l1), l2. simpl. rewrite H3. repeat split; auto.
    intros b [<-|Hb]; auto.
Qed.

Lemma NoDup_snoc {A : Type} (l : list A) (a : A) :
  NoDup l -> ~ In a l -> NoDup (l ++ [a]).
Proof.
  intros Hl Ha. induction Hl as [|x l Hx Hl IH]; simpl.
  - constructor; [tauto|constructor].
  - constructor.
    + rewrite in_app_iff. simpl. intros [H|[H|[]]]; [tauto|].
      apply Ha. left. symmetry. exact H.
    + apply IH. intros H. apply Ha. right. exact H.
Qed.

(** Distinct names among the members of two kinds give distinct names
    overall when no name is shared across the kinds. *)
Lemma NoDup_by_kind {A B : Type} (f : A -> B) (g : A -> bool) (l : list A) :
  NoDup (map f (filter g l)) ->
  NoDup (map f (filter (fun a => negb (g a)) l)) ->
  (forall a b, In a l -> In b l -> g a = true -> g b = false -> f a <> f b) ->
  NoDup (map f l).
Proof.
  induction l as [|x l IH]; simpl; intros H1 H2 H3; [constructor|].
  assert (Hrest : forall a b, In a l -> In b l -> g a = true -> g b = false -> f a <> f b)
    by (intros a b Ha Hb; apply H3; right; assumption).
  destruct (g x) eqn:E; simpl in *.
  - inversion H1 as [|? ? Hx H1']; subst. constructor; [|apply IH; assumption].
    intros Hin. apply in_map_iff in Hin. destruct Hin as [y [Hy Hyl]].
    destruct (g y) eqn:Ey.
    + apply Hx. apply in_map_iff. exists y. split; [exact Hy|].
      apply filter_In. split; assumption.
    + apply (H3 x y); auto.
  - inversion H2 as [|? ? Hx H2']; subst. constructor; [|apply IH; assumption].
    intros Hin. apply in_map_iff in Hin. destruct Hin as [y [Hy Hyl]].
    destruct (g y) eqn:Ey.
    + apply (H3 y x); auto.
    + apply Hx. apply in_map_iff. exists y. split; [exact Hy|].
      apply filter_In. split; [assumption|]. rewrite Ey. reflexivity.
Qed.

(** * tree.py: the files below a directory *)

Lemma sub_app (x : string) (l l' : list FileInfo) : sub x (l ++ l') = sub x l ++ sub x l'.
Proof.
  induction l as [|f l IH]; simpl; [reflexivity|].
  destruct (Walker.path f) as [|y [|z r]]; try exact IH.
  destruct (String.eqb y x); [simpl; f_equal|]; exact IH.
Qed.

Lemma singles_app (l l' : list FileInfo) : singles (l ++ l') = singles l ++ singles l'.
Proof.
  induction l as [|f l IH]; simpl; [reflexivity|].
  destruct (Walker.path f) as [|y [|z r]]; try exact IH.
  simpl. f_equal. exact IH.
Qed.

Lemma files_under_app (p : list string) (l l' : list FileInfo) :
  files_under p (l ++ l') = files_under p l ++ files_under p l'.
Proof. unfold files_under. apply filter_app. Qed.

Lemma size_under_app (p : list string) (l l' : list FileInfo) :
  size_under p (l ++ l') = size_under p l + size_under p l'.
Proof. unfold size_under. rewrite files_under_app, map_app, sum_app. reflexivity. Qed.

Lemma tokens_under_app (p : list string) (l l' : list FileInfo) :
  tokens_under p (l ++ l') = tokens_under p l + tokens_under p l'.
Proof. unfold tokens_under. rewrite files_under_app, map_app, sum_app. reflexivity. Qed.

(** Going one name down on both sides. *)
Lemma files_under_sub (x : string) (p : list string) (files : list FileInfo) :
  map Walker.size (files_under (x :: p) files) = map Walker.size (files_under p (sub x files)).
Proof.
  unfold files_under. induction files as [|f l IH]; simpl; [reflexivity|].
  destruct (Walker.path f) as [|y [|z r]] eqn:E; simpl.
  - exact IH.
  - destruct (String.eqb x y); simpl; [|exact IH].
    destruct p; simpl; exact IH.
  - rewrite (String.eqb_sym y x). destruct (String.eqb x y); simpl; [|exact IH].
    destruct (is_strict_prefix p (z :: r)); simpl; [f_equal|]; exact IH.
Qed.

Lemma size_under_sub (x : string) (p : list string) (files : list FileInfo) :
  size_under (x :: p) files = size_under p (sub x files).
Proof. unfold size_under. rewrite files_under_sub. reflexivity. Qed.

Lemma tokens_under_sub (x : string) (p : list string) (files : list FileInfo) :
  tokens_under (x :: p) files = tokens_under p (sub x files).
Proof.
  unfold tokens_under.
  rewrite <- (map_map Walker.size (fun s => s / 4)), files_under_sub, map_map.
  reflexivity.
Qed.

(** * tree.py: inserting the files *)

Lemma is_named_dir_true (x : string) (c : TreeNode) :
  is_named_dir x c = true <-> name c = x /\ is_dir c = true.
Proof.
  unfold is_named_dir. rewrite andb_true_iff, String.eqb_eq. reflexivity.
Qed.

Lemma is_named_dir_false (x : string) (c : TreeNode) :
  is_named_dir x c = false -> is_dir c = true -> name c <> x.
Proof.
  unfold is_named_dir. intros H Hd E. rewrite Hd, andb_true_r in H.
  apply String.eqb_neq in H. contradiction.
Qed.

Lemma leaf_sum_eq (field : TreeNode -> Z) (node : TreeNode) :
  leaf_sum field node =
  if is_dir node then Tree.sum (map (leaf_sum field) (children node)) else field node.
Proof. destruct node; reflexivity. Qed.

Lemma leaf_sum_dir (field : TreeNode -> Z) (node : TreeNode) (cs : list TreeNode) :
  is_dir node = true ->
  leaf_sum field (set_children node cs) = Tree.sum (map (leaf_sum field) cs).
Proof. intros H. rewrite leaf_sum_eq. cbn. rewrite H. reflexivity. Qed.

Lemma add_to_tree_deep (node : TreeNode) (p r : string) (rest : list string)
    (file_info : option FileInfo) :
  add_to_tree node (p :: r :: rest) file_info =
  match find (is_named_dir p) (children node) with
  | Some child =>
      child' <- add_to_tree child (r :: rest) file_info ;;
      Ok (set_children node (replace_first (is_named_dir p) child' (children node)))
  | None =>
      child' <- add_to_tree (mkTreeNode p [p] true 0 0 []) (r :: rest) file_info ;;
      Ok (set_children node (children node ++ [child']))
  end.
Proof. reflexivity. Qed.

Lemma add_to_tree_keeps (node : TreeNode) (parts : list string)
    (file_info : option FileInfo) (node' : TreeNode) :
  add_to_tree node parts file_info = Ok node' ->
  name node' = name node /\ is_dir node' = is_dir node.
Proof.
  destruct parts as [|p [|r rest]].
  - discriminate.
  - simpl. intros [= <-]. split; reflexivity.
  - rewrite add_to_tree_deep. destruct (find _ _) as [child|].
    + destruct (add_to_tree child (r :: rest) file_info); cbn [bind]; [|discriminate].
      intros [= <-]. split; reflexivity.
    + destruct (add_to_tree _ (r :: rest) file_info); cbn [bind]; [|discriminate].
      intros [= <-]. split; reflexivity.
Qed.

Lemma sub_nonempty_app (x : string) (l l' : list FileInfo) :
  sub x l <> [] -> sub x (l ++ l') <> [].
Proof.
  rewrite sub_app. destruct (sub x l); [tauto|discriminate].
Qed.

Lemma sub_deep_other (x p r : string) (rest : list string) (s : Z) (m : Q)
    (files : list FileInfo) :
  p <> x ->
  sub x (files ++ [mkFileInfo (p :: r :: rest) s m]) = sub x files.
Proof.
  intros H. rewrite sub_app. simpl.
  apply String.eqb_neq in H. rewrite H. apply app_nil_r.
Qed.

Lemma sub_deep_same (p r : string) (rest : list string) (s : Z) (m : Q)
    (files : list FileInfo) :
  sub p (files ++ [mkFileInfo (p :: r :: rest) s m])
  = sub p files ++ [mkFileInfo (r :: rest) s m].
Proof. rewrite sub_app. simpl. rewrite String.eqb_refl. reflexivity. Qed.

Lemma sub_leaf (x p : string) (s : Z) (m : Q) (files : list FileInfo) :
  sub x (files ++ [mkFileInfo [p] s m]) = sub x files.
Proof. rewrite sub_app. simpl. apply app_nil_r. Qed.

Lemma under_one (p : string) (rest : list string) (s : Z) (m : Q) :
  size_under [] [mkFileInfo (p :: rest) s m] = s /\
  tokens_under [] [mkFileInfo (p :: rest) s m] = s / 4.
Proof. split; reflexivity. Qed.

(** A fresh directory node has nothing below it. *)
Lemma inserted_fresh (x : string) (p : PyPath.Path) :
  Inserted (mkTreeNode x p true 0 0 []) [].
Proof.
  constructor; simpl; try reflexivity; try constructor; try tauto; try discriminate.
Qed.

(** The file becomes a new last child. *)
Lemma inserted_leaf (node : TreeNode) (files : list FileInfo) (p : string) (s : Z) (m : Q) :
  Inserted node files -> is_dir node = true ->
  Inserted (set_children node (children node ++ [mkTreeNode p [p] false s (s / 4) []]))
           (files ++ [mkFileInfo [p] s m]).
Proof.
  intros HI Hd. inversion HI as [n F H1 H2 H3 H4 H5 H6 H7 H8]; subst n F.
  constructor; cbn [children set_children].
  - rewrite filter_app. simpl. rewrite app_nil_r. exact H1.
  - intros x Hx. rewrite find_app in Hx. rewrite sub_leaf.
    apply H2. destruct (find (is_named_dir x) (children node)); [discriminate|reflexivity].
  - intros c Hc Hcd. rewrite sub_leaf. apply in_app_iff in Hc.
    destruct Hc as [Hc|[<-|[]]]; [auto|discriminate].
  - rewrite filter_app, map_app, singles_app, H4. reflexivity.
  - intros c Hc Hcd. apply in_app_iff in Hc. destruct Hc as [Hc|[<-|[]]]; auto.
  - rewrite leaf_sum_dir by exact Hd. rewrite map_app, sum_app, size_under_app.
    rewrite leaf_sum_eq, Hd in H6. rewrite H6. reflexivity.
  - rewrite leaf_sum_dir by exact Hd. rewrite map_app, sum_app, tokens_under_app.
    rewrite leaf_sum_eq, Hd in H7. rewrite H7. reflexivity.
  - apply Forall_app. split.
    + eapply Forall_impl; [|exact H8]. intros c Hc Hcd. rewrite sub_leaf. auto.
    + constructor; [discriminate|constructor].
Qed.

Lemma same_kind_names (sel : TreeNode -> bool) (l1 l2 : list TreeNode) (c c' : TreeNode) :
  name c' = name c -> sel c' = sel c ->
  map name (filter sel (l1 ++ c' :: l2)) = map name (filter sel (l1 ++ c :: l2)).
Proof.
  intros Hn Hs. rewrite !filter_app, !map_app. simpl. rewrite Hs.
  destruct (sel c); simpl; [rewrite Hn|]; reflexivity.
Qed.

(** The path goes through a directory the node has already. *)
Lemma inserted_descend_existing (node : TreeNode) (files : list FileInfo)
    (p r : string) (rest : list string) (s : Z) (m : Q)
    (l1 l2 : list TreeNode) (child child' : TreeNode) :
  Inserted node files -> is_dir node = true ->
  children node = l1 ++ child :: l2 ->
  (forall a, In a l1 -> is_named_dir p a = false) ->
  is_named_dir p child = true ->
  name child' = name child -> is_dir child' = true ->
  Inserted child' (sub p files ++ [mkFileInfo (r :: rest) s m]) ->
  Inserted (set_children node (l1 ++ child' :: l2))
           (files ++ [mkFileInfo (p :: r :: rest) s m]).
Proof.
  intros HI Hd Hcs Hl1 Hchild Hn Hd' HI'.
  apply is_named_dir_true in Hchild. destruct Hchild as [Hname Hcd].
  inversion HI as [n F H1 H2 H3 H4 H5 H6 H7 H8]; subst n F.
  rewrite Hcs in *.
  assert (Hother : forall c, In c (l1 ++ l2) -> is_dir c = true -> name c <> p).
  { intros c Hc Hcdir. apply in_app_iff in Hc. destruct Hc as [Hc|Hc].
    - apply is_named_dir_false; auto.
    - rewrite filter_app, map_app in H1. simpl in H1. rewrite Hcd in H1. simpl in H1.
      apply NoDup_remove_2 in H1. intros E. apply H1. apply in_app_iff. right.
      rewrite Hname, <- E. apply in_map. apply filter_In. auto. }
  constructor; cbn [children set_children].
  - rewrite (same_kind_names is_dir l1 l2 child child'); auto. congruence.
  - intros x Hx.
    assert (Hxp : p <> x).
    { intros <-. rewrite find_none_all in Hx.
      specialize (Hx child' (in_elt child' l1 l2)).
      assert (is_named_dir p child' = true)
        by (apply is_named_dir_true; split; congruence).
      congruence. }
    rewrite sub_deep_other by exact Hxp. apply H2.
    rewrite find_none_all in *. intros a Ha.
    apply in_app_iff in Ha. destruct Ha as [Ha|[<-|Ha]].
    + apply Hx. apply in_app_iff. auto.
    + unfold is_named_dir. rewrite Hname, Hcd, andb_true_r.
      apply String.eqb_neq. exact Hxp.
    + apply Hx. apply in_app_iff. right. right. exact Ha.
  - intros c Hc Hcdir. apply in_app_iff in Hc. destruct Hc as [Hc|[<-|Hc]].
    + apply sub_nonempty_app. apply H3; [apply in_app_iff; auto|exact Hcdir].
    + rewrite Hn, Hname, sub_deep_same. destruct (sub p files); discriminate.
    + apply sub_nonempty_app. apply H3; [|exact Hcdir].
      apply in_app_iff. right. right. exact Hc.
  - rewrite (same_kind_names (fun c => negb (is_dir c)) l1 l2 child child');
      [|exact Hn|congruence].
    rewrite H4, singles_app. simpl. symmetry. apply app_nil_r.
  - intros c Hc Hcdir. apply in_app_iff in Hc. destruct Hc as [Hc|[<-|Hc]].
    + apply H5; [apply in_app_iff; auto|exact Hcdir].
    + congruence.
    + apply H5; [|exact Hcdir]. apply in_app_iff. right. right. exact Hc.
  - rewrite leaf_sum_dir by exact Hd. rewrite leaf_sum_eq, Hd, Hcs in H6.
    rewrite map_app, sum_app in H6 |- *. cbn [map] in H6 |- *. rewrite sum_cons in H6 |- *.
    inversion HI' as [n F _ _ _ _ _ K6 _ _]; subst n F. rewrite K6.
    apply Forall_app in H8. destruct H8 as [_ H8]. pose proof (Forall_inv H8 Hcd) as Hc. inversion Hc as [n F _ _ _ _ _ J6 _ _]; subst n F.
    rewrite Hname in J6. rewrite !size_under_app.
    destruct (under_one r rest s m) as [-> _]. destruct (under_one p (r :: rest) s m) as [-> _].
    lia.
  - rewrite leaf_sum_dir by exact Hd. rewrite leaf_sum_eq, Hd, Hcs in H7.
    rewrite map_app, sum_app in H7 |- *. cbn [map] in H7 |- *. rewrite sum_cons in H7 |- *.
    inversion HI' as [n F _ _ _ _ _ _ K7 _]; subst n F. rewrite K7.
    apply Forall_app in H8. destruct H8 as [_ H8]. pose proof (Forall_inv H8 Hcd) as Hc. inversion Hc as [n F _ _ _ _ _ _ J7 _]; subst n F.
    rewrite Hname in J7. rewrite !tokens_under_app.
    destruct (under_one r rest s m) as [_ ->]. destruct (under_one p (r :: rest) s m) as [_ ->].
    lia.
  - apply Forall_app in H8. destruct H8 as [H8a H8b].
    pose proof (Forall_inv_tail H8b) as H8c.
    apply Forall_app. split; [|constructor].
    + rewrite Forall_forall in *. intros c Hc Hcdir.
      rewrite sub_deep_other; [auto|].
      intros E. apply (Hother c); auto. apply in_app_iff. auto.
    + intros _. rewrite Hn, Hname, sub_deep_same. exact HI'.
    + rewrite Forall_forall in *. intros c Hc Hcdir.
      rewrite sub_deep_other; [auto|].
      intros E. apply (Hother c); auto. apply in_app_iff. auto.
Qed.

(** The path goes through a directory the node does not have yet. *)
Lemma inserted_descend_new (node : TreeNode) (files : list FileInfo)
    (p r : string) (rest : list string) (s : Z) (m : Q) (child' : TreeNode) :
  Inserted node files -> is_dir node = true ->
  find (is_named_dir p) (children node) = None ->
  name child' = p -> is_dir child' = true ->
  Inserted child' ([] ++ [mkFileInfo (r :: rest) s m]) ->
  Inserted (set_children node (children node ++ [child']))
           (files ++ [mkFileInfo (p :: r :: rest) s m]).
Proof.
  intros HI Hd Hfind Hn Hd' HI'.
  inversion HI as [n F H1 H2 H3 H4 H5 H6 H7 H8]; subst n F.
  pose proof (H2 p Hfind) as Hsub.
  rewrite find_none_all in Hfind.
  assert (Hother : forall c, In c (children node) -> is_dir c = true -> name c <> p).
  { intros c Hc Hcdir. apply is_named_dir_false; auto. }
  constructor; cbn [children set_children].
  - rewrite filter_app, map_app. simpl. rewrite Hd'. simpl.
    apply NoDup_snoc; [exact H1|].
    intros Hin. apply in_map_iff in Hin. destruct Hin as [c [Hc Hcin]].
    apply filter_In in Hcin. destruct Hcin as [Hcin Hcdir].
    apply (Hother c); auto. congruence.
  - intros x Hx. rewrite find_none_all in Hx.
    assert (Hxp : p <> x).
    { intros <-. specialize (Hx child' (in_elt child' (children node) [])).
      assert (is_named_dir p child' = true) by (apply is_named_dir_true; auto).
      congruence. }
    rewrite sub_deep_other by exact Hxp. apply H2. apply find_none_all.
    intros a Ha. apply Hx. apply in_app_iff. auto.
  - intros c Hc Hcdir. apply in_app_iff in Hc. destruct Hc as [Hc|[<-|[]]].
    + apply sub_nonempty_app. auto.
    + rewrite Hn, sub_deep_same. destruct (sub p files); discriminate.
  - rewrite filter_app, map_app. simpl. rewrite Hd'. simpl.
    rewrite H4, singles_app. simpl. rewrite ?app_nil_r. reflexivity.
  - intros c Hc Hcdir. apply in_app_iff in Hc. destruct Hc as [Hc|[<-|[]]]; [auto|congruence].
  - rewrite leaf_sum_dir by exact Hd. rewrite leaf_sum_eq, Hd in H6.
    rewrite map_app, sum_app. simpl. rewrite sum_cons, sum_nil.
    inversion HI' as [n F _ _ _ _ _ K6 _ _]; subst n F. rewrite K6, H6.
    rewrite !size_under_app.
    destruct (under_one r rest s m) as [-> _]. destruct (under_one p (r :: rest) s m) as [-> _].
    change (size_under [] []) with 0. lia.
  - rewrite leaf_sum_dir by exact Hd. rewrite leaf_sum_eq, Hd in H7.
    rewrite map_app, sum_app. simpl. rewrite sum_cons, sum_nil.
    inversion HI' as [n F _ _ _ _ _ _ K7 _]; subst n F. rewrite K7, H7.
    rewrite !tokens_under_app.
    destruct (under_one r rest s m) as [_ ->]. destruct (under_one p (r :: rest) s m) as [_ ->].
    change (tokens_under [] []) with 0. lia.
  - apply Forall_app. split.
    + rewrite Forall_forall in *. intros c Hc Hcdir.
      rewrite sub_deep_other; [auto|]. intros E. apply (Hother c); auto.
    + constructor; [|constructor]. intros _.
      rewrite Hn, sub_deep_same, Hsub. exact HI'.
Qed.

Lemma inserted_child (node : TreeNode) (files : list FileInfo) (c : TreeNode) :
  Inserted node files -> In c (children node) -> is_dir c = true ->
  Inserted c (sub (name c) files).
Proof.
  intros HI Hc Hd. inversion HI as [n F H1 H2 H3 H4 H5 H6 H7 H8]; subst n F.
  rewrite Forall_forall in H8. auto.
Qed.

(** One call of [add_to_tree] on a directory node. *)
Lemma add_inserted (parts : list string) :
  forall (node : TreeNode) (files : list FileInfo) (info : FileInfo) (node' : TreeNode),
    Inserted node files -> is_dir node = true ->
    add_to_tree node parts (Some info) = Ok node' ->
    Inserted node'
      (files ++ [mkFileInfo parts (Walker.size info) (Walker.mtime info)]).
Proof.
  induction parts as [|p rest IH]; intros node files info node' HI Hd Hadd.
  - discriminate.
  - destruct rest as [|r rest].
    + simpl in Hadd. injection Hadd as <-. apply inserted_leaf; assumption.
    + rewrite add_to_tree_deep in Hadd.
      destruct (find (is_named_dir p) (children node)) as [child|] eqn:Ef.
      * destruct (add_to_tree child (r :: rest) (Some info)) as [child'|] eqn:Ea;
          cbn [bind] in Hadd; [|discriminate].
        injection Hadd as <-.
        destruct (find_replace_split _ child' _ _ Ef) as [l1 [l2 [Hcs [Hl1 [Hpc Hrep]]]]].
        rewrite Hrep.
        pose proof Hpc as Hpc'. apply is_named_dir_true in Hpc'.
        destruct Hpc' as [Hname Hcd].
        destruct (add_to_tree_keeps _ _ _ _ Ea) as [Hn Hd'].
        assert (HIc : Inserted child (sub p files)).
        { rewrite <- Hname. apply (inserted_child node); [exact HI| |exact Hcd].
          rewrite Hcs. apply in_elt. }
        apply (inserted_descend_existing node files p r rest _ _ l1 l2 child child');
          try assumption; [congruence|].
        apply (IH child (sub p files) info child' HIc Hcd Ea).
      * destruct (add_to_tree (mkTreeNode p [p] true 0 0 []) (r :: rest) (Some info))
          as [child'|] eqn:Ea; cbn [bind] in Hadd; [|discriminate].
        injection Hadd as <-.
        destruct (add_to_tree_keeps _ _ _ _ Ea) as [Hn Hd'].
        apply inserted_descend_new; try assumption.
        apply (IH _ [] info child' (inserted_fresh p [p]) eq_refl Ea).
Qed.

Lemma add_all_inserted (files : list FileInfo) :
  forall (node : TreeNode) (done : list FileInfo) (node' : TreeNode),
    Inserted node done -> is_dir node = true ->
    add_all node files = Ok node' ->
    Inserted node' (done ++ files) /\ is_dir node' = true /\ name node' = name node.
Proof.
  induction files as [|f files IH]; intros node done node' HI Hd Hadd.
  - simpl in Hadd. injection Hadd as <-. rewrite app_nil_r. auto.
  - simpl in Hadd.
    destruct (add_to_tree node (Walker.path f) (Some f)) as [node1|] eqn:Ea;
      cbn [bind] in Hadd; [|discriminate].
    destruct (add_to_tree_keeps _ _ _ _ Ea) as [Hn Hd1].
    pose proof (add_inserted _ _ _ _ _ HI Hd Ea) as HI1.
    assert (Ef : mkFileInfo (Walker.path f) (Walker.size f) (Walker.mtime f) = f)
      by (destruct f; reflexivity).
    rewrite Ef in HI1.
    assert (Hd1' : is_dir node1 = true) by (rewrite Hd1; exact Hd).
    destruct (IH node1 (done ++ [f]) node' HI1 Hd1' Hadd) as [H1 [H2 H3]].
    rewrite <- app_assoc in H1. simpl in H1.
    split; [exact H1|split; congruence].
Qed.

(** With no limit on the depth of the recursion, [add_to_tree] fails on
    the empty path only. *)
Lemma add_to_tree_total (parts : list string) :
  forall (node : TreeNode) (file_info : option FileInfo),
    parts <> [] -> exists node', add_to_tree node parts file_info = Ok node'.
Proof.
  induction parts as [|p rest IH]; intros node fi Hne; [contradiction|].
  destruct rest as [|r rest].
  - simpl. eauto.
  - rewrite add_to_tree_deep.
    destruct (find (is_named_dir p) (children node)) as [child|].
    + destruct (IH child fi ltac:(discriminate)) as [c' ->]. cbn [bind]. eauto.
    + destruct (IH (mkTreeNode p [p] true 0 0 []) fi ltac:(discriminate)) as [c' ->].
      cbn [bind]. eauto.
Qed.

(** * tree.py: rolling up, ordering and pruning *)

Lemma calc_size_eq (node : TreeNode) :
  calc_size node =
  if negb (is_dir node) then node
  else
    let cs := map calc_size (children node) in
    mkTreeNode (name node) (path node) (is_dir node)
               (Tree.sum (map size cs)) (Tree.sum (map tokens cs)) cs.
Proof. destruct node; reflexivity. Qed.

Lemma sort_children_eq (sort_by : string) (dirs_first : bool) (node : TreeNode) :
  sort_children sort_by dirs_first node =
  set_children node
    (order_children sort_by dirs_first
       (map (fun child =>
               if is_dir child then sort_children sort_by dirs_first child else child)
            (children node))).
Proof. destruct node; reflexivity. Qed.

Lemma trim_depth_eq (max_depth : Z) (node : TreeNode) (depth : Z) :
  trim_depth max_depth node depth =
  if max_depth <=? depth then set_children node []
  else
    set_children node
      (map (fun child =>
              if is_dir child then trim_depth max_depth child (depth + 1) else child)
           (children node)).
Proof. destruct node; reflexivity. Qed.

Lemma calc_size_keeps (node : TreeNode) :
  name (calc_size node) = name node /\ is_dir (calc_size node) = is_dir node.
Proof. rewrite calc_size_eq. destruct (is_dir node) eqn:E; simpl; auto. Qed.

Lemma sort_children_keeps (sort_by : string) (dirs_first : bool) (node : TreeNode) :
  name (sort_children sort_by dirs_first node) = name node /\
  is_dir (sort_children sort_by dirs_first node) = is_dir node /\
  size (sort_children sort_by dirs_first node) = size node /\
  tokens (sort_children sort_by dirs_first node) = tokens node.
Proof. rewrite sort_children_eq. repeat split; reflexivity. Qed.

Lemma trim_depth_keeps (max_depth : Z) (node : TreeNode) (depth : Z) :
  name (trim_depth max_depth node depth) = name node /\
  is_dir (trim_depth max_depth node depth) = is_dir node /\
  size (trim_depth max_depth node depth) = size node /\
  tokens (trim_depth max_depth node depth) = tokens node.
Proof.
  rewrite trim_depth_eq. destruct (max_depth <=? depth); repeat split; reflexivity.
Qed.

(** [calc_size] sets a directory's fields to the sums over the files below. *)
Lemma calc_size_fields (node : TreeNode) :
  size (calc_size node) = leaf_sum size node /\
  tokens (calc_size node) = leaf_sum tokens node.
Proof.
  induction node as [node IH] using TreeNode_nested_ind.
  rewrite calc_size_eq, !leaf_sum_eq. destruct (is_dir node); simpl; [|auto].
  rewrite !map_map. rewrite Forall_forall in IH.
  split; f_equal; apply map_ext_in; intros c Hc; apply (IH c Hc).
Qed.

Lemma calc_size_rolled (node : TreeNode) :
  forall files, Inserted node files -> is_dir node = true ->
                Rolled size tokens (calc_size node) files.
Proof.
  induction node as [node IH] using TreeNode_nested_ind.
  intros files HI Hd.
  inversion HI as [n F H1 H2 H3 H4 H5 H6 H7 H8]; subst n F.
  rewrite leaf_sum_eq, Hd in H6, H7.
  rewrite calc_size_eq, Hd. simpl.
  constructor; cbn [size tokens children].
  - rewrite <- H6, map_map. f_equal. apply map_ext. intros c. apply calc_size_fields.
  - rewrite <- H7, map_map. f_equal. apply map_ext. intros c. apply calc_size_fields.
  - rewrite Forall_map. rewrite Forall_forall in *. intros c Hc Hcd.
    destruct (calc_size_keeps c) as [-> Hk]. rewrite Hk in Hcd.
    apply (IH c Hc). apply (H8 c Hc Hcd). exact Hcd.
Qed.

Lemma insert_by_perm (lt : TreeNode -> TreeNode -> bool) (x : TreeNode) (l : list TreeNode) :
  Permutation (insert_by lt x l) (x :: l).
Proof.
  induction l as [|y l IH]; simpl; [apply Permutation_refl|].
  destruct (lt y x); [|apply Permutation_refl].
  eapply perm_trans; [apply perm_skip; exact IH|apply perm_swap].
Qed.

Lemma sort_by_key_perm (lt : TreeNode -> TreeNode -> bool) (l : list TreeNode) :
  Permutation (sort_by_key lt l) l.
Proof.
  induction l as [|x l IH]; simpl; [constructor|].
  eapply perm_trans; [apply insert_by_perm|apply perm_skip; exact IH].
Qed.

Lemma partition_perm (g : TreeNode -> bool) (l : list TreeNode) :
  Permutation (filter g l ++ filter (fun c => negb (g c)) l) l.
Proof.
  induction l as [|x l IH]; simpl; [constructor|].
  destruct (g x); simpl.
  - apply perm_skip. exact IH.
  - eapply perm_trans; [symmetry; apply Permutation_middle|apply perm_skip; exact IH].
Qed.

(** Ordering the children rearranges them and nothing else. *)
Lemma order_children_perm (sort_by : string) (dirs_first : bool) (cs : list TreeNode) :
  Permutation (order_children sort_by dirs_first cs) cs.
Proof.
  unfold order_children. destruct dirs_first; [|apply sort_by_key_perm].
  eapply perm_trans; [|apply (partition_perm is_dir)].
  apply Permutation_app; apply sort_by_key_perm.
Qed.

Lemma insert_by_map (lt : TreeNode -> TreeNode -> bool) (f : TreeNode -> TreeNode)
    (x : TreeNode) (l : list TreeNode) :
  (forall a b, lt (f a) (f b) = lt a b) ->
  insert_by lt (f x) (map f l) = map f (insert_by lt x l).
Proof.
  intros H. induction l as [|y l IH]; simpl; [reflexivity|].
  rewrite H. destruct (lt y x); simpl; [f_equal; exact IH|reflexivity].
Qed.

Lemma sort_by_key_map (lt : TreeNode -> TreeNode -> bool) (f : TreeNode -> TreeNode)
    (l : list TreeNode) :
  (forall a b, lt (f a) (f b) = lt a b) ->
  sort_by_key lt (map f l) = map f (sort_by_key lt l).
Proof.
  intros H. induction l as [|x l IH]; simpl; [reflexivity|].
  rewrite IH. apply insert_by_map. exact H.
Qed.

Lemma filter_map_kind (g : TreeNode -> bool) (f : TreeNode -> TreeNode) (l : list TreeNode) :
  (forall a, g (f a) = g a) -> filter g (map f l) = map f (filter g l).
Proof.
  intros H. induction l as [|x l IH]; simpl; [reflexivity|].
  rewrite H. destruct (g x); simpl; [f_equal|]; exact IH.
Qed.

(** Ordering commutes with a change of the children that keeps their name,
    kind, size and tokens: ordering before the descent, as the code does,
    and after it, as [sort_children] is written here, give the same list. *)
Lemma order_children_map (sort_by : string) (dirs_first : bool)
    (f : TreeNode -> TreeNode) (cs : list TreeNode) :
  (forall c, name (f c) = name c /\ is_dir (f c) = is_dir c /\
             size (f c) = size c /\ tokens (f c) = tokens c) ->
  order_children sort_by dirs_first (map f cs)
  = map f (order_children sort_by dirs_first cs).
Proof.
  intros H.
  assert (Hlt : forall a b, key_lt sort_by (f a) (f b) = key_lt sort_by a b).
  { intros a b. unfold key_lt.
    destruct (H a) as [-> [_ [-> ->]]]. destruct (H b) as [-> [_ [-> ->]]]. reflexivity. }
  unfold order_children. destruct dirs_first.
  - rewrite !filter_map_kind, !sort_by_key_map, map_app; auto.
    + intros a. destruct (H a) as [_ [-> _]]. reflexivity.
    + intros a. destruct (H a) as [_ [-> _]]. reflexivity.
  - apply sort_by_key_map. exact Hlt.
Qed.

Lemma sort_children_step (sort_by : string) (dirs_first : bool) (node : TreeNode) :
  sort_children sort_by dirs_first node =
  set_children node
    (map (fun child =>
            if is_dir child then sort_children sort_by dirs_first child else child)
         (order_children sort_by dirs_first (children node))).
Proof.
  rewrite sort_children_eq. f_equal. apply order_children_map.
  intros c. destruct (is_dir c) eqn:E; [|auto].
  destruct (sort_children_keeps sort_by dirs_first c) as [-> [-> [-> ->]]]. auto.
Qed.

Lemma sort_children_rolled (fs ft : TreeNode -> Z) (sort_by : string) (dirs_first : bool) :
  (forall n, fs (sort_children sort_by dirs_first n) = fs n /\
             ft (sort_children sort_by dirs_first n) = ft n) ->
  forall node files,
    Rolled fs ft node files -> Rolled fs ft (sort_children sort_by dirs_first node) files.
Proof.
  intros Hk node.
  induction node as [node IH] using TreeNode_nested_ind.
  intros files HR. inversion HR as [n F H1 H2 H3]; subst n F.
  destruct (Hk node) as [K1 K2].
  constructor; [rewrite K1; exact H1|rewrite K2; exact H2|].
  rewrite sort_children_eq. cbn [children set_children].
  eapply Permutation_Forall; [symmetry; apply order_children_perm|].
  rewrite Forall_map. rewrite Forall_forall in *. intros c Hc.
  destruct (is_dir c) eqn:E; [|rewrite E; discriminate].
  destruct (sort_children_keeps sort_by dirs_first c) as [-> [-> _]].
  intros _. apply (IH c Hc). apply (H3 c Hc E).
Qed.

Lemma trim_depth_rolled (max_depth : Z) (node : TreeNode) :
  forall files depth,
    Rolled size tokens node files ->
    Rolled size tokens (trim_depth max_depth node depth) files.
Proof.
  induction node as [node IH] using TreeNode_nested_ind.
  intros files depth HR. inversion HR as [n F H1 H2 H3]; subst n F.
  rewrite trim_depth_eq. destruct (max_depth <=? depth).
  - constructor; cbn [size tokens children set_children]; auto.
  - constructor; cbn [size tokens children set_children]; auto.
    rewrite Forall_map. rewrite Forall_forall in *. intros c Hc.
    destruct (is_dir c) eqn:E; [|rewrite E; discriminate].
    destruct (trim_depth_keeps max_depth c (depth + 1)) as [-> [-> _]].
    intros _. apply (IH c Hc). apply (H3 c Hc E).
Qed.

(** In a rolled-up tree the measures of every directory node are the totals
    of the input files below its path. *)
Lemma rolled_dir_nodes (fs ft : TreeNode -> Z) (node : TreeNode) :
  forall files p n,
    Rolled fs ft node files -> In (p, n) (dir_nodes node) ->
    fs n = size_under p files /\ ft n = tokens_under p files.
Proof.
  induction node as [node IH] using TreeNode_nested_ind.
  intros files p n HR Hin. inversion HR as [n0 F H1 H2 H3]; subst n0 F.
  assert (E : dir_nodes node =
              if is_dir node then
                ([], node)
                :: flat_map (fun c => map (fun pn => (name c :: fst pn, snd pn))
                                          (dir_nodes c)) (children node)
              else []) by (destruct node; reflexivity).
  rewrite E in Hin. destruct (is_dir node); [|contradiction].
  destruct Hin as [[= <- <-]|Hin]; [auto|].
  apply in_flat_map in Hin. destruct Hin as [c [Hc Hin]].
  apply in_map_iff in Hin. destruct Hin as [[q n'] [[= <- <-] Hq]].
  rewrite Forall_forall in *.
  assert (Hcd : is_dir c = true).
  { destruct c as [a b d e f g]. simpl in Hq |- *. destruct d; [reflexivity|contradiction]. }
  rewrite size_under_sub, tokens_under_sub.
  apply (IH c Hc (sub (name c) files) q n' (H3 c Hc Hcd) Hq).
Qed.

Lemma sum_perm (l l' : list Z) : Permutation l l' -> Tree.sum l = Tree.sum l'.
Proof.
  intros H. induction H as [|x l l' _ IH|x y l|l l' l'' _ IH1 _ IH2].
  - reflexivity.
  - rewrite !sum_cons, IH. reflexivity.
  - rewrite !sum_cons. lia.
  - congruence.
Qed.

Lemma leaf_sum_calc_size (field : TreeNode -> Z) (node : TreeNode) :
  leaf_sum field (calc_size node) = leaf_sum field node.
Proof.
  induction node as [node IH] using TreeNode_nested_ind.
  rewrite calc_size_eq. destruct (is_dir node) eqn:E; simpl; [|reflexivity].
  rewrite (leaf_sum_eq field node), E, map_map. f_equal.
  rewrite Forall_forall in IH. apply map_ext_in. exact IH.
Qed.

Lemma leaf_sum_sort_children (sort_by : string) (dirs_first : bool) (node : TreeNode) :
  leaf_sum size (sort_children sort_by dirs_first node) = leaf_sum size node /\
  leaf_sum tokens (sort_children sort_by dirs_first node) = leaf_sum tokens node.
Proof.
  induction node as [node IH] using TreeNode_nested_ind.
  rewrite sort_children_eq, !leaf_sum_eq. cbn [is_dir size tokens children set_children].
  destruct (is_dir node); [|auto].
  rewrite Forall_forall in IH.
  split.
  - rewrite (sum_perm _ _ (Permutation_map _ (order_children_perm sort_by dirs_first _))).
    rewrite map_map. f_equal. apply map_ext_in. intros c Hc.
    destruct (is_dir c); [apply (IH c Hc)|reflexivity].
  - rewrite (sum_perm _ _ (Permutation_map _ (order_children_perm sort_by dirs_first _))).
    rewrite map_map. f_equal. apply map_ext_in. intros c Hc.
    destruct (is_dir c); [apply (IH c Hc)|reflexivity].
Qed.

Lemma inserted_rolled (node : TreeNode) :
  forall files, Inserted node files ->
                Rolled (leaf_sum size) (leaf_sum tokens) node files.
Proof.
  induction node as [node IH] using TreeNode_nested_ind.
  intros files HI. inversion HI as [n F H1 H2 H3 H4 H5 H6 H7 H8]; subst n F.
  constructor; auto.
  rewrite Forall_forall in *. intros c Hc Hcd. apply (IH c Hc). auto.
Qed.

Lemma calc_size_rolled_leaves (node : TreeNode) :
  forall files,
    Rolled (leaf_sum size) (leaf_sum tokens) node files ->
    Rolled (leaf_sum size) (leaf_sum tokens) (calc_size node) files.
Proof.
  induction node as [node IH] using TreeNode_nested_ind.
  intros files HR. inversion HR as [n F H1 H2 H3]; subst n F.
  constructor; rewrite ?leaf_sum_calc_size; auto.
  rewrite calc_size_eq. destruct (is_dir node); simpl; [|exact H3].
  rewrite Forall_map. rewrite Forall_forall in *. intros c Hc Hcd.
  destruct (calc_size_keeps c) as [-> Hk]. rewrite Hk in Hcd.
  apply (IH c Hc). auto.
Qed.

(** * tree.py: the aggregates *)

(** C4. In the tree [build_tree] returns without a depth limit, the size and
    the token total of every directory node are the sums over the input
    files below the node's path, and they are the sums over the file nodes
    below the node. With a depth limit the tree returned is that tree
    pruned, and its directory nodes carry the same sums over the input
    files. *)
Theorem directory_aggregates (files : list FileInfo) (root : PyPath.Path)
    (sort_by : string) (dirs_first : bool) (full : TreeNode) :
  build_tree files root None sort_by dirs_first = Ok full ->
  (forall p node, In (p, node) (dir_nodes full) ->
     size node = size_under p files /\ tokens node = tokens_under p files /\
     size node = leaf_sum size node /\ tokens node = leaf_sum tokens node) /\
  (forall max_depth,
     build_tree files root (Some max_depth) sort_by dirs_first
       = Ok (trim_depth max_depth full 0) /\
     forall p node, In (p, node) (dir_nodes (trim_depth max_depth full 0)) ->
       size node = size_under p files /\ tokens node = tokens_under p files).
Proof.
  unfold build_tree.
  destruct (add_all _ files) as [t|] eqn:Ea; cbn [bind]; [|discriminate].
  intros [= <-].
  destruct (add_all_inserted files _ [] t (inserted_fresh _ _) eq_refl Ea) as [HI [Hd _]].
  simpl in HI.
  assert (HR : Rolled size tokens (sort_children sort_by dirs_first (calc_size t)) files).
  { apply sort_children_rolled.
    - intros n. destruct (sort_children_keeps sort_by dirs_first n) as [_ [_ [-> ->]]]. auto.
    - apply calc_size_rolled; assumption. }
  assert (HL : Rolled (leaf_sum size) (leaf_sum tokens)
                      (sort_children sort_by dirs_first (calc_size t)) files).
  { apply sort_children_rolled.
    - intros n. apply leaf_sum_sort_children.
    - apply calc_size_rolled_leaves, inserted_rolled. exact HI. }
  split.
  - intros p node Hin.
    destruct (rolled_dir_nodes _ _ _ _ _ _ HR Hin) as [Hs Ht].
    destruct (rolled_dir_nodes _ _ _ _ _ _ HL Hin) as [Ls Lt].
    repeat split; congruence.
  - intros max_depth. split; [reflexivity|].
    intros p node Hin.
    apply (rolled_dir_nodes _ _ _ _ _ _ (trim_depth_rolled max_depth _ files 0 HR) Hin).
Qed.

Lemma directory_aggregates_witness :
  build_tree sample_files ["repo"] None "size" true = Ok sample_tree /\
  (forall p node, In (p, node) (dir_nodes sample_tree) ->
     size node = size_under p sample_files /\ tokens node = tokens_under p sample_files /\
     size node = leaf_sum size node /\ tokens node = leaf_sum tokens node) /\
  (forall max_depth,
     build_tree sample_files ["repo"] (Some max_depth) "size" true
       = Ok (trim_depth max_depth sample_tree 0) /\
     forall p node, In (p, node) (dir_nodes (trim_depth max_depth sample_tree 0)) ->
       size node = size_under p sample_files /\
       tokens node = tokens_under p sample_files).
Proof.
  split; [reflexivity|].
  apply (directory_aggregates sample_files ["repo"] "size" true sample_tree).
  reflexivity.
Defined.

(** * tree.py: the names of siblings *)

Lemma is_prefix_refl (p : list string) : is_prefix p p = true.
Proof. induction p as [|x p IH]; simpl; [|rewrite String.eqb_refl]; auto. Qed.

Lemma is_strict_prefix_irrefl (p : list string) : is_strict_prefix p p = false.
Proof. induction p as [|x p IH]; simpl; [|rewrite String.eqb_refl]; auto. Qed.

Lemma is_strict_prefix_prefix (p q : list string) :
  is_strict_prefix p q = true -> is_prefix p q = true.
Proof.
  revert q. induction p as [|x p IH]; intros [|y q]; simpl; auto.
  intros H. apply andb_true_iff in H. destruct H as [-> H]. simpl. auto.
Qed.

Lemma paths_independent_sound (files : list FileInfo) :
  paths_independent files = true -> Independent files.
Proof.
  induction files as [|f files IH]; simpl; intros H.
  - split; [constructor|intros ? ? []].
  - apply andb_true_iff in H. destruct H as [Hf Hrest].
    destruct (IH Hrest) as [Hnd Hsp]. rewrite forallb_forall in Hf.
    assert (Hhead : forall g, In g files ->
                      is_prefix (Walker.path f) (Walker.path g) = false /\
                      is_prefix (Walker.path g) (Walker.path f) = false).
    { intros g Hg. specialize (Hf g Hg). apply andb_true_iff in Hf.
      destruct Hf as [H1 H2]. apply negb_true_iff in H1, H2. auto. }
    split.
    + constructor; [|exact Hnd]. intros Hin. apply in_map_iff in Hin.
      destruct Hin as [g [Hg Hgin]]. destruct (Hhead g Hgin) as [H1 _].
      rewrite Hg, is_prefix_refl in H1. discriminate.
    + intros a b [<-|Ha] [<-|Hb].
      * apply is_strict_prefix_irrefl.
      * destruct (is_strict_prefix (Walker.path f) (Walker.path b)) eqn:E; auto.
        apply is_strict_prefix_prefix in E. destruct (Hhead b Hb) as [H1 _]. congruence.
      * destruct (is_strict_prefix (Walker.path a) (Walker.path f)) eqn:E; auto.
        apply is_strict_prefix_prefix in E. destruct (Hhead a Ha) as [_ H2]. congruence.
      * apply Hsp; assumption.
Qed.

Lemma sub_in (x : string) (files : list FileInfo) (f' : FileInfo) :
  In f' (sub x files) ->
  exists f, In f files /\ Walker.path f = x :: Walker.path f' /\ Walker.path f' <> [].
Proof.
  induction files as [|f files IH]; simpl; [tauto|].
  destruct (Walker.path f) as [|y [|z r]] eqn:E;
    try (intros H; destruct (IH H) as [g [? ?]]; eauto).
  destruct (String.eqb y x) eqn:Ex.
  - apply String.eqb_eq in Ex. subst y.
    intros [<-|H].
    + exists f. simpl. repeat split; auto. discriminate.
    + destruct (IH H) as [g [? ?]]; eauto.
  - intros H; destruct (IH H) as [g [? ?]]; eauto.
Qed.

Lemma singles_in (x : string) (files : list FileInfo) :
  In x (singles files) -> exists f, In f files /\ Walker.path f = [x].
Proof.
  induction files as [|f files IH]; simpl; [tauto|].
  destruct (Walker.path f) as [|y [|z r]] eqn:E;
    try (intros H; destruct (IH H) as [g [? ?]]; eauto).
  intros [<-|H]; [eauto|]. destruct (IH H) as [g [? ?]]; eauto.
Qed.

Lemma singles_nodup (files : list FileInfo) :
  NoDup (map Walker.path files) -> NoDup (singles files).
Proof.
  induction files as [|f files IH]; simpl; intros H; [constructor|].
  inversion H as [|? ? Hf Hrest]; subst.
  destruct (Walker.path f) as [|y [|z r]] eqn:E; auto.
  constructor; [|auto]. intros Hin. apply singles_in in Hin.
  destruct Hin as [g [Hg Hp]]. apply Hf. rewrite <- Hp. apply in_map. exact Hg.
Qed.

Lemma sub_paths_nodup (x : string) (files : list FileInfo) :
  NoDup (map Walker.path files) -> NoDup (map Walker.path (sub x files)).
Proof.
  induction files as [|f files IH]; simpl; intros H; [constructor|].
  inversion H as [|? ? Hf Hrest]; subst.
  destruct (Walker.path f) as [|y [|z r]] eqn:E; auto.
  destruct (String.eqb y x) eqn:Ex; auto.
  apply String.eqb_eq in Ex. subst y. simpl.
  constructor; [|auto]. intros Hin. apply in_map_iff in Hin.
  destruct Hin as [g' [Hp Hg']]. apply sub_in in Hg'.
  destruct Hg' as [g [Hg [Hpath _]]]. apply Hf. rewrite <- Hp, <- Hpath.
  apply in_map. exact Hg.
Qed.

Lemma sub_independent (x : string) (files : list FileInfo) :
  Independent files -> Independent (sub x files).
Proof.
  intros [Hnd Hsp]. split; [apply sub_paths_nodup; exact Hnd|].
  intros f' g' Hf Hg.
  destruct (sub_in _ _ _ Hf) as [f [Hfin [Hfp _]]].
  destruct (sub_in _ _ _ Hg) as [g [Hgin [Hgp _]]].
  specialize (Hsp f g Hfin Hgin). rewrite Hfp, Hgp in Hsp. simpl in Hsp.
  rewrite String.eqb_refl in Hsp. exact Hsp.
Qed.

Lemma sub_nonempty_in (x : string) (files : list FileInfo) :
  sub x files <> [] ->
  exists f r rest, In f files /\ Walker.path f = x :: r :: rest.
Proof.
  intros H. destruct (sub x files) as [|f' l] eqn:E; [contradiction|].
  destruct (sub_in x files f') as [f [Hf [Hp Hne]]]; [rewrite E; left; reflexivity|].
  destruct (Walker.path f') as [|r rest]; [contradiction|]. eauto.
Qed.

Lemma filter_all {A : Type} (l : list A) : filter (fun _ => true) l = l.
Proof. induction l as [|a l IH]; simpl; [|f_equal]; auto. Qed.

(** Sibling directories never share a name. *)
Lemma inserted_distinct_dirs (node : TreeNode) (files : list FileInfo) :
  Inserted node files -> distinct_names (fun d => d) node.
Proof.
  intros HI. inversion HI as [n F H1 H2 H3 H4 H5 H6 H7 H8]; subst n F. exact H1.
Qed.

(** Siblings never share a name when the paths are independent. *)
Lemma inserted_distinct_all (node : TreeNode) (files : list FileInfo) :
  Inserted node files -> Independent files -> distinct_names (fun _ => true) node.
Proof.
  intros HI [Hnd Hsp]. inversion HI as [n F H1 H2 H3 H4 H5 H6 H7 H8]; subst n F.
  unfold distinct_names. rewrite filter_all.
  apply (NoDup_by_kind name is_dir); [exact H1| |].
  - rewrite H4. apply singles_nodup. exact Hnd.
  - intros a b Ha Hb Had Hbd E.
    assert (Hbs : In (name b) (singles files)).
    { rewrite <- H4. apply in_map. apply filter_In. split; [exact Hb|].
      rewrite Hbd. reflexivity. }
    apply singles_in in Hbs. destruct Hbs as [f [Hf Hfp]].
    destruct (sub_nonempty_in _ _ (H3 a Ha Had)) as [g [r [rest [Hg Hgp]]]].
    specialize (Hsp f g Hf Hg). rewrite Hfp, Hgp, E in Hsp. simpl in Hsp.
    rewrite String.eqb_refl in Hsp. discriminate.
Qed.

Lemma inserted_every (Good : list FileInfo -> Prop) (P : TreeNode -> Prop) :
  (forall x files, Good files -> Good (sub x files)) ->
  (forall node files, Inserted node files -> Good files -> P node) ->
  (forall node, children node = [] -> P node) ->
  forall node files, Inserted node files -> Good files -> Every P node.
Proof.
  intros Hsub Hnode Hleaf node.
  induction node as [node IH] using TreeNode_nested_ind.
  intros files HI HG. constructor; [eapply Hnode; eauto|].
  inversion HI as [n F H1 H2 H3 H4 H5 H6 H7 H8]; subst n F.
  rewrite Forall_forall in *. intros c Hc.
  destruct (is_dir c) eqn:E.
  - apply (IH c Hc (sub (name c) files)); auto.
  - constructor; [apply Hleaf; auto|]. rewrite (H5 c Hc E). constructor.
Qed.

Lemma distinct_names_leaf (sel : bool -> bool) (node : TreeNode) :
  children node = [] -> distinct_names sel node.
Proof. unfold distinct_names. intros ->. constructor. Qed.

Lemma filter_perm {A : Type} (g : A -> bool) (l l' : list A) :
  Permutation l l' -> Permutation (filter g l) (filter g l').
Proof.
  intros H. induction H as [|x l l' _ IH|x y l|l l' l'' _ IH1 _ IH2]; simpl.
  - constructor.
  - destruct (g x); [apply perm_skip|]; exact IH.
  - destruct (g x), (g y); try apply Permutation_refl. apply perm_swap.
  - eapply perm_trans; eassumption.
Qed.

(** A node rebuilt with its children rearranged and changed in a way that
    keeps their name and kind has siblings as distinct as before. *)
Lemma distinct_names_rebuild (sel : bool -> bool) (f : TreeNode -> TreeNode)
    (node node' : TreeNode) :
  (forall c, name (f c) = name c /\ is_dir (f c) = is_dir c) ->
  Permutation (children node') (map f (children node)) ->
  distinct_names sel node -> distinct_names sel node'.
Proof.
  unfold distinct_names. intros Hf Hp H.
  eapply Permutation_NoDup.
  - symmetry. apply Permutation_map.
    apply (filter_perm (fun c => sel (is_dir c))). exact Hp.
  - rewrite filter_map_kind by (intros a; destruct (Hf a) as [_ ->]; reflexivity).
    rewrite map_map.
    erewrite map_ext; [exact H|]. intros a. apply Hf.
Qed.

Lemma every_rebuild (P : TreeNode -> Prop) (f : TreeNode -> TreeNode)
    (node node' : TreeNode) :
  P node' ->
  Permutation (children node') (map f (children node)) ->
  Forall (fun c => Every P (f c)) (children node) ->
  Every P node'.
Proof.
  intros HP Hp HF. constructor; [exact HP|].
  eapply Permutation_Forall; [symmetry; exact Hp|].
  rewrite Forall_map. exact HF.
Qed.

Lemma every_children (P : TreeNode -> Prop) (node : TreeNode) :
  Every P node -> P node /\ Forall (Every P) (children node).
Proof. intros H. inversion H; subst. auto. Qed.

Lemma calc_size_distinct (sel : bool -> bool) (node : TreeNode) :
  Every (distinct_names sel) node -> Every (distinct_names sel) (calc_size node).
Proof.
  induction node as [node IH] using TreeNode_nested_ind.
  intros HE. destruct (every_children _ _ HE) as [HP HF].
  rewrite calc_size_eq. destruct (is_dir node); simpl; [|exact HE].
  apply (every_rebuild _ calc_size node); cbn [children].
  - apply (distinct_names_rebuild sel calc_size node); cbn [children]; auto.
    intros c. apply calc_size_keeps.
  - apply Permutation_refl.
  - rewrite Forall_forall in *. intros c Hc. apply (IH c Hc). apply (HF c Hc).
Qed.

Lemma sort_children_distinct (sel : bool -> bool) (sort_by : string) (dirs_first : bool)
    (node : TreeNode) :
  Every (distinct_names sel) node ->
  Every (distinct_names sel) (sort_children sort_by dirs_first node).
Proof.
  induction node as [node IH] using TreeNode_nested_ind.
  intros HE. destruct (every_children _ _ HE) as [HP HF].
  rewrite sort_children_eq.
  set (f := fun child => if is_dir child then sort_children sort_by dirs_first child
                         else child).
  assert (Hf : forall c, name (f c) = name c /\ is_dir (f c) = is_dir c).
  { intros c. unfold f. destruct (is_dir c) eqn:E; [|auto].
    destruct (sort_children_keeps sort_by dirs_first c) as [-> [-> _]]. auto. }
  apply (every_rebuild _ f node); cbn [children set_children].
  - apply (distinct_names_rebuild sel f node); cbn [children set_children]; auto.
    apply order_children_perm.
  - apply order_children_perm.
  - rewrite Forall_forall in *. intros c Hc. unfold f.
    destruct (is_dir c); [apply (IH c Hc)|]; apply (HF c Hc).
Qed.

Lemma trim_depth_distinct (sel : bool -> bool) (max_depth : Z) (node : TreeNode) :
  forall depth,
    Every (distinct_names sel) node ->
    Every (distinct_names sel) (trim_depth max_depth node depth).
Proof.
  induction node as [node IH] using TreeNode_nested_ind.
  intros depth HE. destruct (every_children _ _ HE) as [HP HF].
  rewrite trim_depth_eq. destruct (max_depth <=? depth).
  - constructor; [apply distinct_names_leaf; reflexivity|constructor].
  - set (f := fun child => if is_dir child then trim_depth max_depth child (depth + 1)
                           else child).
    assert (Hf : forall c, name (f c) = name c /\ is_dir (f c) = is_dir c).
    { intros c. unfold f. destruct (is_dir c) eqn:E; [|auto].
      destruct (trim_depth_keeps max_depth c (depth + 1)) as [-> [-> _]]. auto. }
    apply (every_rebuild _ f node); cbn [children set_children].
    + apply (distinct_names_rebuild sel f node); cbn [children set_children]; auto.
    + apply Permutation_refl.
    + rewrite Forall_forall in *. intros c Hc. unfold f.
      destruct (is_dir c); [apply (IH c Hc)|]; apply (HF c Hc).
Qed.

Lemma every_all_nodes (P : TreeNode -> Prop) (node : TreeNode) :
  Every P node -> Forall P (all_nodes node).
Proof.
  induction node as [node IH] using TreeNode_nested_ind.
  intros HE. destruct (every_children _ _ HE) as [HP HF].
  assert (E : all_nodes node = node :: flat_map all_nodes (children node))
    by (destruct node; reflexivity).
  rewrite E. constructor; [exact HP|].
  rewrite Forall_forall in *. intros n Hn. apply in_flat_map in Hn.
  destruct Hn as [c [Hc Hn]]. pose proof (IH c Hc (HF c Hc)) as K.
  rewrite Forall_forall in K. apply (K n Hn).
Qed.

(** With a path given twice, or a file path that is also the directory of
    another file, two children of the root are both named [a]. *)
Lemma siblings_can_share_a_name :
  (exists tree,
     build_tree repeated_files ["repo"] None "name" true = Ok tree /\
     ~ NoDup (map name (children tree))) /\
  (exists tree,
     build_tree shadowed_files ["repo"] None "name" true = Ok tree /\
     ~ NoDup (map name (children tree))).
Proof.
  split; eexists; (split; [reflexivity|]); simpl; intros H;
    inversion H as [|x l Hx _]; subst; apply Hx; left; reflexivity.
Qed.

(** C5, as the code has it. In every tree [build_tree] returns, sibling
    directories have distinct names, whatever the file list; all siblings
    have distinct names when no path of the list is equal to, or a proper
    prefix of, the path of another entry. *)
Theorem sibling_names (files : list FileInfo) (root : PyPath.Path) (max_depth : option Z)
    (sort_by : string) (dirs_first : bool) (tree : TreeNode) :
  build_tree files root max_depth sort_by dirs_first = Ok tree ->
  Forall (fun n => NoDup (map name (filter is_dir (children n)))) (all_nodes tree) /\
  (paths_independent files = true ->
   Forall (fun n => NoDup (map name (children n))) (all_nodes tree)).
Proof.
  unfold build_tree.
  destruct (add_all _ files) as [t|] eqn:Ea; cbn [bind]; [|discriminate].
  intros Htree.
  destruct (add_all_inserted files _ [] t (inserted_fresh _ _) eq_refl Ea) as [HI _].
  simpl in HI.
  assert (Hstages : forall sel,
             Every (distinct_names sel) t -> Forall (distinct_names sel) (all_nodes tree)).
  { intros sel HE. apply every_all_nodes.
    pose proof (sort_children_distinct sel sort_by dirs_first _
                  (calc_size_distinct sel _ HE)) as HS.
    destruct max_depth as [d|]; injection Htree as <-; [|exact HS].
    apply trim_depth_distinct. exact HS. }
  split.
  - apply (Hstages (fun d => d)).
    apply (inserted_every (fun _ => True) _) with (files := files); auto.
    + intros n F HF _. exact (inserted_distinct_dirs n F HF).
    + apply distinct_names_leaf.
  - intros Hind.
    eapply Forall_impl; [|apply (Hstages (fun _ => true))].
    + intros n Hn. unfold distinct_names in Hn. rewrite filter_all in Hn. exact Hn.
    + apply (inserted_every Independent _) with (files := files).
      * intros x F. apply sub_independent.
      * apply inserted_distinct_all.
      * apply distinct_names_leaf.
      * exact HI.
      * apply paths_independent_sound. exact Hind.
Qed.

Lemma sibling_names_witness :
  build_tree sample_files ["repo"] None "size" true = Ok sample_tree /\
  paths_independent sample_files = true /\
  Forall (fun n => NoDup (map name (filter is_dir (children n)))) (all_nodes sample_tree) /\
  Forall (fun n => NoDup (map name (children n))) (all_nodes sample_tree).
Proof.
  destruct (sibling_names sample_files ["repo"] None "size" true sample_tree eq_refl)
    as [H1 H2].
  repeat split; [exact H1|apply H2; reflexivity].
Defined.

(** * tree.py: failure, the empty list and the counts of the summary *)

Lemma add_all_result (files : list FileInfo) :
  forall node,
    (Forall (fun f => Walker.path f <> []) files /\ exists t, add_all node files = Ok t) \/
    (Exists (fun f => Walker.path f = []) files /\ add_all node files = Raise IndexError).
Proof.
  induction files as [|f files IH]; intros node.
  - left. split; [constructor|simpl; eauto].
  - simpl. destruct (Walker.path f) as [|p rest] eqn:E.
    + right. split; [left; exact E|reflexivity].
    + destruct (add_to_tree_total (p :: rest) node (Some f)) as [n1 ->]; [discriminate|].
      cbn [bind]. destruct (IH n1) as [[HF Hok]|[HE Hr]].
      * left. split; [|exact Hok]. constructor; [rewrite E; discriminate|exact HF].
      * right. split; [right; exact HE|exact Hr].
Qed.

(** X1. When [build_tree] returns a tree, no file of the list has the empty
    path: a file with the empty path makes [build_tree] fail. *)
Theorem build_tree_fails_on_empty_path (files : list FileInfo) (root : PyPath.Path)
    (max_depth : option Z) (sort_by : string) (dirs_first : bool) (tree : TreeNode) :
  build_tree files root max_depth sort_by dirs_first = Ok tree ->
  Forall (fun f => Walker.path f <> []) files.
Proof.
  unfold build_tree.
  match goal with
  | |- context [add_all ?n files] => destruct (add_all_result files n) as [[HF [t Ht]]|[HE Hr]]
  end.
  - intros _. exact HF.
  - rewrite Hr. cbn [bind]. discriminate.
Qed.

Lemma build_tree_fails_on_empty_path_witness :
  build_tree sample_files ["repo"%string] None "size" true = Ok sample_tree /\
  Forall (fun f => Walker.path f <> []) sample_files.
Proof.
  split; [reflexivity|].
  apply (build_tree_fails_on_empty_path sample_files ["repo"%string] None "size" true
           sample_tree).
  reflexivity.
Defined.

(** X2. For the empty file list the view is the line of the root, whose size
    annotation is 0 when sizes are shown, and the summary
    [0 directories, 0 files], whatever the root and the options. *)
Theorem empty_view (root : PyPath.Path) (max_depth : option Z)
    (show_tokens show_size : bool) (sort_by : string) (dirs_first : bool) :
  let root_name :=
    if String.eqb (PyPath.name root) EmptyString then PyPath.str root
    else PyPath.name root in
  let annotation := if show_size then "[         0] "%string else EmptyString in
  generate_tree_view [] root max_depth show_tokens show_size sort_by dirs_first
  = Ok (PyStr.join (String PyStr.newline EmptyString)
          [ ("└── " ++ annotation ++ root_name)%string;
            EmptyString;
            "0 directories, 0 files"%string ]).
Proof.
  intros root_name annotation.
  assert (Hb : build_tree [] root max_depth sort_by dirs_first
               = Ok (mkTreeNode root_name root true 0 0 [])).
  { unfold build_tree. cbn [add_all bind].
    destruct max_depth as [d|]; [|destruct dirs_first; reflexivity].
    rewrite trim_depth_eq. destruct (d <=? 0); destruct dirs_first; reflexivity. }
  unfold generate_tree_view. rewrite Hb. cbn [bind].
  destruct show_tokens, show_size;
    cbv -[PyPath.name PyPath.str String.eqb String.append root_name];
    rewrite append_empty_r; reflexivity.
Qed.

Lemma count_nodes_eq (node : TreeNode) :
  count_nodes node =
  if negb (is_dir node) then (0, 1)
  else
    fold_left (fun acc child =>
                 let (d, f) := count_nodes child in (fst acc + d, snd acc + f))
              (children node) (1, 0).
Proof. destruct node; reflexivity. Qed.

Lemma count_fold (cs : list TreeNode) (acc : Z * Z) :
  fold_left (fun acc child =>
               let (d, f) := count_nodes child in (fst acc + d, snd acc + f))
            cs acc
  = (fst acc + Tree.sum (map (fun c => fst (count_nodes c)) cs),
     snd acc + Tree.sum (map (fun c => snd (count_nodes c)) cs)).
Proof.
  revert acc. induction cs as [|c cs IH]; intros [d f]; simpl.
  - rewrite sum_nil. f_equal; lia.
  - rewrite IH, !sum_cons. destruct (count_nodes c) as [d' f']. simpl. f_equal; lia.
Qed.

(** The file count of the summary is the number of file nodes below the
    root. *)
Lemma count_nodes_files (node : TreeNode) :
  snd (count_nodes node) = leaf_sum (fun _ => 1) node.
Proof.
  induction node as [node IH] using TreeNode_nested_ind.
  rewrite count_nodes_eq, leaf_sum_eq. destruct (is_dir node); simpl; [|reflexivity].
  rewrite count_fold. simpl. f_equal.
  rewrite Forall_forall in IH. apply map_ext_in. exact IH.
Qed.

Lemma dir_nodes_eq (node : TreeNode) :
  dir_nodes node =
  if is_dir node then
    ([], node)
    :: flat_map (fun c => map (fun pn => (name c :: fst pn, snd pn)) (dir_nodes c))
                (children node)
  else [].
Proof. destruct node; reflexivity. Qed.

(** The directory count is the number of directory nodes, the root among
    them. *)
Lemma count_nodes_dirs (node : TreeNode) :
  fst (count_nodes node) = Z.of_nat (List.length (dir_nodes node)).
Proof.
  induction node as [node IH] using TreeNode_nested_ind.
  rewrite count_nodes_eq, dir_nodes_eq. destruct (is_dir node); [|reflexivity].
  cbn [negb]. rewrite count_fold. cbn [fst List.length]. rewrite Nat2Z.inj_succ.
  rewrite Forall_forall in IH.
  assert (H : forall cs, (forall c, In c cs -> In c (children node)) ->
                Tree.sum (map (fun c => fst (count_nodes c)) cs)
                = Z.of_nat (List.length
                    (flat_map (fun c => map (fun pn => (name c :: fst pn, snd pn))
                                            (dir_nodes c)) cs))).
  { induction cs as [|c cs IHcs]; intros Hin; [reflexivity|].
    simpl. rewrite sum_cons, length_app, length_map, Nat2Z.inj_add.
    rewrite IHcs by (intros x Hx; apply Hin; right; exact Hx).
    rewrite (IH c (Hin c (or_introl eq_refl))). reflexivity. }
  rewrite H by auto. lia.
Qed.

Lemma add_to_tree_file_count (parts : list string) :
  forall (node : TreeNode) (info : FileInfo) (node' : TreeNode),
    is_dir node = true ->
    add_to_tree node parts (Some info) = Ok node' ->
    leaf_sum (fun _ => 1) node' = leaf_sum (fun _ => 1) node + 1.
Proof.
  induction parts as [|p rest IH]; intros node info node' Hd Hadd; [discriminate|].
  rewrite (leaf_sum_eq _ node), Hd.
  destruct rest as [|r rest].
  - simpl in Hadd. injection Hadd as <-.
    rewrite leaf_sum_dir by exact Hd. rewrite map_app, sum_app. reflexivity.
  - rewrite add_to_tree_deep in Hadd.
    destruct (find (is_named_dir p) (children node)) as [child|] eqn:Ef.
    + destruct (add_to_tree child (r :: rest) (Some info)) as [child'|] eqn:Ea;
        cbn [bind] in Hadd; [|discriminate].
      injection Hadd as <-.
      destruct (find_replace_split _ child' _ _ Ef) as [l1 [l2 [Hcs [_ [Hpc Hrep]]]]].
      apply is_named_dir_true in Hpc. destruct Hpc as [_ Hcd].
      rewrite leaf_sum_dir by exact Hd. rewrite Hrep, Hcs, !map_app, !sum_app.
      cbn [map]. rewrite !sum_cons, (IH child info child' Hcd Ea). lia.
    + destruct (add_to_tree (mkTreeNode p [p] true 0 0 []) (r :: rest) (Some info))
        as [child'|] eqn:Ea; cbn [bind] in Hadd; [|discriminate].
      injection Hadd as <-.
      rewrite leaf_sum_dir by exact Hd. rewrite map_app, sum_app.
      cbn [map].
      rewrite sum_cons, sum_nil, (IH (mkTreeNode p [p] true 0 0 []) info child' eq_refl Ea).
      change (leaf_sum (fun _ => 1) (mkTreeNode p [p] true 0 0 [])) with 0. lia.
Qed.

Lemma add_all_file_count (files : list FileInfo) :
  forall node node',
    is_dir node = true -> add_all node files = Ok node' ->
    leaf_sum (fun _ => 1) node'
    = leaf_sum (fun _ => 1) node + Z.of_nat (List.length files).
Proof.
  induction files as [|f files IH]; intros node node' Hd Hadd.
  - simpl in Hadd. injection Hadd as <-. simpl. lia.
  - simpl in Hadd.
    destruct (add_to_tree node (Walker.path f) (Some f)) as [n1|] eqn:Ea;
      cbn [bind] in Hadd; [|discriminate].
    destruct (add_to_tree_keeps _ _ _ _ Ea) as [_ Hd1].
    rewrite (IH n1 node' ltac:(rewrite Hd1; exact Hd) Hadd).
    rewrite (add_to_tree_file_count _ _ _ _ Hd Ea).
    cbn [List.length]. lia.
Qed.

Lemma file_count_sort_children (sort_by : string) (dirs_first : bool) (node : TreeNode) :
  leaf_sum (fun _ => 1) (sort_children sort_by dirs_first node)
  = leaf_sum (fun _ => 1) node.
Proof.
  induction node as [node IH] using TreeNode_nested_ind.
  rewrite sort_children_eq, !leaf_sum_eq. cbn [is_dir children set_children].
  destruct (is_dir node); [|reflexivity].
  rewrite Forall_forall in IH.
  rewrite (sum_perm _ _ (Permutation_map _ (order_children_perm sort_by dirs_first _))).
  rewrite map_map. f_equal. apply map_ext_in. intros c Hc.
  destruct (is_dir c); [apply (IH c Hc)|reflexivity].
Qed.

Lemma sum_le (f g : TreeNode -> Z) (l : list TreeNode) :
  (forall c, In c l -> f c <= g c) -> Tree.sum (map f l) <= Tree.sum (map g l).
Proof.
  induction l as [|c l IH]; intros H; simpl; [rewrite sum_nil; lia|].
  rewrite !sum_cons. specialize (H c (or_introl eq_refl)) as Hc.
  assert (Tree.sum (map f l) <= Tree.sum (map g l))
    by (apply IH; intros x Hx; apply H; right; exact Hx).
  lia.
Qed.

Lemma file_count_nonneg (node : TreeNode) : 0 <= leaf_sum (fun _ => 1) node.
Proof.
  induction node as [node IH] using TreeNode_nested_ind.
  rewrite leaf_sum_eq. destruct (is_dir node); [|lia].
  rewrite Forall_forall in IH.
  pose proof (sum_le (fun _ => 0) (leaf_sum (fun _ => 1)) (children node) IH) as H.
  assert (Z0 : forall l : list TreeNode, Tree.sum (map (fun _ => 0) l) = 0).
  { induction l as [|x l IHl]; [reflexivity|]. simpl. rewrite sum_cons, IHl. reflexivity. }
  rewrite Z0 in H. exact H.
Qed.

Lemma file_count_trim_depth (max_depth : Z) (node : TreeNode) :
  forall depth,
    leaf_sum (fun _ => 1) (trim_depth max_depth node depth) <= leaf_sum (fun _ => 1) node.
Proof.
  induction node as [node IH] using TreeNode_nested_ind.
  intros depth. rewrite trim_depth_eq.
  destruct (max_depth <=? depth).
  - rewrite !leaf_sum_eq. cbn [is_dir children set_children map].
    destruct (is_dir node) eqn:E; [|lia].
    rewrite sum_nil. pose proof (file_count_nonneg node) as H.
    rewrite leaf_sum_eq, E in H. exact H.
  - rewrite !leaf_sum_eq. cbn [is_dir children set_children].
    destruct (is_dir node); [|lia].
    rewrite map_map. apply sum_le. rewrite Forall_forall in IH. intros c Hc.
    destruct (is_dir c); [apply (IH c Hc)|lia].
Qed.

(** X3. The file count of the summary never exceeds the number of input files,
    and equals it when there is no depth limit: every entry of the list,
    repeated or not, is one file node. The directory count of the summary is
    the number of directory nodes without the root. *)
Theorem summary_counts (files : list FileInfo) (root : PyPath.Path)
    (max_depth : option Z) (sort_by : string) (dirs_first : bool) (tree : TreeNode) :
  build_tree files root max_depth sort_by dirs_first = Ok tree ->
  0 <= snd (count_nodes tree) <= Z.of_nat (List.length files) /\
  (max_depth = None -> snd (count_nodes tree) = Z.of_nat (List.length files)) /\
  Z.max 0 (fst (count_nodes tree) - 1) = Z.of_nat (List.length (dir_nodes tree)) - 1.
Proof.
  unfold build_tree.
  destruct (add_all _ files) as [t|] eqn:Ea; cbn [bind]; [|discriminate].
  intros Htree.
  match type of Ea with
  | add_all ?n _ = _ => pose proof (add_all_file_count files n t eq_refl Ea) as Hc
  end.
  change (leaf_sum (fun _ => 1) (mkTreeNode _ root true 0 0 [])) with 0 in Hc.
  assert (Hs : leaf_sum (fun _ => 1) (sort_children sort_by dirs_first (calc_size t))
               = Z.of_nat (List.length files)).
  { rewrite file_count_sort_children, leaf_sum_calc_size, Hc. lia. }
  assert (Hdir : is_dir tree = true).
  { destruct (add_all_inserted files _ [] t (inserted_fresh _ _) eq_refl Ea) as [_ [Hd _]].
    destruct (calc_size_keeps t) as [_ Hk].
    destruct (sort_children_keeps sort_by dirs_first (calc_size t)) as [_ [Hk' _]].
    destruct max_depth as [d|]; injection Htree as <-.
    - destruct (trim_depth_keeps d (sort_children sort_by dirs_first (calc_size t)) 0)
        as [_ [-> _]]. congruence.
    - congruence. }
  rewrite count_nodes_dirs, count_nodes_files.
  assert (Hlen : (1 <= List.length (dir_nodes tree))%nat).
  { rewrite dir_nodes_eq, Hdir. simpl. lia. }
  split; [|split; [|lia]].
  - pose proof (file_count_nonneg tree).
    destruct max_depth as [d|]; injection Htree as <-; [|lia].
    pose proof (file_count_trim_depth d
                  (sort_children sort_by dirs_first (calc_size t)) 0). lia.
  - intros ->. injection Htree as <-. exact Hs.
Qed.

Lemma summary_counts_witness :
  build_tree sample_files ["repo"%string] None "size" true = Ok sample_tree /\
  0 <= snd (count_nodes sample_tree) <= Z.of_nat (List.length sample_files) /\
  (@None Z = None ->
   snd (count_nodes sample_tree) = Z.of_nat (List.length sample_files)) /\
  Z.max 0 (fst (count_nodes sample_tree) - 1)
  = Z.of_nat (List.length (dir_nodes sample_tree)) - 1.
Proof.
  split; [reflexivity|].
  apply (summary_counts sample_files ["repo"%string] None "size" true sample_tree).
  reflexivity.
Defined.

(** * tree.py: the order of siblings *)

Lemma ascii_compare_trans (a b c : ascii) :
  Ascii.compare a b <> Gt -> Ascii.compare b c <> Gt -> Ascii.compare a c <> Gt.
Proof.
  unfold Ascii.compare. rewrite !N.compare_le_iff. lia.
Qed.

Lemma ascii_compare_lt_le (a b c : ascii) :
  Ascii.compare a b = Lt -> Ascii.compare b c <> Gt -> Ascii.compare a c = Lt.
Proof.
  unfold Ascii.compare. rewrite !N.compare_lt_iff, N.compare_le_iff. lia.
Qed.

Lemma ascii_compare_le_lt (a b c : ascii) :
  Ascii.compare a b <> Gt -> Ascii.compare b c = Lt -> Ascii.compare a c = Lt.
Proof.
  unfold Ascii.compare. rewrite !N.compare_lt_iff, N.compare_le_iff. lia.
Qed.

Lemma string_compare_trans (a : string) :
  forall b c, String.compare a b <> Gt -> String.compare b c <> Gt ->
              String.compare a c <> Gt.
Proof.
  induction a as [|x a IH]; intros [|y b] [|z c]; simpl; try congruence.
  destruct (Ascii.compare x y) eqn:Exy; try congruence.
  - apply Ascii.compare_eq_iff in Exy. subst y.
    destruct (Ascii.compare x z) eqn:Exz; try congruence. apply IH.
  - destruct (Ascii.compare y z) eqn:Eyz; try congruence.
    + apply Ascii.compare_eq_iff in Eyz. subst z. rewrite Exy. congruence.
    + assert (H : Ascii.compare x z = Lt)
        by (apply (ascii_compare_lt_le x y z); congruence).
      rewrite H. congruence.
Qed.

Lemma string_ltb_asym (a b : string) : String.ltb a b = true -> String.ltb b a = false.
Proof.
  unfold String.ltb. rewrite (String.compare_antisym a b).
  destruct (String.compare b a); simpl; congruence.
Qed.

Lemma string_ltb_trans (a b c : string) :
  String.ltb b a = false -> String.ltb c b = false -> String.ltb c a = false.
Proof.
  unfold String.ltb. intros H1 H2.
  assert (K1 : String.compare a b <> Gt).
  { rewrite (String.compare_antisym a b). destruct (String.compare b a); simpl in *; congruence. }
  assert (K2 : String.compare b c <> Gt).
  { rewrite (String.compare_antisym b c). destruct (String.compare c b); simpl in *; congruence. }
  pose proof (string_compare_trans a b c K1 K2) as K.
  rewrite (String.compare_antisym a c) in K.
  destruct (String.compare c a); simpl in *; congruence.
Qed.

Lemma key_lt_asym (sort_by : string) (a b : TreeNode) :
  key_lt sort_by a b = true -> key_lt sort_by b a = false.
Proof.
  unfold key_lt. destruct (String.eqb sort_by "size"); [lia|].
  destruct (String.eqb sort_by "tokens"); [lia|]. apply string_ltb_asym.
Qed.

Lemma key_lt_trans (sort_by : string) (a b c : TreeNode) :
  key_lt sort_by b a = false -> key_lt sort_by c b = false -> key_lt sort_by c a = false.
Proof.
  unfold key_lt. destruct (String.eqb sort_by "size"); [lia|].
  destruct (String.eqb sort_by "tokens"); [lia|]. apply string_ltb_trans.
Qed.

Lemma insert_by_sorted (sort_by : string) (x : TreeNode) (l : list TreeNode) :
  key_sorted sort_by l -> key_sorted sort_by (insert_by (key_lt sort_by) x l).
Proof.
  unfold key_sorted. intros H. induction H as [|y l Hl IH Hy]; simpl.
  - constructor; constructor.
  - destruct (key_lt sort_by y x) eqn:E.
    + constructor; [exact IH|].
      eapply Permutation_Forall; [symmetry; apply insert_by_perm|].
      constructor; [apply key_lt_asym; exact E|exact Hy].
    + constructor; [constructor; assumption|].
      constructor; [exact E|].
      eapply Forall_impl; [|exact Hy]. intros z Hz.
      apply (key_lt_trans sort_by x y z); assumption.
Qed.

Lemma sort_by_key_sorted (sort_by : string) (l : list TreeNode) :
  key_sorted sort_by (sort_by_key (key_lt sort_by) l).
Proof.
  induction l as [|x l IH]; simpl; [constructor|].
  apply insert_by_sorted. exact IH.
Qed.

Lemma order_children_ordered (sort_by : string) (dirs_first : bool) (cs : list TreeNode) :
  ordered sort_by dirs_first (order_children sort_by dirs_first cs).
Proof.
  unfold ordered, order_children. destruct dirs_first; [|apply sort_by_key_sorted].
  eexists. eexists. split; [reflexivity|].
  repeat split; try apply sort_by_key_sorted.
  - eapply Permutation_Forall; [symmetry; apply sort_by_key_perm|].
    apply Forall_forall. intros c Hc. apply filter_In in Hc. tauto.
  - eapply Permutation_Forall; [symmetry; apply sort_by_key_perm|].
    apply Forall_forall. intros c Hc. apply filter_In in Hc.
    destruct Hc as [_ Hc]. apply negb_true_iff in Hc. exact Hc.
Qed.

Lemma key_sorted_map (sort_by : string) (g : TreeNode -> TreeNode) (l : list TreeNode) :
  (forall a b, key_lt sort_by (g a) (g b) = key_lt sort_by a b) ->
  key_sorted sort_by l -> key_sorted sort_by (map g l).
Proof.
  unfold key_sorted. intros Hg H. induction H as [|y l Hl IH Hy]; simpl; constructor.
  - exact IH.
  - rewrite Forall_map. eapply Forall_impl; [|exact Hy]. intros z Hz.
    rewrite Hg. exact Hz.
Qed.

Lemma ordered_map (sort_by : string) (dirs_first : bool) (g : TreeNode -> TreeNode)
    (l : list TreeNode) :
  (forall c, name (g c) = name c /\ is_dir (g c) = is_dir c /\
             size (g c) = size c /\ tokens (g c) = tokens c) ->
  ordered sort_by dirs_first l -> ordered sort_by dirs_first (map g l).
Proof.
  intros Hg.
  assert (Hlt : forall a b, key_lt sort_by (g a) (g b) = key_lt sort_by a b).
  { intros a b. unfold key_lt.
    destruct (Hg a) as [-> [_ [-> ->]]]. destruct (Hg b) as [-> [_ [-> ->]]]. reflexivity. }
  unfold ordered. destruct dirs_first; [|apply key_sorted_map; exact Hlt].
  intros [ds [fs [-> [Hd [Hf [Sd Sf]]]]]].
  exists (map g ds), (map g fs). rewrite map_app. split; [reflexivity|].
  repeat split; try (apply key_sorted_map; assumption).
  - rewrite Forall_map. eapply Forall_impl; [|exact Hd].
    intros c Hc. destruct (Hg c) as [_ [-> _]]. exact Hc.
  - rewrite Forall_map. eapply Forall_impl; [|exact Hf].
    intros c Hc. destruct (Hg c) as [_ [-> _]]. exact Hc.
Qed.

Lemma ordered_nil (sort_by : string) (dirs_first : bool) : ordered sort_by dirs_first [].
Proof.
  unfold ordered. destruct dirs_first; [|constructor].
  exists [], []. repeat split; constructor.
Qed.

Lemma sort_children_ordered (sort_by : string) (dirs_first : bool) (node : TreeNode) :
  EveryDir (fun n => ordered sort_by dirs_first (children n))
           (sort_children sort_by dirs_first node).
Proof.
  induction node as [node IH] using TreeNode_nested_ind.
  rewrite sort_children_eq. constructor; cbn [children set_children].
  - apply order_children_ordered.
  - eapply Permutation_Forall; [symmetry; apply order_children_perm|].
    rewrite Forall_map. rewrite Forall_forall in *. intros c Hc.
    destruct (is_dir c) eqn:E; [|rewrite E; discriminate].
    intros _. apply (IH c Hc).
Qed.

Lemma trim_depth_ordered (sort_by : string) (dirs_first : bool) (max_depth : Z)
    (node : TreeNode) :
  forall depth,
    EveryDir (fun n => ordered sort_by dirs_first (children n)) node ->
    EveryDir (fun n => ordered sort_by dirs_first (children n))
             (trim_depth max_depth node depth).
Proof.
  induction node as [node IH] using TreeNode_nested_ind.
  intros depth HE. inversion HE as [n HP HF]; subst n.
  rewrite trim_depth_eq. destruct (max_depth <=? depth).
  - constructor; cbn [children set_children]; [apply ordered_nil|constructor].
  - constructor; cbn [children set_children].
    + apply ordered_map; [|exact HP]. intros c.
      destruct (is_dir c) eqn:E; [|auto].
      destruct (trim_depth_keeps max_depth c (depth + 1)) as [-> [-> [-> ->]]]. auto.
    + rewrite Forall_map. rewrite Forall_forall in *. intros c Hc.
      destruct (is_dir c) eqn:E; [|rewrite E; discriminate].
      intros _. apply (IH c Hc). apply (HF c Hc E).
Qed.

Lemma every_dir_nodes (P : TreeNode -> Prop) (node : TreeNode) :
  forall p n, EveryDir P node -> In (p, n) (dir_nodes node) -> P n.
Proof.
  induction node as [node IH] using TreeNode_nested_ind.
  intros p n HE Hin. inversion HE as [n0 HP HF]; subst n0.
  rewrite dir_nodes_eq in Hin. destruct (is_dir node); [|contradiction].
  destruct Hin as [[= <- <-]|Hin]; [exact HP|].
  apply in_flat_map in Hin. destruct Hin as [c [Hc Hin]].
  apply in_map_iff in Hin. destruct Hin as [[q n'] [[= <- <-] Hq]].
  rewrite Forall_forall in *.
  assert (Hcd : is_dir c = true).
  { rewrite dir_nodes_eq in Hq. destruct (is_dir c); [reflexivity|contradiction]. }
  apply (IH c Hc q n' (HF c Hc Hcd) Hq).
Qed.

(** X4. In the tree [build_tree] returns, with or without a depth limit, the
    children of every directory are in the order of the sort key: no child
    comes before one with a smaller key (for [size] and [tokens] the larger
    value first, for any other [sort_by] the name in lower case), and with
    [dirs_first] the directories come first, each group in that order. *)
Theorem children_ordered (files : list FileInfo) (root : PyPath.Path)
    (max_depth : option Z) (sort_by : string) (dirs_first : bool) (tree : TreeNode) :
  build_tree files root max_depth sort_by dirs_first = Ok tree ->
  forall p node, In (p, node) (dir_nodes tree) ->
                 ordered sort_by dirs_first (children node).
Proof.
  unfold build_tree.
  destruct (add_all _ files) as [t|] eqn:Ea; cbn [bind]; [|discriminate].
  intros Htree p node Hin.
  pose proof (sort_children_ordered sort_by dirs_first (calc_size t)) as HS.
  apply (every_dir_nodes (fun n => ordered sort_by dirs_first (children n)) tree p node);
    [|exact Hin].
  destruct max_depth as [d|]; injection Htree as <-; [|exact HS].
  apply trim_depth_ordered. exact HS.
Qed.

Lemma children_ordered_witness :
  build_tree sample_files ["repo"%string] None "size" true = Ok sample_tree /\
  forall p node, In (p, node) (dir_nodes sample_tree) ->
                 ordered "size" true (children node).
Proof.
  split; [reflexivity|].
  apply (children_ordered sample_files ["repo"%string] None "size" true sample_tree).
  reflexivity.
Defined.

(** * tree.py: the depth limit *)

Lemma height_eq (node : TreeNode) :
  height node = fold_right (fun c h => Nat.max (S (height c)) h) O (children node).
Proof. destruct node; reflexivity. Qed.

Lemma height_le (node : TreeNode) (k : nat) :
  (height node <= k)%nat <-> Forall (fun c => (height c < k)%nat) (children node).
Proof.
  rewrite height_eq. induction (children node) as [|c cs IH]; cbn [fold_right].
  - split; [constructor|lia].
  - split.
    + intros H. constructor; [lia|]. apply (proj1 IH). lia.
    + intros H. pose proof (Forall_inv H) as Hc. pose proof (Forall_inv_tail H) as Ht.
      apply (proj2 IH) in Ht. cbv beta in Hc. lia.
Qed.

(** A node rebuilt from its children, rearranged and none made higher, is
    no higher. *)
Lemma height_rebuild (f : TreeNode -> TreeNode) (node node' : TreeNode) :
  Permutation (children node') (map f (children node)) ->
  (forall c, In c (children node) -> (height (f c) <= height c)%nat) ->
  (height node' <= height node)%nat.
Proof.
  intros Hp Hf. apply height_le.
  eapply Permutation_Forall; [symmetry; exact Hp|].
  rewrite Forall_map. apply Forall_forall. intros c Hc.
  pose proof (proj1 (height_le node (height node)) (le_n _)) as H.
  rewrite Forall_forall in H. specialize (H c Hc). specialize (Hf c Hc). lia.
Qed.

Lemma height_calc_size (node : TreeNode) : (height (calc_size node) <= height node)%nat.
Proof.
  induction node as [node IH] using TreeNode_nested_ind.
  rewrite calc_size_eq. destruct (is_dir node); simpl negb; cbv iota; [|lia].
  apply (height_rebuild calc_size); cbn [children]; [apply Permutation_refl|].
  rewrite Forall_forall in IH. exact IH.
Qed.

Lemma height_sort_children (sort_by : string) (dirs_first : bool) (node : TreeNode) :
  (height (sort_children sort_by dirs_first node) <= height node)%nat.
Proof.
  induction node as [node IH] using TreeNode_nested_ind.
  rewrite sort_children_eq.
  apply (height_rebuild
           (fun child => if is_dir child then sort_children sort_by dirs_first child
                         else child));
    cbn [children set_children]; [apply order_children_perm|].
  rewrite Forall_forall in IH. intros c Hc.
  destruct (is_dir c); [apply (IH c Hc)|lia].
Qed.

Lemma height_add_to_tree (parts : list string) :
  forall node file_info node',
    add_to_tree node parts file_info = Ok node' ->
    (height node' <= Nat.max (height node) (List.length parts))%nat.
Proof.
  induction parts as [|p rest IH]; intros node fi node' Hadd; [discriminate|].
  pose proof (proj1 (height_le node (height node)) (le_n _)) as Hn.
  destruct rest as [|r rest].
  - simpl in Hadd. injection Hadd as <-. apply height_le. cbn [children set_children].
    apply Forall_app. split.
    + eapply Forall_impl; [|exact Hn]. simpl. intros c Hc. lia.
    + constructor; [|constructor]. destruct fi; simpl; lia.
  - rewrite add_to_tree_deep in Hadd.
    destruct (find (is_named_dir p) (children node)) as [child|] eqn:Ef.
    + destruct (add_to_tree child (r :: rest) fi) as [child'|] eqn:Ea;
        cbn [bind] in Hadd; [|discriminate].
      injection Hadd as <-.
      destruct (find_replace_split _ child' _ _ Ef) as [l1 [l2 [Hcs [_ [_ Hrep]]]]].
      apply height_le. cbn [children set_children]. rewrite Hrep. rewrite Hcs in Hn.
      apply Forall_app in Hn. destruct Hn as [H1 H2].
      pose proof (Forall_inv H2) as Hc. pose proof (Forall_inv_tail H2) as H3.
      pose proof (IH child fi child' Ea) as Hh. cbn [List.length] in *.
      apply Forall_app. split; [|constructor].
      * eapply Forall_impl; [|exact H1]. simpl. intros c Hc'. lia.
      * lia.
      * eapply Forall_impl; [|exact H3]. simpl. intros c Hc'. lia.
    + destruct (add_to_tree (mkTreeNode p [p] true 0 0 []) (r :: rest) fi)
        as [child'|] eqn:Ea; cbn [bind] in Hadd; [|discriminate].
      injection Hadd as <-.
      pose proof (IH _ fi child' Ea) as Hh. simpl in Hh.
      apply height_le. cbn [children set_children List.length].
      apply Forall_app. split.
      * eapply Forall_impl; [|exact Hn]. simpl. intros c Hc'. lia.
      * constructor; [|constructor]. cbn [List.length] in Hh. lia.
Qed.

Lemma height_add_all (files : list FileInfo) (bound : nat) :
  forall node node',
    Forall (fun f => (List.length (Walker.path f) <= bound)%nat) files ->
    (height node <= bound)%nat ->
    add_all node files = Ok node' -> (height node' <= bound)%nat.
Proof.
  induction files as [|f files IH]; intros node node' HF Hn Hadd.
  - simpl in Hadd. injection Hadd as <-. exact Hn.
  - simpl in Hadd.
    destruct (add_to_tree node (Walker.path f) (Some f)) as [n1|] eqn:Ea;
      cbn [bind] in Hadd; [|discriminate].
    pose proof (height_add_to_tree _ _ _ _ Ea).
    pose proof (Forall_inv HF) as Hf. cbv beta in Hf.
    apply (IH n1 node' (Forall_inv_tail HF)); [lia|exact Hadd].
Qed.

(** A depth limit no smaller than the height leaves a tree as it is. *)
Lemma trim_depth_high (max_depth : Z) (node : TreeNode) :
  forall depth,
    Z.of_nat (height node) <= Z.max 0 (max_depth - depth) ->
    trim_depth max_depth node depth = node.
Proof.
  induction node as [node IH] using TreeNode_nested_ind.
  intros depth Hh. rewrite trim_depth_eq.
  assert (Hset : forall cs, cs = children node -> set_children node cs = node)
    by (intros cs ->; destruct node; reflexivity).
  destruct (max_depth <=? depth) eqn:E.
  - apply Z.leb_le in E. apply Hset.
    assert (H0 : (height node <= 0)%nat) by lia.
    apply height_le in H0. destruct (children node) as [|c cs]; [reflexivity|].
    pose proof (Forall_inv H0) as Hc. cbv beta in Hc. lia.
  - apply Z.leb_gt in E. apply Hset.
    assert (Hk : (height node <= Z.to_nat (max_depth - depth))%nat) by lia.
    apply height_le in Hk. rewrite Forall_forall in IH, Hk.
    rewrite <- (map_id (children node)) at 2. apply map_ext_in. intros c Hc.
    destruct (is_dir c); [|reflexivity].
    apply (IH c Hc). specialize (Hk c Hc). lia.
Qed.

Lemma inserted_files_are_leaves (node : TreeNode) (files : list FileInfo) :
  Inserted node files -> Every files_are_leaves node.
Proof.
  intros HI0. apply (inserted_every (fun _ => True) files_are_leaves) with (files := files);
    auto.
  - intros n F HI _. inversion HI as [n0 F0 H1 H2 H3 H4 H5 H6 H7 H8]; subst n0 F0.
    apply Forall_forall. exact H5.
  - intros n Hn. unfold files_are_leaves. rewrite Hn. constructor.
Qed.

Lemma files_are_leaves_rebuild (f : TreeNode -> TreeNode) (node node' : TreeNode) :
  (forall c, is_dir (f c) = is_dir c) ->
  (forall c, is_dir c = false -> f c = c) ->
  Permutation (children node') (map f (children node)) ->
  files_are_leaves node -> files_are_leaves node'.
Proof.
  unfold files_are_leaves. intros Hd Hf Hp H.
  eapply Permutation_Forall; [symmetry; exact Hp|].
  rewrite Forall_map. eapply Forall_impl; [|exact H].
  intros c Hc Hcd. rewrite Hd in Hcd. rewrite (Hf c Hcd). auto.
Qed.

Lemma calc_size_files_are_leaves (node : TreeNode) :
  Every files_are_leaves node -> Every files_are_leaves (calc_size node).
Proof.
  induction node as [node IH] using TreeNode_nested_ind.
  intros HE. destruct (every_children _ _ HE) as [HP HF].
  rewrite calc_size_eq. destruct (is_dir node); simpl negb; cbv iota; [|exact HE].
  apply (every_rebuild _ calc_size node); cbn [children].
  - apply (files_are_leaves_rebuild calc_size node); cbn [children]; auto.
    + intros c. apply calc_size_keeps.
    + intros c Hc. rewrite calc_size_eq, Hc. reflexivity.
  - apply Permutation_refl.
  - rewrite Forall_forall in *. intros c Hc. apply (IH c Hc). apply (HF c Hc).
Qed.

Lemma sort_children_files_are_leaves (sort_by : string) (dirs_first : bool)
    (node : TreeNode) :
  Every files_are_leaves node ->
  Every files_are_leaves (sort_children sort_by dirs_first node).
Proof.
  induction node as [node IH] using TreeNode_nested_ind.
  intros HE. destruct (every_children _ _ HE) as [HP HF].
  rewrite sort_children_eq.
  set (f := fun child => if is_dir child then sort_children sort_by dirs_first child
                         else child).
  apply (every_rebuild _ f node); cbn [children set_children].
  - apply (files_are_leaves_rebuild f node); cbn [children set_children]; auto.
    + intros c. unfold f. destruct (is_dir c) eqn:E; [|exact E].
      destruct (sort_children_keeps sort_by dirs_first c) as [_ [-> _]]. exact E.
    + intros c Hc. unfold f. rewrite Hc. reflexivity.
    + apply order_children_perm.
  - apply order_children_perm.
  - rewrite Forall_forall in *. intros c Hc. unfold f.
    destruct (is_dir c); [apply (IH c Hc)|]; apply (HF c Hc).
Qed.

Lemma trim_depth_height (max_depth : Z) (node : TreeNode) :
  forall depth,
    Every files_are_leaves node ->
    Z.of_nat (height (trim_depth max_depth node depth)) <= Z.max 0 (max_depth - depth).
Proof.
  induction node as [node IH] using TreeNode_nested_ind.
  intros depth HE. destruct (every_children _ _ HE) as [HP HF].
  rewrite trim_depth_eq. destruct (max_depth <=? depth) eqn:E.
  - rewrite height_eq. cbn [children set_children fold_right]. lia.
  - apply Z.leb_gt in E.
    assert (Hk : (height (set_children node
                     (map (fun child => if is_dir child
                                        then trim_depth max_depth child (depth + 1)
                                        else child) (children node)))
                  <= Z.to_nat (max_depth - depth))%nat); [|lia].
    apply height_le. cbn [children set_children]. rewrite Forall_map.
    unfold files_are_leaves in HP. rewrite Forall_forall in *. intros c Hc.
    destruct (is_dir c) eqn:Ec.
    + pose proof (IH c Hc (depth + 1) (HF c Hc)). lia.
    + assert (H0 : height c = O) by (rewrite height_eq, (HP c Hc Ec); reflexivity).
      lia.
Qed.

(** X5. With [max_depth = d] the tree returned has at most [d] levels below the
    root (none for [d <= 0]). When no path of the list has more than [d]
    segments, the limit changes nothing: the tree is the one returned
    without a limit. *)
Theorem depth_limit (files : list FileInfo) (root : PyPath.Path) (d : Z)
    (sort_by : string) (dirs_first : bool) (tree : TreeNode) :
  build_tree files root (Some d) sort_by dirs_first = Ok tree ->
  Z.of_nat (height tree) <= Z.max 0 d /\
  (Forall (fun f => Z.of_nat (List.length (Walker.path f)) <= d) files ->
   build_tree files root None sort_by dirs_first = Ok tree).
Proof.
  unfold build_tree.
  destruct (add_all _ files) as [t|] eqn:Ea; cbn [bind]; [|discriminate].
  intros [= <-].
  destruct (add_all_inserted files _ [] t (inserted_fresh _ _) eq_refl Ea) as [HI _].
  simpl in HI. split.
  - pose proof (trim_depth_height d (sort_children sort_by dirs_first (calc_size t)) 0
                  (sort_children_files_are_leaves _ _ _
                     (calc_size_files_are_leaves _ (inserted_files_are_leaves _ _ HI)))).
    rewrite Z.sub_0_r in H. exact H.
  - intros HF. f_equal. symmetry. apply trim_depth_high. rewrite Z.sub_0_r.
    assert (Hh : (height t <= Z.to_nat (Z.max 0 d))%nat).
    { match type of Ea with
      | add_all ?n _ = _ => apply (height_add_all files _ n t); [|simpl; lia|exact Ea]
      end.
      eapply Forall_impl; [|exact HF]. simpl. intros f Hf. lia. }
    pose proof (height_sort_children sort_by dirs_first (calc_size t)).
    pose proof (height_calc_size t). lia.
Qed.

Lemma depth_limit_witness :
  build_tree sample_files ["repo"%string] (Some 3) "size" true = Ok sample_tree /\
  Forall (fun f => Z.of_nat (List.length (Walker.path f)) <= 3) sample_files /\
  Z.of_nat (height sample_tree) <= Z.max 0 3 /\
  build_tree sample_files ["repo"%string] None "size" true = Ok sample_tree.
Proof.
  assert (H : build_tree sample_files ["repo"%string] (Some 3) "size" true
              = Ok sample_tree) by reflexivity.
  assert (F : Forall (fun f => Z.of_nat (List.length (Walker.path f)) <= 3) sample_files)
    by (repeat constructor; simpl; lia).
  destruct (depth_limit sample_files ["repo"%string] 3 "size" true sample_tree H)
    as [H1 H2].
  split; [exact H|split; [exact F|split; [exact H1|exact (H2 F)]]].
Defined.

(** * tree.py: formatting numbers and rendering *)







Lemma all_nodes_eq (node : TreeNode) :
  all_nodes node = node :: flat_map all_nodes (children node).
Proof. destruct node; reflexivity. Qed.

Lemma render_tree_eq (root : TreeNode) (prefix : string) (is_last show_tokens show_size : bool) :
  render_tree root prefix is_last show_tokens show_size =
  (size_part <-
     (if show_size then
        s <- _format_size (size root) ;; Ok ("[" ++ pad_left 10 s ++ "] ")%string
      else Ok EmptyString) ;;
   tokens_part <-
     (if show_tokens && negb (is_dir root) then
        s <- _format_tokens (tokens root) ;; Ok (" (" ++ s ++ " tok)")%string
      else Ok EmptyString) ;;
   child_lines <-
     (fix each (cs : list TreeNode) : result (list string) :=
        match cs with
        | [] => Ok []
        | child :: cs' =>
            ls <- render_tree child
                    (prefix ++ (if is_last then "    " else "│   "))%string
                    (match cs' with [] => true | _ => false end)
                    show_tokens show_size ;;
            rest <- each cs' ;;
            Ok (ls ++ rest)
        end) (children root) ;;
   Ok ((prefix ++ (if is_last then "└── " else "├── ") ++ size_part
        ++ name root ++ tokens_part)%string :: child_lines)).
Proof. destruct root; reflexivity. Qed.



(** X6. When [render_tree] returns, it has made one line for every node of
    the tree, whatever the prefix and the options. *)
Theorem render_tree_lines (root : TreeNode) (prefix : string)
    (is_last show_tokens show_size : bool) (lines : list string) :
  render_tree root prefix is_last show_tokens show_size = Ok lines ->
  List.length lines = List.length (all_nodes root).
Proof.
  revert prefix is_last lines.
  induction root as [node IH] using TreeNode_nested_ind.
  intros prefix is_last lines H.
  rewrite all_nodes_eq. rewrite render_tree_eq in H.
  match type of H with
  | bind ?a _ = _ => destruct a as [p1|e]; cbn [bind] in H; [|discriminate]
  end.
  match type of H with
  | bind ?a _ = _ => destruct a as [p2|e]; cbn [bind] in H; [|discriminate]
  end.
  match type of H with
  | context [bind (?F (children node)) _] => remember F as each eqn:Heach
  end.
  assert (Hcs : forall cs ls,
             Forall (fun c =>
                       forall prefix is_last lines,
                         render_tree c prefix is_last show_tokens show_size = Ok lines ->
                         List.length lines = List.length (all_nodes c)) cs ->
             each cs = Ok ls ->
             List.length ls = List.length (flat_map all_nodes cs)).
  { induction cs as [|c cs IHcs]; intros ls HI Hls.
    - rewrite Heach in Hls. injection Hls as <-. reflexivity.
    - rewrite Heach in Hls. cbn beta iota in Hls. rewrite <- Heach in Hls.
      destruct (render_tree c _ _ show_tokens show_size) as [l1|e] eqn:R1;
        cbn [bind] in Hls; [|discriminate].
      destruct (each cs) as [l2|e] eqn:R2; cbn [bind] in Hls; [|discriminate].
      injection Hls as <-. cbn [flat_map]. rewrite !length_app.
      rewrite (Forall_inv HI _ _ _ R1), (IHcs l2 (Forall_inv_tail HI) eq_refl).
      reflexivity. }
  destruct (each (children node)) as [ls|e] eqn:Ech; cbn [bind] in H; [|discriminate].
  injection H as <-. cbn [List.length]. f_equal. exact (Hcs (children node) ls IH Ech).
Qed.

Lemma render_tree_lines_witness :
  exists lines,
    render_tree sample_tree EmptyString true true true = Ok lines /\
    List.length lines = List.length (all_nodes sample_tree).
Proof.
  eexists. split; [vm_compute; reflexivity|].
  apply (render_tree_lines sample_tree EmptyString true true true). reflexivity.
Defined.

(** * utils.py: the binary test *)







(** * walker.py: what [collect_files] returns *)

Lemma expand_raises (fs : FileSystem) (pattern : string) (e : exn) :
  _expand fs pattern = Raise e -> e = OSError.
Proof.
  unfold _expand. destruct (_ || _); [discriminate|].
  destruct (Walker.is_dir fs _) as [[|]|]; [discriminate|discriminate|].
  intros [= <-]. reflexivity.
Qed.

Lemma map_result_raises (fs : FileSystem) (l : list string) (p : string) :
  In p l -> _expand fs p = Raise OSError ->
  map_result (_expand fs) l = Raise OSError.
Proof.
  induction l as [|q l IH]; [contradiction|].
  intros [->|Hin] Hp; cbn [map_result].
  - rewrite Hp. reflexivity.
  - destruct (_expand fs q) as [y|e] eqn:E; cbn [bind].
    + rewrite (IH Hin Hp). reflexivity.
    + rewrite (expand_raises fs q e E). reflexivity.
Qed.

Lemma map_result_raises_only (fs : FileSystem) (l : list string) (e : exn) :
  map_result (_expand fs) l = Raise e -> e = OSError.
Proof.
  induction l as [|q l IH]; cbn [map_result]; [discriminate|].
  destruct (_expand fs q) as [y|e'] eqn:E; cbn [bind].
  - destruct (map_result (_expand fs) l) as [ys|e'']; cbn [bind]; [discriminate|].
    intros [= <-]. apply IH. reflexivity.
  - intros [= <-]. exact (expand_raises fs q e' E).
Qed.

(** X9. The errors that are not per-file errors. An exception raised while
    [.gitignore] is loaded (the test for its existence raises [OSError], or
    the file is not valid UTF-8) leaves [collect_files] with gitignore
    support as that exception. When the rules have been loaded, or are not
    asked for, and the directory test of [_expand] raises [OSError] on some
    include or exclude pattern, [collect_files] raises [OSError]. In both
    cases no list is returned, whatever the files of the walk. *)
Theorem collect_files_errors (fs : FileSystem) (include exclude : option (list string))
    (max_size : Z) (binary_strict : bool) :
  (forall e,
     _load_gitignore_patterns (gitignore fs) = Raise e <->
     (gitignore fs = ExistsFails /\ e = OSError) \/
     (exists ls, gitignore fs = Lines ls ReadDecodeError /\ e = UnicodeDecodeError)) /\
  (forall e,
     _load_gitignore_patterns (gitignore fs) = Raise e ->
     collect_files fs include exclude max_size binary_strict true = Raise e) /\
  (forall (use_gitignore : bool) (rules : list string) (p : string),
     (if use_gitignore then _load_gitignore_patterns (gitignore fs) else Ok []) = Ok rules ->
     In p (or_default include ["*"%string] ++ or_default exclude []) ->
     _expand fs p = Raise OSError ->
     collect_files fs include exclude max_size binary_strict use_gitignore = Raise OSError).
Proof.
  split; [intros e; apply load_raises_iff|]. split.
  - intros e H. unfold collect_files. rewrite H. reflexivity.
  - intros use_gitignore rules p Hl Hin Hp. unfold collect_files. rewrite Hl. cbn [bind].
    unfold effective_include, effective_exclude.
    apply in_app_or in Hin. destruct Hin as [Hin|Hin].
    + rewrite (map_result_raises fs _ p Hin Hp). reflexivity.
    + destruct (map_result (_expand fs) (or_default include ["*"%string])) as [inc|e] eqn:E;
        cbn [bind].
      * rewrite (map_result_raises fs _ p Hin Hp). reflexivity.
      * rewrite (map_result_raises_only fs _ e E). reflexivity.
Qed.

(** At a root whose [.gitignore] is not valid UTF-8, and at one where the
    directory test of a pattern fails. *)
Example collect_files_raises :
  collect_files repo_not_utf8 None None DEFAULT_MAX_SIZE true true
  = Raise UnicodeDecodeError /\
  collect_files repo_denied None (Some ["private"%string]) DEFAULT_MAX_SIZE true false
  = Raise OSError /\
  collect_files repo_denied None (Some ["public"%string]) DEFAULT_MAX_SIZE true false
  = Ok [mkFileInfo ["a.txt"%string] 5 0].
Proof. repeat split; reflexivity. Qed.

Lemma visit_all_complete (f : Entry -> option FileInfo) (entries : list Entry)
    (e : Entry) (info : FileInfo) :
  In e entries -> f e = Some info -> In info (visit_all f entries).
Proof.
  induction entries as [|x l IH]; simpl; [tauto|].
  intros [->|He] Hf.
  - rewrite Hf. left. reflexivity.
  - destruct (f x); [right|]; auto.
Qed.

(** X10. The records [collect_files] returns are exactly those of the entries of
    the walk that are regular files, pass the pattern checks, do not look
    binary, can be examined and read, and are no larger than [max_size];
    each record carries the entry's relative path, size and time. *)
Theorem collect_files_selects (fs : FileSystem) (include exclude : option (list string))
    (max_size : Z) (binary_strict use_gitignore : bool) (files : list FileInfo) :
  collect_files fs include exclude max_size binary_strict use_gitignore = Ok files ->
  exists gitignore_patterns inc exc,
    (if use_gitignore then _load_gitignore_patterns (gitignore fs) else Ok [])
    = Ok gitignore_patterns /\
    effective_include fs include = Ok inc /\
    effective_exclude fs inc exclude = Ok exc /\
    forall info,
      In info files <->
      exists e,
        In e (rglob fs) /\ is_file e = true /\
        passes_selection inc exc use_gitignore gitignore_patterns (rel_path_of (rel e))
        = true /\
        is_binary e binary_strict = false /\
        stat e = Some (Walker.size info, Walker.mtime info) /\
        readable e = true /\
        Walker.size info <= max_size /\
        Walker.path info = rel e.
Proof.
  intros Hc.
  destruct (collect_files_ok _ _ _ _ _ _ _ Hc) as [pats [inc [exc [Hl [Hi [He ->]]]]]].
  exists pats, inc, exc. split; [exact Hl|]. split; [exact Hi|]. split; [exact He|].
  intros info. split.
  - intros Hin. apply visit_all_in in Hin. destruct Hin as [e [Hin Hv]].
    exists e. unfold visit in Hv.
    destruct (is_file e); cbn [negb] in Hv; [|discriminate].
    destruct (passes_selection _ _ _ _ _); cbn [negb] in Hv; [|discriminate].
    destruct (is_binary e binary_strict); [discriminate|].
    destruct (stat e) as [[sz mt]|]; [|discriminate].
    destruct (readable e); cbn [negb] in Hv; [|discriminate].
    destruct (Z.ltb_spec max_size sz); [discriminate|].
    injection Hv as <-. cbn. repeat split; auto.
  - intros [e [Hin [Hf [Hs [Hb [Hst [Hr [Hm Hp]]]]]]]].
    apply (visit_all_complete _ _ e); [exact Hin|].
    unfold visit. rewrite Hf, Hs, Hb, Hst, Hr. cbn [negb].
    destruct (Z.ltb_spec max_size (Walker.size info)); [lia|].
    rewrite <- Hp. destruct info; reflexivity.
Qed.

Lemma collect_files_selects_witness :
  collect_files repo_with_git None None DEFAULT_MAX_SIZE true true
    = Ok [mkFileInfo ["a.txt"%string] 5 0] /\
  exists gitignore_patterns inc exc,
    _load_gitignore_patterns (gitignore repo_with_git) = Ok gitignore_patterns /\
    effective_include repo_with_git None = Ok inc /\
    effective_exclude repo_with_git inc None = Ok exc /\
    forall info,
      In info [mkFileInfo ["a.txt"%string] 5 0] <->
      exists e,
        In e (rglob repo_with_git) /\ is_file e = true /\
        passes_selection inc exc true gitignore_patterns (rel_path_of (rel e)) = true /\
        is_binary e true = false /\
        stat e = Some (Walker.size info, Walker.mtime info) /\
        readable e = true /\
        Walker.size info <= DEFAULT_MAX_SIZE /\
        Walker.path info = rel e.
Proof.
  split; [reflexivity|].
  apply (collect_files_selects repo_with_git None None DEFAULT_MAX_SIZE true true).
  reflexivity.
Defined.




Lemma dot_git_never_collected_witness :
  collect_files repo_with_git (Some [".git/**"; "a.txt"]%string) None DEFAULT_MAX_SIZE
                true true
    = Ok [mkFileInfo ["a.txt"%string] 5 0] /\
  In (mkFileInfo ["a.txt"%string] 5 0) [mkFileInfo ["a.txt"%string] 5 0] /\
  ~ In ".git"%string
       (PyStr.split "/"
          (PyStr.normalize_sep
             (rel_path_of (Walker.path (mkFileInfo ["a.txt"%string] 5 0))))).
Proof.
  assert (H : collect_files repo_with_git (Some [".git/**"; "a.txt"]%string) None
                DEFAULT_MAX_SIZE true true
              = Ok [mkFileInfo ["a.txt"%string] 5 0]) by reflexivity.
  assert (Hin : In (mkFileInfo ["a.txt"%string] 5 0) [mkFileInfo ["a.txt"%string] 5 0])
    by (left; reflexivity).
  split; [exact H|split; [exact Hin|]].
  exact (dot_git_never_collected repo_with_git _ None DEFAULT_MAX_SIZE true true _ _ H Hin).
Defined.

(** * walker.py: patterns after [_expand] *)

(** What [_expand] returns is empty, or [/**] (for a pattern of dots and
    slashes only, when the root is a directory), or starts with a character
    that is neither a dot nor a slash. *)
Lemma expand_shape (fs : FileSystem) (pattern pat : string) :
  _expand fs pattern = Ok pat ->
  pat = EmptyString \/
  pat = "/**"%string \/
  exists c r, pat = String c r /\ c <> "."%char /\ c <> "/"%char.
Proof.
  unfold _expand.
  pose proof (lstrip_head "./" (PyStr.normalize_sep pattern)) as H.
  destruct (PyStr.lstrip "./" (PyStr.normalize_sep pattern)) as [|c q] eqn:Eq.
  - simpl. destruct (Walker.is_dir fs EmptyString) as [[|]|]; intros [= <-]; auto.
  - destruct (rstrip_head "/" c q) as [E|[r E]]; rewrite E.
    + simpl. destruct (Walker.is_dir fs EmptyString) as [[|]|]; intros [= <-]; auto.
    + intros Hp. right. right.
      assert (Hc : c <> "."%char /\ c <> "/"%char).
      { simpl in H. apply orb_false_elim in H. destruct H as [H1 H2].
        apply orb_false_elim in H2. destruct H2 as [H2 _].
        apply Ascii.eqb_neq in H1, H2. auto. }
      destruct (String.eqb (String c r) "*" || String.eqb (String c r) "**");
        [injection Hp as <-; exists c, r; tauto|].
      destruct (Walker.is_dir fs (String c r)) as [[|]|]; [| |discriminate];
        injection Hp as <-; [exists c, (r ++ "/**")%string|exists c, r]; tauto.
Qed.

(** X12. A relative path that begins with a dot is matched by an expanded include
    or exclude pattern only if the pattern begins with a wildcard or a set:
    [_expand] strips the leading dots of every pattern, so the name of a
    hidden file or directory written out in a pattern never matches it. *)
Theorem hidden_path_needs_wildcard (fs : FileSystem) (pattern pat rel_path : string) :
  PyStr.startswith rel_path "." = true ->
  _expand fs pattern = Ok pat ->
  Fnmatch.fnmatch rel_path pat = true ->
  exists c r, pat = String c r /\
              (c = "*" \/ c = "?" \/ c = "[")%char.
Proof.
  intros Hdot Hp Hm.
  destruct rel_path as [|d rest]; [discriminate|].
  assert (Hd : d = "."%char).
  { unfold PyStr.startswith in Hdot. cbn [String.prefix] in Hdot.
    destruct (Ascii.ascii_dec "." d); [congruence|discriminate]. }
  subst d.
  destruct (expand_shape fs pattern pat Hp) as [E|[E|[c [r [E [Hc1 Hc2]]]]]]; rewrite E in *.
  - discriminate.
  - discriminate.
  - exists c, r. split; [reflexivity|].
    unfold Fnmatch.fnmatch, Fnmatch.translate in Hm. cbn [Fnmatch.translate_from] in Hm.
    destruct (Ascii.eqb_spec c "*"); [auto|].
    destruct (Ascii.eqb_spec c "?"); [auto|].
    destruct (Ascii.eqb_spec c "["); [auto|].
    exfalso. cbn [Fnmatch.glob_match] in Hm.
    apply andb_true_iff in Hm. destruct Hm as [Hm _].
    apply Ascii.eqb_eq in Hm. congruence.
Qed.

Lemma hidden_path_needs_wildcard_witness :
  PyStr.startswith ".env" "." = true /\
  _expand repo_with_git ".*" = Ok "*"%string /\
  Fnmatch.fnmatch ".env" "*" = true /\
  exists c r, "*"%string = String c r /\
              (c = "*" \/ c = "?" \/ c = "[")%char.
Proof.
  assert (H1 : PyStr.startswith ".env" "." = true) by reflexivity.
  assert (H2 : _expand repo_with_git ".*" = Ok "*"%string) by reflexivity.
  assert (H3 : Fnmatch.fnmatch ".env" "*" = true) by reflexivity.
  split; [exact H1|split; [exact H2|split; [exact H3|]]].
  exact (hidden_path_needs_wildcard repo_with_git ".*" "*" ".env" H1 H2 H3).
Defined.

(** * walker.py: the rules loaded from [.gitignore] *)

Section Strip.

Import PyStr.

Lemma lstrip_idem (chars s : string) : lstrip chars (lstrip chars s) = lstrip chars s.
Proof.
  induction s as [|c s IH]; simpl; [reflexivity|].
  destruct (mem_char c chars) eqn:E; [exact IH|]. simpl. rewrite E. reflexivity.
Qed.

Lemma rstrip_idem (chars s : string) : rstrip chars (rstrip chars s) = rstrip chars s.
Proof.
  induction s as [|c s IH]; [reflexivity|].
  cbn [rstrip]. destruct (rstrip chars s) as [|d r] eqn:E.
  - destruct (mem_char c chars) eqn:Ec; [reflexivity|]. simpl. rewrite Ec. reflexivity.
  - change (rstrip chars (String c (String d r)))
      with (match rstrip chars (String d r) with
            | EmptyString => if mem_char c chars then EmptyString else String c EmptyString
            | String a r0 => String c (String a r0)
            end).
    rewrite IH. reflexivity.
Qed.

Lemma rstrip_lstrip (chars s : string) :
  rstrip chars (lstrip chars s) = lstrip chars (rstrip chars s).
Proof.
  induction s as [|c s IH]; [reflexivity|].
  cbn [lstrip]. destruct (mem_char c chars) eqn:Ec.
  - rewrite IH. cbn [rstrip]. destruct (rstrip chars s) as [|d r] eqn:E.
    + rewrite Ec. reflexivity.
    + cbn [lstrip]. rewrite Ec. reflexivity.
  - cbn [rstrip]. destruct (rstrip chars s) as [|d r] eqn:E.
    + rewrite Ec. cbn [lstrip]. rewrite Ec. reflexivity.
    + cbn [lstrip]. rewrite Ec. reflexivity.
Qed.

Lemma strip_idem (s : string) : strip (strip s) = strip s.
Proof.
  unfold strip. rewrite rstrip_lstrip, rstrip_idem, lstrip_idem. reflexivity.
Qed.

End Strip.

(** X13. The rules loaded from a readable [.gitignore] are the lines of the file
    with the white space at both ends removed, without those that are then
    empty or begin with [#] or [!]; no rule has white space at either end. *)
Theorem loaded_rules (ls : list string) (p : string) :
  _load_gitignore_patterns (Lines ls EndOfFile) = Ok (keep_lines ls) /\
  (In p (keep_lines ls) <->
   (exists line, In line ls /\ PyStr.strip line = p) /\
   p <> EmptyString /\
   PyStr.startswith p "#" = false /\ PyStr.startswith p "!" = false) /\
  (In p (keep_lines ls) -> PyStr.strip p = p).
Proof.
  assert (Hk : forall line q, keep_line line = Some q <->
                 PyStr.strip line = q /\ q <> EmptyString /\
                 PyStr.startswith q "#" = false /\ PyStr.startswith q "!" = false).
  { intros line q. unfold keep_line.
    destruct (String.eqb_spec (PyStr.strip line) EmptyString) as [E|E]; cbn [orb].
    - split; [discriminate|]. intros [<- [H _]]. contradiction.
    - destruct (PyStr.startswith (PyStr.strip line) "#") eqn:E1.
      + split; [discriminate|]. intros [<- [_ [H _]]]. congruence.
      + destruct (PyStr.startswith (PyStr.strip line) "!") eqn:E2.
        * split; [discriminate|]. intros [<- [_ [_ H]]]. congruence.
        * split; [intros [= <-]; auto|]. intros [<- _]. reflexivity. }
  assert (Hin : In p (keep_lines ls) <-> exists line, In line ls /\ keep_line line = Some p).
  { induction ls as [|l ls IH]; simpl.
    - split; [tauto|]. intros [line [[] _]].
    - destruct (keep_line l) as [q|] eqn:E; simpl; rewrite IH; split.
      + intros [<-|[line [H1 H2]]]; eauto.
      + intros [line [[<-|H1] H2]]; [left; congruence|right; eauto].
      + intros [line [H1 H2]]; eauto.
      + intros [line [[<-|H1] H2]]; [congruence|eauto]. }
  split; [reflexivity|]. split.
  - rewrite Hin. split.
    + intros [line [H1 H2]]. apply Hk in H2. destruct H2 as [H2 H3]. eauto.
    + intros [[line [H1 H2]] H3]. exists line. split; [exact H1|]. apply Hk. auto.
  - rewrite Hin. intros [line [_ H]]. apply Hk in H. destruct H as [<- _].
    apply strip_idem.
Qed.

(** * walker.py: patterns that are plain names *)

Section PlainNames.

Import PyStr.
Import Fnmatch.

Local Open Scope string_scope.

Lemma string_app_assoc (a b c : string) : (a ++ b) ++ c = a ++ (b ++ c).
Proof. induction a as [|x a IH]; simpl; [|rewrite IH]; reflexivity. Qed.

Lemma prefix_empty (s : string) : String.prefix EmptyString s = true.
Proof. destruct s; reflexivity. Qed.

Lemma contains_char_cons (c d : ascii) (s : string) :
  contains (String c EmptyString) (String d s)
  = Ascii.eqb c d || contains (String c EmptyString) s.
Proof.
  cbn [contains String.prefix]. destruct (Ascii.ascii_dec c d) as [->|N].
  - rewrite Ascii.eqb_refl, prefix_empty. reflexivity.
  - apply Ascii.eqb_neq in N. rewrite N. reflexivity.
Qed.

Lemma plain_name_inv (c : ascii) (x : string) :
  plain_name (String c x) = true ->
  (Ascii.eqb c "*" = false /\ Ascii.eqb c "?" = false /\ Ascii.eqb c "[" = false /\
   Ascii.eqb c "/" = false /\ Ascii.eqb c backslash = false) /\
  plain_name x = true.
Proof.
  unfold plain_name. rewrite !contains_char_cons, !negb_orb, !andb_true_iff, !negb_true_iff.
  rewrite !(Ascii.eqb_sym c). tauto.
Qed.

Lemma plain_name_parts (x : string) :
  plain_name x = true ->
  contains "*" x = false /\ contains "?" x = false /\ contains "[" x = false /\
  contains "/" x = false.
Proof.
  unfold plain_name. rewrite !andb_true_iff, !negb_true_iff. tauto.
Qed.

Lemma normalize_plain (x : string) : plain_name x = true -> normalize_sep x = x.
Proof.
  induction x as [|c x IH]; intros H; [reflexivity|].
  apply plain_name_inv in H. destruct H as [[_ [_ [_ [_ Hb]]]] Hx].
  unfold normalize_sep in *. cbn [map_chars]. rewrite Hb, (IH Hx). reflexivity.
Qed.

Lemma double_star_needs_star (s : string) : contains "*" s = false -> contains "**" s = false.
Proof.
  induction s as [|c s IH]; [reflexivity|].
  rewrite contains_char_cons. intros H. apply orb_false_elim in H. destruct H as [Hc Hs].
  cbn [contains String.prefix].
  destruct (Ascii.ascii_dec "*" c) as [<-|_]; [discriminate|].
  cbn [orb]. apply IH. exact Hs.
Qed.

Lemma translate_plain (x y : string) :
  plain_name x = true ->
  translate_from O (x ++ y) = (map GLit (list_ascii_of_string x) ++ translate_from O y)%list.
Proof.
  induction x as [|c x IH]; intros H; [reflexivity|].
  apply plain_name_inv in H. destruct H as [[H1 [H2 [H3 _]]] Hx].
  cbn [append translate_from list_ascii_of_string map List.app].
  rewrite H1, H2, H3, (IH Hx). reflexivity.
Qed.

Lemma glob_lits (x : string) (rest : list gtok) :
  forall s,
    glob_match (map GLit (list_ascii_of_string x) ++ rest)%list s = true <->
    exists s', s = x ++ s' /\ glob_match rest s' = true.
Proof.
  induction x as [|c x IH]; intros s.
  - simpl. split; [eauto|]. intros [s' [-> H]]. exact H.
  - cbn [list_ascii_of_string map List.app glob_match]. destruct s as [|d s].
    + split; [discriminate|]. intros [s' [H _]]. discriminate.
    + rewrite andb_true_iff, IH, Ascii.eqb_eq. split.
      * intros [-> [s' [-> H]]]. exists s'. split; [reflexivity|exact H].
      * intros [s' [E H]]. cbn [append] in E. injection E as -> ->.
        split; [reflexivity|]. exists s'. split; [reflexivity|exact H].
Qed.

Lemma glob_star_unfold (p : list gtok) (s : string) :
  glob_match (GStar :: p) s =
  glob_match p s ||
  match s with
  | EmptyString => false
  | String _ s' => glob_match (GStar :: p) s'
  end.
Proof. destruct s; reflexivity. Qed.

Lemma glob_star_iff (p : list gtok) (s : string) :
  glob_match (GStar :: p) s = true <-> exists u v, s = u ++ v /\ glob_match p v = true.
Proof.
  induction s as [|c s IH]; rewrite glob_star_unfold, orb_true_iff.
  - split.
    + intros [H|H]; [exists EmptyString, EmptyString; auto|discriminate].
    + intros [u [v [E H]]]. destruct u; [|discriminate]. simpl in E. subst v. auto.
  - rewrite IH. split.
    + intros [H|[u [v [-> H]]]]; [exists EmptyString, (String c s); auto|].
      exists (String c u), v. auto.
    + intros [u [v [E H]]]. destruct u as [|d u].
      * simpl in E. subst v. auto.
      * injection E as -> ->. right. eauto.
Qed.

Lemma glob_two_stars (s : string) : glob_match [GStar; GStar] s = true.
Proof.
  apply glob_star_iff. exists s, EmptyString. rewrite append_empty_r. auto.
Qed.

(** A pattern that is a plain name matches that name and nothing else. *)
Lemma fnmatch_plain (x s : string) :
  plain_name x = true -> (fnmatch s x = true <-> s = x).
Proof.
  intros H. unfold fnmatch, translate.
  rewrite <- (append_empty_r x) at 1. rewrite (translate_plain x EmptyString H).
  rewrite glob_lits. cbn [translate_from glob_match]. split.
  - intros [s' [-> Hs]]. destruct s'; [apply append_empty_r|discriminate].
  - intros ->. exists EmptyString. rewrite append_empty_r. auto.
Qed.

Lemma split_nonempty (sep : ascii) (s : string) : split sep s <> [].
Proof.
  destruct s as [|c s]; simpl; [discriminate|].
  destruct (Ascii.eqb c sep); [discriminate|]. destruct (split sep s); discriminate.
Qed.

Lemma split_plain (x : string) : contains "/" x = false -> split "/" x = [x].
Proof.
  induction x as [|c x IH]; [reflexivity|].
  rewrite contains_char_cons. intros H. apply orb_false_elim in H. destruct H as [Hc Hx].
  cbn [split]. rewrite Ascii.eqb_sym, Hc, (IH Hx). reflexivity.
Qed.

Lemma split_app (u v : string) :
  split "/" (u ++ "/" ++ v) = (split "/" u ++ split "/" v)%list.
Proof.
  induction u as [|c u IH]; [reflexivity|].
  cbn [append split]. cbn [append] in IH. destruct (Ascii.eqb c "/").
  - rewrite IH. reflexivity.
  - rewrite IH.
    pose proof (split_nonempty "/" u) as Hn.
    destruct (split "/" u) as [|w ws]; [contradiction|]. reflexivity.
Qed.

Lemma join_two (sep a : string) (b : string) (l : list string) :
  join sep (a :: b :: l) = a ++ sep ++ join sep (b :: l).
Proof. reflexivity. Qed.

(** Splitting at the slashes and joining again gives the path back. *)
Lemma join_split (s : string) : join "/" (split "/" s) = s.
Proof.
  induction s as [|c s IH]; [reflexivity|].
  cbn [split]. pose proof (split_nonempty "/" s) as Hn.
  destruct (Ascii.eqb_spec c "/") as [->|N].
  - destruct (split "/" s) as [|w ws]; [contradiction|].
    rewrite join_two, IH. reflexivity.
  - destruct (split "/" s) as [|w ws]; [contradiction|].
    destruct ws as [|w2 ws].
    + unfold join in *. simpl in *. rewrite IH. reflexivity.
    + rewrite join_two in *. rewrite <- IH. reflexivity.
Qed.

Lemma join_app (l1 l2 : list string) :
  l1 <> [] -> l2 <> [] ->
  join "/" (l1 ++ l2) = join "/" l1 ++ "/" ++ join "/" l2.
Proof.
  intros H1 H2. induction l1 as [|a l1 IH]; [contradiction|].
  destruct l1 as [|b l1].
  - destruct l2 as [|c l2]; [contradiction|]. reflexivity.
  - cbn [List.app]. rewrite !join_two. cbn [List.app] in IH.
    rewrite IH by discriminate. rewrite !string_app_assoc. reflexivity.
Qed.

(** A name without a slash is a segment of a path exactly when the path is
    the name, or starts with the name and a slash, or ends with a slash and
    the name, or holds the name between two slashes. *)
Lemma segment_iff (x s : string) :
  contains "/" x = false ->
  (In x (split "/" s) <->
   s = x \/ (exists w, s = x ++ "/" ++ w) \/ (exists u, s = u ++ "/" ++ x) \/
   (exists u w, s = u ++ "/" ++ x ++ "/" ++ w)).
Proof.
  intros Hx. split.
  - intros Hin. apply in_split in Hin. destruct Hin as [l1 [l2 E]].
    pose proof (join_split s) as Hj. rewrite E in Hj.
    destruct l1 as [|a l1]; destruct l2 as [|b l2].
    + left. symmetry. exact Hj.
    + right. left. exists (join "/" (b :: l2)). symmetry. exact Hj.
    + right. right. left. exists (join "/" (a :: l1)).
      rewrite join_app in Hj by discriminate. symmetry. exact Hj.
    + right. right. right. exists (join "/" (a :: l1)), (join "/" (b :: l2)).
      rewrite join_app in Hj by discriminate. rewrite join_two in Hj.
      symmetry. exact Hj.
  - intros [->|[[w ->]|[[u ->]|[u [w ->]]]]].
    + rewrite (split_plain x Hx). left. reflexivity.
    + rewrite split_app, (split_plain x Hx). left. reflexivity.
    + rewrite split_app, (split_plain x Hx). apply in_or_app. right. left. reflexivity.
    + rewrite !split_app, (split_plain x Hx). apply in_or_app. right. left. reflexivity.
Qed.

Lemma map_chars_app (f : ascii -> ascii) (a b : string) :
  map_chars f (a ++ b) = map_chars f a ++ map_chars f b.
Proof. induction a as [|c a IH]; simpl; [|rewrite IH]; reflexivity. Qed.

Lemma endswith_plain (x : string) : contains "/" x = false -> endswith x "/" = false.
Proof.
  induction x as [|c x IH]; [reflexivity|].
  rewrite contains_char_cons. intros H. apply orb_false_elim in H. destruct H as [Hc Hx].
  cbn [endswith]. rewrite (IH Hx), orb_false_r.
  cbn [String.eqb]. rewrite Ascii.eqb_sym, Hc. reflexivity.
Qed.

Lemma endswith_app_slash (x : string) : endswith (x ++ "/") "/" = true.
Proof.
  induction x as [|c x IH]; [reflexivity|].
  cbn [append endswith]. cbn [append] in IH. rewrite IH. apply orb_true_r.
Qed.

Lemma rstrip_app_slash (x : string) :
  contains "/" x = false -> rstrip "/" (x ++ "/") = x.
Proof.
  induction x as [|c x IH]; [reflexivity|].
  rewrite contains_char_cons. intros H. apply orb_false_elim in H. destruct H as [Hc Hx].
  cbn [append rstrip]. cbn [append] in IH. rewrite (IH Hx).
  destruct x; [|reflexivity].
  cbn [mem_char]. rewrite Ascii.eqb_sym, Hc. reflexivity.
Qed.

Lemma startswith_plain (x : string) : contains "/" x = false -> startswith x "/" = false.
Proof.
  destruct x as [|c x]; [reflexivity|].
  rewrite contains_char_cons. intros H. apply orb_false_elim in H. destruct H as [Hc _].
  unfold startswith. cbn [String.prefix].
  destruct (Ascii.ascii_dec "/" c) as [<-|_]; [discriminate|reflexivity].
Qed.

Lemma contains_app_char (c : ascii) (a r : string) :
  contains (String c EmptyString) (a ++ String c r) = true.
Proof.
  induction a as [|d a IH]; cbn [append]; rewrite contains_char_cons.
  - rewrite Ascii.eqb_refl. reflexivity.
  - rewrite IH. apply orb_true_r.
Qed.

Lemma last_in (l : list string) : l <> [] -> In (last l EmptyString) l.
Proof.
  induction l as [|a l IH]; [contradiction|]. intros _.
  destruct l as [|b l]; [left; reflexivity|].
  right. apply IH. discriminate.
Qed.

(** The four globs tried for a directory rule. *)
Lemma fnmatch_under (x s : string) :
  plain_name x = true ->
  (fnmatch s (x ++ "/**") = true <-> exists w, s = x ++ "/" ++ w).
Proof.
  intros H. unfold fnmatch, translate. rewrite (translate_plain x "/**" H).
  change (translate_from O "/**") with [GLit "/"; GStar; GStar].
  rewrite glob_lits. split.
  - intros [s' [-> Hs]]. destruct s' as [|d s']; [discriminate|].
    cbn [glob_match] in Hs. apply andb_true_iff in Hs. destruct Hs as [Hd _].
    apply Ascii.eqb_eq in Hd. subst d. exists s'. reflexivity.
  - intros [w ->]. exists ("/" ++ w). split; [reflexivity|].
    cbn [append glob_match]. rewrite Ascii.eqb_refl. apply (glob_two_stars w).
Qed.

Lemma fnmatch_below (x s : string) :
  plain_name x = true ->
  (fnmatch s ("*/" ++ x) = true <-> exists u, s = u ++ "/" ++ x).
Proof.
  intros H. unfold fnmatch, translate.
  change (translate_from O ("*/" ++ x)) with (GStar :: GLit "/" :: translate_from O x).
  rewrite <- (append_empty_r x) at 1. rewrite (translate_plain x EmptyString H).
  change (GLit "/" :: (map GLit (list_ascii_of_string x) ++ translate_from O EmptyString)%list)
    with (map GLit (list_ascii_of_string ("/" ++ x)) ++ [])%list.
  rewrite glob_star_iff. split.
  - intros [u [v [-> Hv]]]. apply glob_lits in Hv. destruct Hv as [s' [-> Hs]].
    destruct s'; [|discriminate]. rewrite append_empty_r. exists u. reflexivity.
  - intros [u ->]. exists u, ("/" ++ x). split; [reflexivity|].
    apply glob_lits. exists EmptyString. rewrite append_empty_r. auto.
Qed.

Lemma fnmatch_between (x s : string) :
  plain_name x = true ->
  (fnmatch s ("*/" ++ x ++ "/**") = true <-> exists u w, s = u ++ "/" ++ x ++ "/" ++ w).
Proof.
  intros H. unfold fnmatch, translate.
  change (translate_from O ("*/" ++ x ++ "/**"))
    with (GStar :: GLit "/" :: translate_from O (x ++ "/**")).
  rewrite (translate_plain x "/**" H).
  change (translate_from O "/**") with [GLit "/"; GStar; GStar].
  change (GLit "/" :: (map GLit (list_ascii_of_string x) ++ [GLit "/"; GStar; GStar])%list)
    with (map GLit (list_ascii_of_string ("/" ++ x)) ++ [GLit "/"; GStar; GStar])%list.
  rewrite glob_star_iff. split.
  - intros [u [v [-> Hv]]]. apply glob_lits in Hv. destruct Hv as [s' [-> Hs]].
    destruct s' as [|d s']; [discriminate|].
    cbn [glob_match] in Hs. apply andb_true_iff in Hs. destruct Hs as [Hd _].
    apply Ascii.eqb_eq in Hd. subst d. exists u, s'. reflexivity.
  - intros [u [w ->]]. exists u, ("/" ++ x ++ "/" ++ w). split; [reflexivity|].
    apply glob_lits. exists ("/" ++ w). split.
    + reflexivity.
    + cbn [append glob_match]. rewrite Ascii.eqb_refl. apply (glob_two_stars w).
Qed.

Lemma exclude_name_iff (rel_path x : string) :
  plain_name x = true ->
  (Walker._matches_exclude_pattern rel_path x = true <-> In x (segments rel_path)).
Proof.
  intros H. destruct (plain_name_parts x H) as [H1 [H2 [_ H4]]].
  unfold Walker._matches_exclude_pattern, segments.
  rewrite (normalize_plain x H), (double_star_needs_star x H1), H1, H2, H4.
  cbn [orb]. rewrite existsb_exists. split.
  - intros [part [Hin Hm]]. apply (fnmatch_plain x part H) in Hm. subst part. exact Hin.
  - intros Hin. exists x. split; [exact Hin|]. apply (fnmatch_plain x x H). reflexivity.
Qed.

Lemma gitignore_name_iff (rel_path x : string) :
  plain_name x = true ->
  (Walker._matches_gitignore_pattern rel_path x = true <-> In x (segments rel_path)).
Proof.
  intros H. destruct (plain_name_parts x H) as [_ [_ [_ H4]]].
  unfold Walker._matches_gitignore_pattern, segments.
  rewrite (normalize_plain x H), (endswith_plain x H4), (startswith_plain x H4), H4.
  set (rel := normalize_sep rel_path).
  rewrite orb_true_iff, existsb_exists. split.
  - intros [Hb|[i [Hi Hm]]].
    + apply (fnmatch_plain x _ H) in Hb. rewrite <- Hb. unfold basename.
      apply last_in. apply split_nonempty.
    + apply in_seq in Hi. apply orb_true_iff in Hm. destruct Hm as [Hm|Hm].
      * apply (fnmatch_plain x _ H) in Hm. rewrite <- Hm. apply nth_In. lia.
      * apply (fnmatch_plain x _ H) in Hm.
        pose proof (split_nonempty "/" rel) as Hn.
        destruct (split "/" rel) as [|a l]; [contradiction|].
        destruct i as [|i].
        -- cbn [firstn] in Hm. unfold join in Hm. cbn in Hm. left. exact Hm.
        -- destruct l as [|b l]; [cbn [List.length] in Hi; lia|].
           cbn [firstn] in Hm. rewrite join_two in Hm.
           rewrite <- Hm in H4. cbn [append] in H4.
           rewrite contains_app_char in H4. discriminate.
  - intros Hin. right. destruct (In_nth _ _ EmptyString Hin) as [i [Hi Hx]].
    exists i. split; [apply in_seq; lia|].
    rewrite Hx. apply orb_true_iff. left. apply (fnmatch_plain x x H). reflexivity.
Qed.

Lemma gitignore_dir_iff (rel_path x : string) :
  plain_name x = true ->
  (Walker._matches_gitignore_pattern rel_path (x ++ "/") = true <-> In x (segments rel_path)).
Proof.
  intros H. destruct (plain_name_parts x H) as [_ [_ [_ H4]]].
  unfold Walker._matches_gitignore_pattern, segments.
  assert (Hn : normalize_sep (x ++ "/") = x ++ "/").
  { unfold normalize_sep. rewrite map_chars_app. fold (normalize_sep x).
    rewrite (normalize_plain x H). reflexivity. }
  rewrite Hn, endswith_app_slash, (rstrip_app_slash x H4).
  set (rel := normalize_sep rel_path).
  rewrite (segment_iff x rel H4), !orb_true_iff.
  rewrite (fnmatch_plain x rel H), (fnmatch_under x rel H), (fnmatch_below x rel H),
    (fnmatch_between x rel H).
  tauto.
Qed.

(** X16. A [.gitignore] rule that is a slash followed by a plain name
    ignores the one path equal to that name and nothing below it. *)
Theorem gitignore_anchored_rule (rel_path x : string) :
  plain_name x = true -> x <> EmptyString ->
  (Walker._matches_gitignore_pattern rel_path ("/" ++ x) = true <->
   normalize_sep rel_path = x).
Proof.
  intros H Hne. destruct (plain_name_parts x H) as [_ [_ [_ H4]]].
  unfold Walker._matches_gitignore_pattern.
  assert (Hn : normalize_sep ("/" ++ x) = "/" ++ x).
  { unfold normalize_sep. rewrite map_chars_app. fold (normalize_sep x).
    rewrite (normalize_plain x H). reflexivity. }
  rewrite Hn.
  assert (He : endswith ("/" ++ x) "/" = false).
  { cbn [append endswith]. rewrite (endswith_plain x H4), orb_false_r.
    cbn [String.eqb Ascii.eqb Bool.eqb]. destruct x; [contradiction|reflexivity]. }
  rewrite He. change (startswith ("/" ++ x) "/") with (String.prefix EmptyString x).
  rewrite prefix_empty. change (drop 1 ("/" ++ x)) with x.
  apply (fnmatch_plain x _ H).
Qed.

Lemma contains_app_r (sub a b : string) :
  contains sub b = true -> contains sub (a ++ b) = true.
Proof.
  intros H. induction a as [|c a IH]; [exact H|].
  cbn [append contains]. rewrite IH. apply orb_true_r.
Qed.

Lemma prefix_other_char (o c : ascii) (old s : string) :
  Ascii.eqb c o = false -> String.prefix (String o old) (String c s) = false.
Proof.
  intros H. cbn [String.prefix].
  destruct (Ascii.ascii_dec o c) as [->|_]; [|reflexivity].
  rewrite Ascii.eqb_refl in H. discriminate.
Qed.

Lemma replace_from_plain (o : ascii) (old new x y : string) :
  plain_name x = true -> (o = "/" \/ o = "*")%char ->
  replace_from (String o old) new O (x ++ y) = x ++ replace_from (String o old) new O y.
Proof.
  intros H Ho. induction x as [|c x IH]; [reflexivity|].
  apply plain_name_inv in H. destruct H as [[H1 [_ [_ [H4 _]]]] Hx].
  cbn [append replace_from]. rewrite prefix_other_char, (IH Hx); [reflexivity|].
  destruct Ho as [->| ->]; assumption.
Qed.

Lemma replace_plain (o : ascii) (old new x : string) :
  plain_name x = true -> (o = "/" \/ o = "*")%char ->
  replace (String o old) new x = x.
Proof.
  intros H Ho. unfold replace. rewrite <- (append_empty_r x) at 1.
  rewrite (replace_from_plain o old new x EmptyString H Ho).
  cbn [replace_from]. apply append_empty_r.
Qed.

Lemma base_of_suffixed (x : string) :
  plain_name x = true ->
  replace "**/" EmptyString (replace "/**" EmptyString (x ++ "/**")) = x.
Proof.
  intros H. unfold replace at 2.
  rewrite (replace_from_plain "/" "**" EmptyString x "/**" H (or_introl eq_refl)).
  change (replace_from "/**" EmptyString O "/**") with EmptyString.
  rewrite append_empty_r. apply (replace_plain "*" "*/" EmptyString x H). right. reflexivity.
Qed.

Lemma replace_from_keep (old new : string) (c : ascii) (s : string) :
  String.prefix old (String c s) = false ->
  replace_from old new O (String c s) = String c (replace_from old new O s).
Proof. intros H. cbn [replace_from]. rewrite H. reflexivity. Qed.

Lemma replace_from_hit (old new : string) (c : ascii) (s : string) :
  String.prefix old (String c s) = true ->
  replace_from old new O (String c s)
  = new ++ replace_from old new (Nat.pred (String.length old)) s.
Proof. intros H. cbn [replace_from]. rewrite H. reflexivity. Qed.

Lemma prefix_app (a b : string) : String.prefix a (a ++ b) = true.
Proof.
  induction a as [|c a IH]; [apply prefix_empty|].
  cbn [append String.prefix]. destruct (Ascii.ascii_dec c c); [exact IH|contradiction].
Qed.

Lemma base_of_prefixed (x : string) :
  plain_name x = true ->
  replace "**/" EmptyString (replace "/**" EmptyString ("**/" ++ x)) = x.
Proof.
  intros H.
  assert (Hp : String.prefix "/**" (String "/" x) = false).
  { destruct x as [|c x]; [reflexivity|].
    apply plain_name_inv in H. destruct H as [[H1 _] _].
    cbn [String.prefix]. destruct (Ascii.ascii_dec "/" "/"); [|reflexivity].
    destruct (Ascii.ascii_dec "*" c) as [<-|_]; [discriminate|reflexivity]. }
  assert (E : replace "/**" EmptyString ("**/" ++ x) = "**/" ++ x).
  { unfold replace. cbn [append].
    rewrite (replace_from_keep "/**" EmptyString "*") by reflexivity.
    rewrite (replace_from_keep "/**" EmptyString "*") by reflexivity.
    rewrite (replace_from_keep "/**" EmptyString "/" x Hp).
    fold (replace "/**" EmptyString x).
    rewrite (replace_plain "/" "**" EmptyString x H (or_introl eq_refl)). reflexivity. }
  rewrite E. unfold replace.
  change ("**/" ++ x) with (String "*" (String "*" (String "/" x))).
  rewrite replace_from_hit by (exact (prefix_app "**/" x)).
  cbn [append String.length Nat.pred replace_from].
  fold (replace "**/" EmptyString x).
  apply (replace_plain "*" "*/" EmptyString x H). right. reflexivity.
Qed.

Lemma exclude_recursive_iff (rel_path x : string) :
  plain_name x = true ->
  (Walker._matches_exclude_pattern rel_path (x ++ "/**") = true <-> In x (segments rel_path)) /\
  (Walker._matches_exclude_pattern rel_path ("**/" ++ x) = true <-> In x (segments rel_path)).
Proof.
  intros H. destruct (plain_name_parts x H) as [_ [_ [_ H4]]].
  assert (Hm : existsb (fun part => fnmatch part x) (segments rel_path) = true <->
               In x (segments rel_path)).
  { rewrite existsb_exists. split.
    - intros [part [Hin Hp]]. apply (fnmatch_plain x part H) in Hp. subst part. exact Hin.
    - intros Hin. exists x. split; [exact Hin|]. apply (fnmatch_plain x x H). reflexivity. }
  assert (Hn1 : normalize_sep (x ++ "/**") = x ++ "/**").
  { unfold normalize_sep. rewrite map_chars_app. fold (normalize_sep x).
    rewrite (normalize_plain x H). reflexivity. }
  assert (Hn2 : normalize_sep ("**/" ++ x) = "**/" ++ x).
  { unfold normalize_sep. rewrite map_chars_app. fold (normalize_sep x).
    rewrite (normalize_plain x H). reflexivity. }
  assert (Hc : contains "**" ("**/" ++ x) = true).
  { change ("**/" ++ x) with ("**" ++ String "/" x).
    destruct ("**" ++ String "/" x) eqn:E; [discriminate|].
    cbn [contains]. rewrite <- E, (prefix_app "**" (String "/" x)). reflexivity. }
  split; unfold Walker._matches_exclude_pattern; fold (segments rel_path).
  - rewrite Hn1, (contains_app_r "**" x "/**" eq_refl), (base_of_suffixed x H), H4.
    exact Hm.
  - rewrite Hn2, Hc, (base_of_prefixed x H), H4. exact Hm.
Qed.

(** X14. An exclude pattern that is a plain name (no wildcard, bracket,
    slash or backslash) excludes exactly the paths that have that name as
    one of their segments: the file of that name and everything below a
    directory of that name, at any depth, and nothing else. The name
    followed by [/**], and [**/] followed by the name, exclude the same
    paths. *)
Theorem exclude_plain_name (rel_path x : string) :
  plain_name x = true ->
  (_matches_exclude_pattern rel_path x = true <-> In x (segments rel_path)) /\
  (_matches_exclude_pattern rel_path (x ++ "/**") = true <-> In x (segments rel_path)) /\
  (_matches_exclude_pattern rel_path ("**/" ++ x) = true <-> In x (segments rel_path)).
Proof.
  intros H. split; [exact (exclude_name_iff rel_path x H)|].
  exact (exclude_recursive_iff rel_path x H).
Qed.

Lemma exclude_plain_name_witness :
  plain_name "node_modules" = true /\
  (_matches_exclude_pattern "web/node_modules/x.js" "node_modules" = true <->
   In "node_modules" (segments "web/node_modules/x.js")) /\
  (_matches_exclude_pattern "web/node_modules/x.js" ("node_modules" ++ "/**") = true <->
   In "node_modules" (segments "web/node_modules/x.js")) /\
  (_matches_exclude_pattern "web/node_modules/x.js" ("**/" ++ "node_modules") = true <->
   In "node_modules" (segments "web/node_modules/x.js")).
Proof.
  split; [reflexivity|].
  apply (exclude_plain_name "web/node_modules/x.js" "node_modules"). reflexivity.
Defined.

(** X15. A [.gitignore] rule that is a plain name ignores exactly the paths
    that have that name as one of their segments, and the name followed by a
    slash ignores the same paths: a directory rule also ignores a regular
    file of that name, at any depth. *)
Theorem gitignore_plain_name (rel_path x : string) :
  plain_name x = true ->
  (_matches_gitignore_pattern rel_path x = true <-> In x (segments rel_path)) /\
  (_matches_gitignore_pattern rel_path (x ++ "/") = true <-> In x (segments rel_path)).
Proof.
  intros H. split; [exact (gitignore_name_iff rel_path x H)|].
  exact (gitignore_dir_iff rel_path x H).
Qed.

Lemma gitignore_plain_name_witness :
  plain_name "build" = true /\
  (_matches_gitignore_pattern "src/build" "build" = true <->
   In "build" (segments "src/build")) /\
  (_matches_gitignore_pattern "src/build" ("build" ++ "/") = true <->
   In "build" (segments "src/build")).
Proof.
  split; [reflexivity|]. apply (gitignore_plain_name "src/build" "build"). reflexivity.
Defined.

Lemma gitignore_anchored_rule_witness :
  (plain_name "build" = true /\ "build" <> EmptyString) /\
  (_matches_gitignore_pattern "build/out.o" ("/" ++ "build") = true <->
   normalize_sep "build/out.o" = "build").
Proof.
  split; [split; [reflexivity|discriminate]|].
  apply (gitignore_anchored_rule "build/out.o" "build"); [reflexivity|discriminate].
Defined.

Lemma rstrip_plain (x : string) : contains "/" x = false -> rstrip "/" x = x.
Proof.
  induction x as [|c x IH]; [reflexivity|].
  rewrite contains_char_cons. intros H. apply orb_false_elim in H. destruct H as [Hc Hx].
  cbn [rstrip]. rewrite (IH Hx). destruct x; [|reflexivity].
  cbn [mem_char]. rewrite Ascii.eqb_sym, Hc. reflexivity.
Qed.

Lemma lstrip_plain (x : string) :
  plain_name x = true -> startswith x "." = false -> lstrip "./" x = x.
Proof.
  destruct x as [|c x]; [reflexivity|]. intros H Hd.
  apply plain_name_inv in H. destruct H as [[_ [_ [_ [H4 _]]]] _].
  unfold startswith in Hd. cbn [String.prefix] in Hd.
  cbn [lstrip mem_char]. rewrite H4.
  destruct (Ascii.ascii_dec "." c) as [<-|N].
  - rewrite prefix_empty in Hd. discriminate.
  - apply not_eq_sym in N. apply Ascii.eqb_neq in N. rewrite N. reflexivity.
Qed.

(** What [_expand] makes of a plain name that does not begin with a dot. *)
Lemma expand_plain (fs : FileSystem) (x : string) :
  plain_name x = true -> startswith x "." = false ->
  _expand fs x = match Walker.is_dir fs x with
                 | None => Raise OSError
                 | Some true => Ok (x ++ "/**")
                 | Some false => Ok x
                 end.
Proof.
  intros H Hd. destruct (plain_name_parts x H) as [H1 [_ [_ H4]]].
  unfold _expand.
  rewrite (normalize_plain x H), (lstrip_plain x H Hd), (rstrip_plain x H4).
  destruct (String.eqb_spec x "*") as [E|_]; [subst x; vm_compute in H1; discriminate|].
  destruct (String.eqb_spec x "**") as [E|_]; [subst x; vm_compute in H1; discriminate|].
  reflexivity.
Qed.

Lemma passes_selection_parts (include exclude : list string) (use_gitignore : bool)
    (gitignore_patterns : list string) (rel_path : string) :
  passes_selection include exclude use_gitignore gitignore_patterns rel_path = true ->
  existsb (fun pattern => fnmatch rel_path pattern) include = true /\
  existsb (fun pattern => _matches_exclude_pattern rel_path pattern) exclude = false /\
  (use_gitignore = true ->
   existsb (_matches_gitignore_pattern rel_path) gitignore_patterns = false).
Proof.
  unfold passes_selection, _should_exclude_by_gitignore.
  destruct (existsb (fun pattern => fnmatch rel_path pattern) include); [|discriminate].
  destruct (existsb (fun pattern => _matches_exclude_pattern rel_path pattern) exclude);
    [discriminate|].
  destruct use_gitignore; cbn [negb andb].
  - destruct (existsb (_matches_gitignore_pattern rel_path) gitignore_patterns);
      [discriminate|auto].
  - intros _. repeat split. discriminate.
Qed.

Lemma collected_passes (fs : FileSystem) (include exclude : option (list string))
    (max_size : Z) (binary_strict use_gitignore : bool) (files : list FileInfo)
    (info : FileInfo) :
  collect_files fs include exclude max_size binary_strict use_gitignore = Ok files ->
  In info files ->
  exists gitignore_patterns inc exc,
    (if use_gitignore then _load_gitignore_patterns (gitignore fs) else Ok [])
    = Ok gitignore_patterns /\
    effective_include fs include = Ok inc /\
    effective_exclude fs inc exclude = Ok exc /\
    passes_selection inc exc use_gitignore gitignore_patterns
      (rel_path_of (Walker.path info)) = true.
Proof.
  intros Hc Hin.
  destruct (collect_files_ok _ _ _ _ _ _ _ Hc) as [pats [inc [exc [Hl [Hi [He ->]]]]]].
  exists pats, inc, exc. split; [exact Hl|]. split; [exact Hi|]. split; [exact He|].
  apply visit_all_in in Hin. destruct Hin as [e [_ Hv]].
  unfold visit in Hv.
  destruct (negb (is_file e)); [discriminate|].
  destruct (passes_selection _ _ _ _ _) eqn:Hs; cbn [negb] in Hv; [|discriminate].
  destruct (is_binary e binary_strict); [discriminate|].
  destruct (stat e) as [[sz mt]|]; [|discriminate].
  destruct (negb (readable e)); [discriminate|].
  destruct (max_size <? sz)%Z; [discriminate|].
  injection Hv as <-. exact Hs.
Qed.

Lemma map_result_in {A B : Type} (f : A -> result B) (l : list A) (l' : list B) (x : A) :
  map_result f l = Ok l' -> In x l -> exists y, f x = Ok y /\ In y l'.
Proof.
  intros H. apply map_result_ok in H.
  induction H as [|a b l l' Hab _ IH]; [contradiction|].
  intros [->|Hin].
  - exists b. split; [exact Hab|left; reflexivity].
  - destruct (IH Hin) as [y [Hy Hin']]. exists y. split; [exact Hy|right; exact Hin'].
Qed.

Lemma existsb_false_in {A : Type} (f : A -> bool) (l : list A) (a : A) :
  existsb f l = false -> In a l -> f a = false.
Proof.
  intros H Hin. destruct (f a) eqn:E; [|reflexivity].
  assert (existsb f l = true) by (apply existsb_exists; eauto). congruence.
Qed.

(** X17. When the exclude list holds a plain name that does not begin with
    a dot, no file [collect_files] returns has that name as a segment of its
    relative path, whether or not the name is a directory at the root. *)
Theorem excluded_name_never_collected (fs : FileSystem) (include : option (list string))
    (exclude : list string) (max_size : Z) (binary_strict use_gitignore : bool)
    (files : list FileInfo) (info : FileInfo) (x : string) :
  plain_name x = true -> startswith x "." = false -> In x exclude ->
  collect_files fs include (Some exclude) max_size binary_strict use_gitignore = Ok files ->
  In info files ->
  ~ In x (segments (rel_path_of (Walker.path info))).
Proof.
  intros H Hd Hx Hc Hin Hseg.
  destruct (collected_passes _ _ _ _ _ _ _ _ Hc Hin) as [pats [inc [exc [_ [Hi [He Hs]]]]]].
  apply passes_selection_parts in Hs. destruct Hs as [_ [Hn _]].
  destruct (effective_exclude_ok fs include (Some exclude) inc exc Hi He) as [exc0 [H0 ->]].
  assert (Hl : In x (or_default (Some exclude) []))
    by (destruct exclude; [contradiction|exact Hx]).
  destruct (map_result_in _ _ _ x H0 Hl) as [y [Hy Hin0]].
  assert (Hm : In y (exc0 ++ [".git/**"; ".git"])%list) by (apply in_or_app; left; exact Hin0).
  pose proof (existsb_false_in _ _ _ Hn Hm) as Hf. cbv beta in Hf.
  rewrite (expand_plain fs x H Hd) in Hy.
  destruct (Walker.is_dir fs x) as [[|]|]; [| |discriminate]; injection Hy as <-.
  - apply (proj1 (exclude_recursive_iff _ x H)) in Hseg. congruence.
  - apply (exclude_name_iff _ x H) in Hseg. congruence.
Qed.

(** X18. When the rules loaded from [.gitignore] hold a plain name, or a
    plain name followed by a slash, and gitignore support is on, no file
    [collect_files] returns has that name as a segment of its relative
    path. *)
Theorem ignored_name_never_collected (fs : FileSystem) (include exclude : option (list string))
    (max_size : Z) (binary_strict : bool) (rules : list string)
    (files : list FileInfo) (info : FileInfo) (x : string) :
  plain_name x = true ->
  _load_gitignore_patterns (gitignore fs) = Ok rules ->
  In x rules \/ In (x ++ "/") rules ->
  collect_files fs include exclude max_size binary_strict true = Ok files ->
  In info files ->
  ~ In x (segments (rel_path_of (Walker.path info))).
Proof.
  intros H Hr Hx Hc Hin Hseg.
  destruct (collected_passes _ _ _ _ _ _ _ _ Hc Hin) as [pats [inc [exc [Hp [_ [_ Hs]]]]]].
  rewrite Hr in Hp. injection Hp as <-.
  apply passes_selection_parts in Hs. destruct Hs as [_ [_ Hg]].
  specialize (Hg eq_refl). destruct Hx as [Hx|Hx].
  - pose proof (existsb_false_in _ _ _ Hg Hx) as Hf.
    apply (gitignore_name_iff _ x H) in Hseg. congruence.
  - pose proof (existsb_false_in _ _ _ Hg Hx) as Hf.
    apply (gitignore_dir_iff _ x H) in Hseg. congruence.
Qed.

(** X19. When the include list is one plain name that does not begin with a
    dot, every file [collect_files] returns is the file of that name at the
    root if the name is not a directory there, and lies below that directory
    of the root if it is: unlike an exclusion, an included name is not
    looked for at greater depth. *)
Theorem include_name_confines (fs : FileSystem) (exclude : option (list string))
    (max_size : Z) (binary_strict use_gitignore : bool)
    (files : list FileInfo) (info : FileInfo) (x : string) :
  plain_name x = true -> startswith x "." = false ->
  collect_files fs (Some [x]) exclude max_size binary_strict use_gitignore = Ok files ->
  In info files ->
  exists d,
    Walker.is_dir fs x = Some d /\
    if d
    then exists below, rel_path_of (Walker.path info) = x ++ "/" ++ below
    else rel_path_of (Walker.path info) = x.
Proof.
  intros H Hd Hc Hin.
  destruct (collected_passes _ _ _ _ _ _ _ _ Hc Hin) as [pats [inc [exc [_ [Hi [_ Hs]]]]]].
  apply passes_selection_parts in Hs. destruct Hs as [Hm _].
  unfold effective_include in Hi. cbn [or_default map_result] in Hi.
  rewrite (expand_plain fs x H Hd) in Hi.
  destruct (Walker.is_dir fs x) as [[|]|]; cbn [bind] in Hi; [| |discriminate];
    injection Hi as <-; cbn [existsb] in Hm; rewrite orb_false_r in Hm.
  - exists true. split; [reflexivity|]. apply (fnmatch_under x _ H). exact Hm.
  - exists false. split; [reflexivity|]. apply (fnmatch_plain x _ H). exact Hm.
Qed.

Lemma excluded_name_never_collected_witness :
  (plain_name "build" = true /\ startswith "build" "." = false /\ In "build" ["build"] /\
   collect_files repo_with_build None (Some ["build"]) DEFAULT_MAX_SIZE true false
   = Ok [mkFileInfo [".gitignore"] 7 0; mkFileInfo ["src"; "main.py"] 20 0] /\
   In (mkFileInfo ["src"; "main.py"] 20 0)
      [mkFileInfo [".gitignore"] 7 0; mkFileInfo ["src"; "main.py"] 20 0]) /\
  ~ In "build" (segments (rel_path_of (Walker.path (mkFileInfo ["src"; "main.py"] 20 0)))).
Proof.
  assert (Hx : In "build" ["build"]) by (left; reflexivity).
  assert (Hc : collect_files repo_with_build None (Some ["build"]) DEFAULT_MAX_SIZE true false
               = Ok [mkFileInfo [".gitignore"] 7 0; mkFileInfo ["src"; "main.py"] 20 0])
    by reflexivity.
  assert (Hin : In (mkFileInfo ["src"; "main.py"] 20 0)
                   [mkFileInfo [".gitignore"] 7 0; mkFileInfo ["src"; "main.py"] 20 0])
    by (right; left; reflexivity).
  split; [split; [reflexivity|split; [reflexivity|split; [exact Hx|split; [exact Hc|exact Hin]]]]|].
  exact (excluded_name_never_collected repo_with_build None ["build"] DEFAULT_MAX_SIZE
           true false _ _ "build" eq_refl eq_refl Hx Hc Hin).
Defined.

Lemma ignored_name_never_collected_witness :
  (plain_name "build" = true /\
   _load_gitignore_patterns (gitignore repo_with_build) = Ok ["build/"] /\
   (In "build" ["build/"] \/ In ("build" ++ "/") ["build/"]) /\
   collect_files repo_with_build None None DEFAULT_MAX_SIZE true true
   = Ok [mkFileInfo [".gitignore"] 7 0; mkFileInfo ["src"; "main.py"] 20 0] /\
   In (mkFileInfo ["src"; "main.py"] 20 0)
      [mkFileInfo [".gitignore"] 7 0; mkFileInfo ["src"; "main.py"] 20 0]) /\
  ~ In "build" (segments (rel_path_of (Walker.path (mkFileInfo ["src"; "main.py"] 20 0)))).
Proof.
  assert (Hx : In "build" ["build/"] \/ In ("build" ++ "/") ["build/"])
    by (right; left; reflexivity).
  assert (Hc : collect_files repo_with_build None None DEFAULT_MAX_SIZE true true
               = Ok [mkFileInfo [".gitignore"] 7 0; mkFileInfo ["src"; "main.py"] 20 0])
    by reflexivity.
  assert (Hin : In (mkFileInfo ["src"; "main.py"] 20 0)
                   [mkFileInfo [".gitignore"] 7 0; mkFileInfo ["src"; "main.py"] 20 0])
    by (right; left; reflexivity).
  split; [split; [reflexivity|split; [reflexivity|split; [exact Hx|split; [exact Hc|exact Hin]]]]|].
  exact (ignored_name_never_collected repo_with_build None None DEFAULT_MAX_SIZE true
           ["build/"] _ _ "build" eq_refl eq_refl Hx Hc Hin).
Defined.

Lemma include_name_confines_witness :
  (plain_name "src" = true /\ startswith "src" "." = false /\
   collect_files repo_with_build (Some ["src"]) None DEFAULT_MAX_SIZE true true
   = Ok [mkFileInfo ["src"; "main.py"] 20 0] /\
   In (mkFileInfo ["src"; "main.py"] 20 0) [mkFileInfo ["src"; "main.py"] 20 0]) /\
  (exists d,
     Walker.is_dir repo_with_build "src" = Some d /\
     if d
     then exists below,
            rel_path_of (Walker.path (mkFileInfo ["src"; "main.py"] 20 0))
            = "src" ++ "/" ++ below
     else rel_path_of (Walker.path (mkFileInfo ["src"; "main.py"] 20 0)) = "src").
Proof.
  assert (Hc : collect_files repo_with_build (Some ["src"]) None DEFAULT_MAX_SIZE true true
               = Ok [mkFileInfo ["src"; "main.py"] 20 0]) by reflexivity.
  assert (Hin : In (mkFileInfo ["src"; "main.py"] 20 0) [mkFileInfo ["src"; "main.py"] 20 0])
    by (left; reflexivity).
  split; [split; [reflexivity|split; [reflexivity|split; [exact Hc|exact Hin]]]|].
  exact (include_name_confines repo_with_build None DEFAULT_MAX_SIZE true true _ _ "src"
           eq_refl eq_refl Hc Hin).
Defined.

End PlainNames.
